(** * Podofilo V2 core: layout, thumbnail caches and smart redraw

    A shallow embedding of the rendering core of the PDF manager:
    - [PageCache]  : src/pdf/cache.py (LRU cache of rendered pages);
    - [Viewer]     : src/ui/pdf_viewer.py (thumbnail lookup with fast rescale);
    - [Layout]     : src/ui/virtual_grid.py, class VirtualLayout;
    - [Grid]       : src/ui/virtual_grid.py, class VirtualGrid;
    - [SectionManager] : src/pdf/structure.py (the sections of a document);
    - [PdfViewer]  : src/ui/pdf_viewer.py (page list, selection and marks).

    Python integers are [Z]; a Python [dict] whose iteration order is never
    observed is a [gmap], one whose order is observed is an association list;
    a Python [set] of integers is a [gset Z].  An exception is a [Raise]
    result; the state reached when it was raised is kept, as the mutated
    object survives the exception in Python. *)

From Stdlib Require Import ZArith QArith Qround Lia.
From stdpp Require Import gmap strings list fin_maps pretty sorting.

Set Default Proof Using "Type".
Local Open Scope Z_scope.

(** ** Python results and list primitives *)

Inductive exn := IndexError | KeyError | ValueError.

Inductive res (A : Type) :=
  | Ok (a : A)
  | Raise (e : exn).
Arguments Ok {A} a.
Arguments Raise {A} e.

Definition is_ok {A} (r : res A) : bool :=
  match r with Ok _ => true | Raise _ => false end.

(** [l[i]] with Python's negative indices. *)
Definition py_index {A} (l : list A) (i : Z) : res A :=
  let n := Z.of_nat (length l) in
  let j := if i <? 0 then i + n else i in
  if (0 <=? j) && (j <? n) then
    match l !! Z.to_nat j with
    | Some a => Ok a
    | None => Raise IndexError
    end
  else Raise IndexError.

(** [l.remove(x)]: drops the first occurrence; [None] stands for the
    [ValueError] raised when there is none. *)
Fixpoint py_remove {A} `{EqDecision A} (x : A) (l : list A) : option (list A) :=
  match l with
  | [] => None
  | y :: l' => if decide (x = y) then Some l'
               else cons y <$> py_remove x l'
  end.

(** [len(l)] *)
Definition len {A} (l : list A) : Z := Z.of_nat (length l).

(** [range(a, b)] *)
Definition py_range (a b : Z) : list Z :=
  (fun k => a + Z.of_nat k) <$> seq 0 (Z.to_nat (b - a)).

(** ** A state-and-exception monad

    [M S A] is a Python method on an object of state [S] returning an [A]:
    it may mutate the object and may raise. *)

Definition M (S A : Type) : Type := S → S * res A.

Definition ret {S A} (a : A) : M S A := λ s, (s, Ok a).

Definition bind {S A B} (m : M S A) (k : A → M S B) : M S B :=
  λ s, match m s with
       | (s', Ok a) => k a s'
       | (s', Raise e) => (s', Raise e)
       end.

Global Instance M_ret S : MRet (M S) := λ A, ret.
Global Instance M_bind S : MBind (M S) := λ A B k m, bind m k.

Definition raise {S A} (e : exn) : M S A := λ s, (s, Raise e).
Definition gets {S A} (f : S → A) : M S A := λ s, (s, Ok (f s)).
Definition modify {S} (f : S → S) : M S unit := λ s, (f s, Ok ()).
Definition lift_res {S A} (r : res A) : M S A := λ s, (s, r).

(** [try: m  except: h] *)
Definition try_except {S A} (m : M S A) (h : M S A) : M S A :=
  λ s, match m s with
       | (s', Ok a) => (s', Ok a)
       | (s', Raise _) => h s'
       end.

(** [for a in l: body(a)] *)
Fixpoint for_each {S A} (l : list A) (body : A → M S unit) : M S unit :=
  match l with
  | [] => ret ()
  | a :: l' => bind (body a) (λ _, for_each l' body)
  end.

(** [if b: m] *)
Definition when {S} (b : bool) (m : M S unit) : M S unit :=
  if b then m else ret ().

(** ** src/pdf/cache.py *)

Module PageCache.

(** A PIL image: an opaque raster, or the result of [Image.resize] on one.
    Pixel sizes are float computations in the source and are not tracked;
    [Resized src to_dpi from_dpi] records the scale [to_dpi / from_dpi]. *)
Inductive Image :=
  | Raster (id : Z)
  | Resized (src : Image) (to_dpi from_dpi : Z).

Record t := mk {
  max_size : Z;
  _cache : gmap string Image;
  _access_order : list string
}.

(** [PageCache(max_size)] *)
Definition init (n : Z) : t := mk n ∅ [].

(** [f"{pdf_path}:{page_num}:{dpi}"] *)
Definition _make_key (pdf_path : string) (page_num dpi : Z) : string :=
  pdf_path +:+ ":" +:+ pretty page_num +:+ ":" +:+ pretty dpi.

(** The body of [get] after the key is built. *)
Definition get_key (c : t) (key : string) : t * res (option Image) :=
  match _cache c !! key with
  | Some img =>
      match py_remove key (_access_order c) with
      | Some l => (mk (max_size c) (_cache c) (l ++ [key]), Ok (Some img))
      | None => (c, Raise ValueError)
      end
  | None => (c, Ok None)
  end.

Definition get (c : t) (pdf_path : string) (page_num dpi : Z) : t * res (option Image) :=
  get_key c (_make_key pdf_path page_num dpi).

(** The body of [put] after the key is built.  The eviction pops the head
    of [_access_order] before deleting it from the dict, so a failing
    [del] leaves the list already shortened. *)
Definition put_key (c : t) (key : string) (image : Image) : t * res unit :=
  let evicted :=
    if (max_size c <=? Z.of_nat (size (_cache c))) && bool_decide (_cache c !! key = None) then
      match _access_order c with
      | [] => (c, Raise IndexError)
      | oldest_key :: rest =>
          match _cache c !! oldest_key with
          | Some _ => (mk (max_size c) (delete oldest_key (_cache c)) rest, Ok ())
          | None => (mk (max_size c) (_cache c) rest, Raise KeyError)
          end
      end
    else (c, Ok ()) in
  match evicted with
  | (c1, Ok _) =>
      let order :=
        match py_remove key (_access_order c1) with
        | Some l => l
        | None => _access_order c1
        end in
      (mk (max_size c1) (<[key := image]> (_cache c1)) (order ++ [key]), Ok ())
  | (c1, Raise e) => (c1, Raise e)
  end.

Definition put (c : t) (pdf_path : string) (page_num dpi : Z) (image : Image) : t * res unit :=
  put_key c (_make_key pdf_path page_num dpi) image.

Definition clear (c : t) : t := mk (max_size c) ∅ [].

(** The loop of [clear_pdf] over [keys_to_remove]. *)
Fixpoint remove_keys (keys : list string) (c : t) : t * res unit :=
  match keys with
  | [] => (c, Ok ())
  | key :: keys' =>
      match _cache c !! key with
      | None => (c, Raise KeyError)
      | Some _ =>
          let c1 := mk (max_size c) (delete key (_cache c)) (_access_order c) in
          match py_remove key (_access_order c1) with
          | None => (c1, Raise ValueError)
          | Some l => remove_keys keys' (mk (max_size c1) (_cache c1) l)
          end
      end
  end.

(** [clear_pdf].  The dict is walked in the map's key order; the order
    only shows in the state left behind by a [remove] that raises. *)
Definition clear_pdf (c : t) (pdf_path : string) : t * res unit :=
  let keys_to_remove :=
    filter (fun k => String.prefix (pdf_path +:+ ":") k = true)
           (elements (dom (_cache c))) in
  remove_keys keys_to_remove c.

(** The public operations, for runs of the cache. *)
Inductive op :=
  | Get (pdf_path : string) (page_num dpi : Z)
  | Put (pdf_path : string) (page_num dpi : Z) (image : Image)
  | Clear
  | ClearPdf (pdf_path : string).

Definition step (c : t) (o : op) : t :=
  match o with
  | Get p n d => fst (get c p n d)
  | Put p n d img => fst (put c p n d img)
  | Clear => clear c
  | ClearPdf p => fst (clear_pdf c p)
  end.

Definition run (ops : list op) (c : t) : t := foldl step c ops.

(** The invariant tying the dict to the access-order list. *)
Definition consistent (c : t) : Prop :=
  NoDup (_access_order c) ∧
  ∀ k, k ∈ _access_order c ↔ is_Some (_cache c !! k).

Definition bounded (c : t) : Prop :=
  Z.of_nat (size (_cache c)) <= max_size c.

(** Recency, for stating what "least recently accessed" means: a ghost
    clock that ticks once per operation and stamps the key an operation
    accesses (a [get] that finds its key, or a [put]).  The clock is not
    part of the program; [run_clock] runs the cache exactly as [run] does. *)
Definition accessed (c : t) (o : op) : option string :=
  match o with
  | Get p n d =>
      match _cache c !! _make_key p n d with
      | Some _ => Some (_make_key p n d)
      | None => None
      end
  | Put p n d _ => Some (_make_key p n d)
  | Clear | ClearPdf _ => None
  end.

Record clocked := Clocked {
  cache_of : t;
  stamps : gmap string nat;
  now : nat
}.

Definition step_clock (s : clocked) (o : op) : clocked :=
  Clocked (step (cache_of s) o)
          (match accessed (cache_of s) o with
           | Some k => <[k := now s]> (stamps s)
           | None => stamps s
           end)
          (S (now s)).

Definition run_clock (ops : list op) (s : clocked) : clocked := foldl step_clock s ops.

Definition start (n : Z) : clocked := Clocked (init n) ∅ 0.

(** [put] of a list of key/image pairs, one after the other. *)
Definition put_all (kvs : list (string * Image)) (c : t) : t :=
  foldl (λ c kv, (put_key c kv.1 kv.2).1) c kvs.

End PageCache.

(** ** src/ui/pdf_viewer.py *)

Module Viewer.
Import PageCache.

(** [PdfDocument]: the path it was opened from. *)
Record PdfDocument := { filepath : string }.

(** The viewer: its documents, the global page list [(doc_idx, page_num)]
    and the shared cache.  [rendered] is a log of the calls made to
    [doc.render_page_thumbnail], kept to tell a fresh render from a reuse. *)
Record t := mk {
  documents : list PdfDocument;
  pages : list (Z * Z);
  cache : PageCache.t;
  rendered : list (string * Z * Z)
}.

Definition set_cache (c : PageCache.t) (v : t) : t :=
  mk (documents v) (pages v) c (rendered v).

(** [self.cache.get(...)] and [self.cache.put(...)] on the viewer's cache. *)
Definition cache_get (pdf_path : string) (page_num dpi : Z) : M t (option Image) :=
  λ v, let r := PageCache.get (cache v) pdf_path page_num dpi in
       (set_cache r.1 v, r.2).

Definition cache_put (pdf_path : string) (page_num dpi : Z) (image : Image) : M t unit :=
  λ v, let r := PageCache.put (cache v) pdf_path page_num dpi image in
       (set_cache r.1 v, r.2).

(** [common_dpis] *)
Definition common_dpis : list Z := [72; 96; 150; 200].

(** [sorted(l, key=key)]: a stable sort by ascending key. *)
Fixpoint insert_by (key : Z → Z) (x : Z) (l : list Z) : list Z :=
  match l with
  | [] => [x]
  | y :: l' => if key x <=? key y then x :: y :: l' else y :: insert_by key x l'
  end.

Definition sorted_by (key : Z → Z) (l : list Z) : list Z :=
  foldr (insert_by key) [] l.

(** [scale_factor = target_dpi / best_dpi; scale_factor <= 1.5].  The
    divisor is one of the positive [common_dpis]; true division of two
    integers is correctly rounded and [1.5] is a float, so the float test
    agrees with the exact one, [2 * target_dpi <= 3 * best_dpi]. *)
Definition scale_within (target_dpi best_dpi : Z) : bool :=
  2 * target_dpi <=? 3 * best_dpi.

Section renderer.

(** [PdfDocument.render_page_thumbnail(page_num, dpi)], the rasteriser. *)
Variable render_page_thumbnail : PdfDocument → Z → Z → res Image.

Definition render (doc : PdfDocument) (page_num dpi : Z) : M t Image :=
  λ v, (mk (documents v) (pages v) (cache v)
           (rendered v ++ [(filepath doc, page_num, dpi)]),
        render_page_thumbnail doc page_num dpi).

Definition get_page_thumbnail (page_idx dpi : Z) : M t Image :=
  ps ← gets pages;
  if (page_idx <? 0) || (len ps <=? page_idx) then raise IndexError else
  p ← lift_res (py_index ps page_idx);
  docs ← gets documents;
  doc ← lift_res (py_index docs p.1);
  cached ← cache_get (filepath doc) p.2 dpi;
  match cached with
  | Some img => mret img
  | None =>
      image ← render doc p.2 dpi;
      cache_put (filepath doc) p.2 dpi image;;
      mret image
  end.

(** The loop over the sorted DPIs, left at the first one that is cached. *)
Fixpoint first_cached (pdf_path : string) (page_num : Z) (dpis : list Z)
    : M t (option (Image * Z)) :=
  match dpis with
  | [] => mret None
  | dpi :: rest =>
      cached ← cache_get pdf_path page_num dpi;
      match cached with
      | Some img => mret (Some (img, dpi))
      | None => first_cached pdf_path page_num rest
      end
  end.

Definition get_page_thumbnail_fast (page_idx target_dpi : Z) : M t Image :=
  ps ← gets pages;
  if (page_idx <? 0) || (len ps <=? page_idx) then raise IndexError else
  p ← lift_res (py_index ps page_idx);
  docs ← gets documents;
  doc ← lift_res (py_index docs p.1);
  exact_cached ← cache_get (filepath doc) p.2 target_dpi;
  match exact_cached with
  | Some img => mret img
  | None =>
      best ← first_cached (filepath doc) p.2
               (sorted_by (λ d, Z.abs (d - target_dpi)) common_dpis);
      match best with
      | Some (best_cached, best_dpi) =>
          if bool_decide (best_dpi ≠ target_dpi) then
            if scale_within target_dpi best_dpi then
              mret (Resized best_cached target_dpi best_dpi)
            else get_page_thumbnail page_idx target_dpi
          else mret best_cached
      | None => get_page_thumbnail page_idx target_dpi
      end
  end.

End renderer.

End Viewer.

(** ** Insertion-ordered dictionaries

    A Python [dict] whose iteration order the code observes: an association
    list with distinct keys, in order of first insertion. *)

Definition odict (K V : Type) : Type := list (K * V).

Fixpoint od_get {K V} `{EqDecision K} (d : odict K V) (k : K) : option V :=
  match d with
  | [] => None
  | (k', v) :: d' => if decide (k = k') then Some v else od_get d' k
  end.

(** [d[k] = v]: in place when [k] is present, else appended. *)
Fixpoint od_set {K V} `{EqDecision K} (d : odict K V) (k : K) (v : V) : odict K V :=
  match d with
  | [] => [(k, v)]
  | (k', v') :: d' =>
      if decide (k = k') then (k, v) :: d' else (k', v') :: od_set d' k v
  end.

(** [del d[k]] for a key that is present. *)
Fixpoint od_del {K V} `{EqDecision K} (d : odict K V) (k : K) : odict K V :=
  match d with
  | [] => []
  | (k', v') :: d' => if decide (k = k') then d' else (k', v') :: od_del d' k
  end.

Definition od_mem {K V} `{EqDecision K} (d : odict K V) (k : K) : bool :=
  bool_decide (is_Some (od_get d k)).

(** [enumerate(l)] *)
Definition enumerate {A} (l : list A) : list (nat * A) := imap (λ i a, (i, a)) l.

(** ** src/ui/virtual_grid.py: VirtualLayout *)

Module Layout.

(** [Section] of src/pdf/structure.py, the fields the layout and the grid read. *)
Record Section_ := {
  title : string;
  start_page : Z;
  page_count : Z
}.

Definition end_page (s : Section_) : Z := start_page s + page_count s.

(** [(x, y, width, height)] *)
Definition position : Type := Z * Z * Z * Z.

Record t := mk {
  width : Z;
  total_height : Z;
  positions : list position;
  row_heights : gmap Z Z;
  sepsize : Z;
  continuous_mode : bool;
  section_header_coords : odict nat (Z * Z * Z);
  section_bounds : gmap nat (Z * Z)
}.

(** [VirtualLayout()] *)
Definition init : t := mk 1000 0 [] ∅ 3 false [] ∅.

(** The local variables of [update]'s loop. *)
Record locals := Locals {
  x : Z;
  y : Z;
  row_height : Z;
  current_section_start_y : Z;
  active_section_idx : nat
}.

(** [{s.start_page: i for i, s in enumerate(sections)}] *)
Definition section_starts_of (sections : list Section_) : gmap Z nat :=
  foldl (λ m e, <[start_page e.2 := e.1]> m) ∅ (enumerate sections).

(** [self.row_heights[y] = h] *)
Definition set_row_height (y h : Z) (L : t) : t :=
  mk (width L) (total_height L) (positions L) (<[y := h]> (row_heights L))
     (sepsize L) (continuous_mode L) (section_header_coords L) (section_bounds L).

(** [self.section_bounds[i] = b] *)
Definition set_section_bound (i : nat) (b : Z * Z) (L : t) : t :=
  mk (width L) (total_height L) (positions L) (row_heights L)
     (sepsize L) (continuous_mode L) (section_header_coords L)
     (<[i := b]> (section_bounds L)).

(** [self.section_header_coords[i] = c] *)
Definition set_header_coords (i : nat) (c : Z * Z * Z) (L : t) : t :=
  mk (width L) (total_height L) (positions L) (row_heights L)
     (sepsize L) (continuous_mode L) (od_set (section_header_coords L) i c)
     (section_bounds L).

(** [self.positions.append(p)] *)
Definition append_position (p : position) (L : t) : t :=
  mk (width L) (total_height L) (positions L ++ [p]) (row_heights L)
     (sepsize L) (continuous_mode L) (section_header_coords L) (section_bounds L).

Definition set_total_height (h : Z) (L : t) : t :=
  mk (width L) h (positions L) (row_heights L)
     (sepsize L) (continuous_mode L) (section_header_coords L) (section_bounds L).

(** [for skipped_idx in range(a, b): self.section_bounds[skipped_idx] = (y, y)] *)
Definition skip_sections (a b : nat) (y : Z) (L : t) : t :=
  foldl (λ L i, set_section_bound i (y, y) L) L (seq a (b - a)).

(** Lines 313-338: the item at index [i] starts a section other than the
    active one. *)
Definition switch_section (i : nat) (section_starts : gmap Z nat)
    (Ll : t * locals) : t * locals :=
  let '(L, l) := Ll in
  match section_starts !! Z.of_nat i with
  | Some new_section_idx =>
      if bool_decide (0 < i)%nat && bool_decide (new_section_idx ≠ active_section_idx l) then
        let '(L1, l1) :=
          if negb (continuous_mode L) && ((0 <? row_height l) || (0 <? x l)) then
            let '(L', y') :=
              if 0 <? row_height l
              then (set_row_height (y l) (row_height l) L, y l + row_height l)
              else if 0 <? x l then (L, y l + row_height l)
              else (L, y l) in
            (L', Locals 0 y' 0 (current_section_start_y l) (active_section_idx l))
          else (L, l) in
        let L2 := set_section_bound (active_section_idx l1)
                    (current_section_start_y l1, y l1) L1 in
        let L3 := skip_sections (S (active_section_idx l1)) new_section_idx (y l1) L2 in
        (L3, Locals (x l1) (y l1) (row_height l1) (y l1) new_section_idx)
      else (L, l)
  | None => (L, l)
  end.

(** Lines 341-366: wrap if the item does not fit, place it, advance. *)
Definition place_item (i : nat) (section_starts : gmap Z nat) (wh : Z * Z)
    (Ll : t * locals) : t * locals :=
  let '(L, l) := Ll in
  let item_w := wh.1 + sepsize L in
  let item_h := wh.2 + sepsize L in
  let '(L1, l1) :=
    if (0 <? x l) && (width L <? x l + item_w) then
      (set_row_height (y l) (row_height l) L,
       Locals 0 (y l + row_height l) 0 (current_section_start_y l) (active_section_idx l))
    else (L, l) in
  let L2 := append_position (x l1, y l1, wh.1, wh.2) L1 in
  let L3 :=
    match section_starts !! Z.of_nat i with
    | Some sec_idx => set_header_coords sec_idx (x l1, y l1, 0) L2
    | None => L2
    end in
  (L3, Locals (x l1 + item_w) (y l1) (Z.max (row_height l1) item_h)
              (current_section_start_y l1) (active_section_idx l1)).

(** The body of [for i, (w, h) in enumerate(item_sizes)]. *)
Definition layout_item (section_starts : gmap Z nat) (i : nat) (wh : Z * Z)
    (Ll : t * locals) : t * locals :=
  place_item i section_starts wh (switch_section i section_starts Ll).

(** The loop, from index [i] on. *)
Fixpoint layout_items (section_starts : gmap Z nat) (i : nat)
    (item_sizes : list (Z * Z)) (Ll : t * locals) : t * locals :=
  match item_sizes with
  | [] => Ll
  | wh :: rest =>
      layout_items section_starts (S i) rest (layout_item section_starts i wh Ll)
  end.

(** Lines 277-309: reset, and the header of the first section. *)
Definition begin_update (available_width : Z) (L : t) : t :=
  mk (Z.max 1 available_width) (total_height L) [] ∅
     (sepsize L) (continuous_mode L) [] ∅.

Definition first_section (sections : list Section_) (section_starts : gmap Z nat)
    (L : t) : t * locals :=
  let active :=
    match sections, section_starts !! 0 with
    | _ :: _, Some idx => idx
    | _, _ => 0%nat
    end in
  let L1 :=
    match sections, section_starts !! 0 with
    | _ :: _, Some idx => set_header_coords idx (0, 0, 0) L
    | _, _ => L
    end in
  let L2 :=
    match sections with
    | _ :: _ =>
        if negb (continuous_mode L1) && negb (od_mem (section_header_coords L1) active)
        then set_header_coords active (0, 0, 0) L1
        else L1
    | [] => L1
    end in
  (L2, Locals 0 0 0 0 active).

(** Lines 368-381: the last row, the total height, the last section. *)
Definition finish_rows (sections : list Section_) (Ll : t * locals) : t :=
  let '(L, l) := Ll in
  let '(L1, y1) :=
    if 0 <? row_height l
    then (set_row_height (y l) (row_height l) L, y l + row_height l)
    else (L, y l) in
  let L2 := set_total_height y1 L1 in
  match sections with
  | _ :: _ =>
      skip_sections (S (active_section_idx l)) (length sections) y1
        (set_section_bound (active_section_idx l) (current_section_start_y l, y1) L2)
  | [] => L2
  end.

(** Lines 401-405: the scan for the last item of the section on the
    header's row; [None] stands for the [IndexError] of [positions[p_idx]]. *)
Fixpoint scan_row (ps : list position) (sy : Z) (idxs : list Z) (current_max_x : Z)
    : res Z :=
  match idxs with
  | [] => Ok current_max_x
  | p_idx :: rest =>
      match py_index ps p_idx with
      | Ok (px, py, pw, ph) =>
          if bool_decide (py ≠ sy) then Ok current_max_x
          else scan_row ps sy rest (px + pw)
      | Raise e => Raise e
      end
  end.

(** Lines 385-409, for one entry of [section_header_coords]. *)
Definition header_width (sections : list Section_) (entry : nat * (Z * Z * Z))
    : M t unit :=
  let '(sec_idx, (sx, sy, _)) := entry in
  match sections !! sec_idx with
  | None => raise IndexError
  | Some section =>
      L ← gets id;
      let end_page := start_page section + page_count section in
      let start_item_idx := start_page section in
      line_max_w ←
        (if start_item_idx <? len (positions L) then
           current_max_x ← lift_res
             (scan_row (positions L) sy
                (py_range start_item_idx (Z.min end_page (len (positions L)))) sx);
           mret (current_max_x - sx)
         else mret (width L - sx));
      modify (set_header_coords sec_idx (sx, sy, line_max_w))
  end.

(** [update(item_sizes, available_width, sections)]; [sections = None] and
    [sections = []] behave alike and are both [[]]. *)
Definition update (item_sizes : list (Z * Z)) (available_width : Z)
    (sections : list Section_) : M t unit :=
  modify (begin_update available_width);;
  match item_sizes with
  | [] => modify (set_total_height 0)
  | _ :: _ =>
      let section_starts := section_starts_of sections in
      modify (λ L, finish_rows sections
                (layout_items section_starts 0 item_sizes
                   (first_section sections section_starts L)));;
      match sections with
      | _ :: _ =>
          L ← gets id;
          if continuous_mode L
          then for_each (section_header_coords L) (header_width sections)
          else mret ()
      | [] => mret ()
      end
  end.

(** [get_item_at(x, y)] *)
Definition get_item_at (L : t) (x y : Z) : Z :=
  match list_find (λ p : position,
          let '(px, py, pw, ph) := p in
          px <= x ∧ x <= px + pw ∧ py <= y ∧ y <= py + ph) (positions L) with
  | Some (i, _) => Z.of_nat i
  | None => -1
  end.

(** [get_visible_range(scroll_y, view_height)] *)
Definition visible (scroll_y view_height : Z) (p : position) : bool :=
  let '(x, y, w, h) := p in
  (scroll_y <=? y + h) && (y <=? scroll_y + view_height).

Definition get_visible_range (L : t) (scroll_y view_height : Z) : Z * Z :=
  let r := foldl (λ (acc : option Z * option Z) ip,
                    if visible scroll_y view_height ip.2 then
                      (match acc.1 with
                       | None => Some (Z.of_nat ip.1)
                       | Some s => Some s
                       end, Some (Z.of_nat ip.1 + 1))
                    else acc)
             (None, None) (enumerate (positions L)) in
  (default 0 r.1, default 0 r.2).

(** *** The row packing in the words of the specification

    Walk the items in order; an item is appended to the current row while
    [x + item_width ≤ container_width], item widths including the gap;
    otherwise the row is closed, its height committed, and a new row starts
    at [x = 0]. *)
Record packing := Packing {
  placed : list position;
  rows : gmap Z Z;
  px : Z;
  py : Z;
  prow : Z
}.

Definition pack_item (gap container_width : Z) (P : packing) (wh : Z * Z) : packing :=
  let item_width := wh.1 + gap in
  let item_height := wh.2 + gap in
  if px P + item_width <=? container_width then
    Packing (placed P ++ [(px P, py P, wh.1, wh.2)]) (rows P)
            (px P + item_width) (py P) (Z.max (prow P) item_height)
  else
    Packing (placed P ++ [(0, py P + prow P, wh.1, wh.2)])
            (<[py P := prow P]> (rows P))
            item_width (py P + prow P) item_height.

Definition pack (gap container_width : Z) (items : list (Z * Z)) : packing :=
  let P := foldl (pack_item gap container_width) (Packing [] ∅ 0 0 0) items in
  if 0 <? prow P
  then Packing (placed P) (<[py P := prow P]> (rows P)) 0 (py P + prow P) 0
  else P.

End Layout.

(** ** Python numbers on rationals

    Floats of the source (aspect ratios, progress, coordinates halved) are
    exact rationals here; rounding error of the float arithmetic is not
    modelled. *)

(** [int(q)]: truncation toward zero. *)
Definition py_int (q : Q) : Z :=
  if Qle_bool 0 q then Qfloor q else Qceiling q.

(** [round(q)]: to the nearest integer, ties to the even one. *)
Definition py_round (q : Q) : Z :=
  let f := Qfloor q in
  match Qcompare (q - inject_Z f) (1 # 2) with
  | Lt => f
  | Gt => f + 1
  | Eq => if Z.even f then f else f + 1
  end.

(** [l[i] = v] with Python's negative indices. *)
Definition py_setitem {A} (l : list A) (i : Z) (v : A) : res (list A) :=
  let n := Z.of_nat (length l) in
  let j := if i <? 0 then i + n else i in
  if (0 <=? j) && (j <? n) then Ok (<[Z.to_nat j := v]> l) else Raise IndexError.

(** [sorted(s)] for a set of integers. *)
Definition py_sorted (s : gset Z) : list Z := merge_sort Z.le (elements s).

(** ** The Tk canvas

    Primitives are kept by id with their kind, coordinates, image and the
    [section_header] tag; colours, fonts, texts, anchors and stacking order
    are presentation and are not kept.  Ids are handed out in increasing
    order and never reused, as Tk does. *)

(** A PIL image handed over by the host, and the Tk images shown on the
    canvas: the [ImageTk.PhotoImage] of a PIL image, the tints made with
    [Image.new] for a cell size, and the icons. *)
Record PILImage := { pil_id : Z; pil_width : Z; pil_height : Z }.

Inductive PhotoImage :=
  | Photo (pil : PILImage)
  | SelectionTint (w h : Z)
  | HoverTint (w h : Z)
  | DropLine (h : Z)
  | BoxThumb (w : Z)
  | LoadingIcon
  | ScissorsIcon
  | FanPhoto.

Module Canvas.

Inductive kind := Image | Rectangle | Line | Text | Oval.

Global Instance kind_eq_dec : EqDecision kind.
Proof. solve_decision. Defined.

Record item := Item {
  item_kind : kind;
  coords : list Q;
  image : option PhotoImage;
  tagged_header : bool
}.

Record t := mk {
  items : gmap Z item;
  next_id : Z;
  (** [canvasx(0)], [canvasy(0)]: the scroll offsets *)
  xview : Z;
  yview : Z;
  winfo_width : Z;
  winfo_height : Z;
  scrollregion : Z * Z * Z * Z;
  (** half the height of a glyph of the 36pt icon font, for [bbox] *)
  icon_half_height : Z
}.

Definition with_items (f : gmap Z item → gmap Z item) (c : t) : t :=
  mk (f (items c)) (next_id c) (xview c) (yview c) (winfo_width c) (winfo_height c)
     (scrollregion c) (icon_half_height c).

(** [create_image], [create_rectangle], [create_line], [create_text],
    [create_oval]: a new primitive, whose id is returned. *)
Definition create (k : kind) (cs : list Q) (img : option PhotoImage) (header : bool)
    (c : t) : t * Z :=
  (mk (<[next_id c := Item k cs img header]> (items c)) (next_id c + 1)
      (xview c) (yview c) (winfo_width c) (winfo_height c)
      (scrollregion c) (icon_half_height c),
   next_id c).

(** [delete(id)]; an id that names nothing is ignored. *)
Definition delete (id : Z) (c : t) : t := with_items (base.delete id) c.

(** [delete("all")] *)
Definition delete_all (c : t) : t := with_items (λ _, ∅) c.

(** [delete("section_header")] *)
Definition delete_headers (c : t) : t :=
  with_items (filter (λ kv, tagged_header kv.2 = false)) c.

(** [type(id)] *)
Definition type (c : t) (id : Z) : option kind := item_kind <$> items c !! id.

(** [coords(id, ...)]: moves a primitive. *)
Definition set_coords (id : Z) (cs : list Q) (c : t) : t :=
  with_items (alter (λ it, Item (item_kind it) cs (image it) (tagged_header it)) id) c.

(** [itemconfig(id, image=img)] *)
Definition set_image (id : Z) (img : PhotoImage) (c : t) : t :=
  with_items (alter (λ it, Item (item_kind it) (coords it) (Some img) (tagged_header it)) id) c.

Definition set_scrollregion (r : Z * Z * Z * Z) (c : t) : t :=
  mk (items c) (next_id c) (xview c) (yview c) (winfo_width c) (winfo_height c)
     r (icon_half_height c).

(** [canvasx(x)], [canvasy(y)] *)
Definition canvasx (c : t) (x : Z) : Z := x + xview c.
Definition canvasy (c : t) (y : Z) : Z := y + yview c.

End Canvas.

(** Integer coordinates of a primitive. *)
Definition zs (l : list Z) : list Q := inject_Z <$> l.

(** ** src/ui/virtual_grid.py: VirtualGrid

    The widget's attributes are grouped in a few records ([Data], [Sel],
    [Drag], [Render], [Track], [Host]) next to the canvas; the Python object
    is flat.  Attributes that only keep Tk images alive ([_overlay_refs],
    [_drop_line_refs]) and [original_item_sizes], which is written and never
    read, are left out, as is the sidebar widget. *)

Module Grid.

(** [BoxState] and [DocumentBox] of src/pdf/structure.py.  [thumbnail] is
    the width in pixels of the box's thumbnail once fitted to a box cell, when
    the box has one; [pages] is the number of its pages. *)
Inductive BoxState := LOADING | LOADED | FAILED | QUEUED | CANCELLED | MARKED.

Global Instance BoxState_eq_dec : EqDecision BoxState.
Proof. solve_decision. Defined.

Record DocumentBox := {
  name : string;
  state : BoxState;
  pages : nat;
  thumbnail : option Z;
  progress : Q
}.

Inductive side := Left | Right.

(** A pointer event: its window coordinates, and what
    [canvas.find_overlapping] returns around it. *)
Record Event := { ev_x : Z; ev_y : Z; overlapping : list Z }.

(** The values kept in the per-item dicts of [_drawn_items]: a canvas id,
    [None], the list [_base_ids], or the tuple [_box_state]. *)
Inductive dval :=
  | VId (id : Z)
  | VNone
  | VIds (ids : list Z)
  | VState (s : BoxState) (p : Q).

(** The callbacks into the host that the modelled methods invoke. *)
Inductive HostCall :=
  | OnSelectionChange
  | OnClick (index : Z) (event : Event)
  | OnSplitRequest (gap : Z)
  | OnHeaderRenameRequest (section : Layout.Section_)
  | ParentRenameSection (section : Layout.Section_)
  | OnBoxRenameRequest (index : Z)
  | OnDragEnd (index : Z) (event : Event).

(** [self.after(ms, callback)] *)
Inductive AfterCall :=
  | AfterRenderComplete (index : Z) (pil_img : PILImage)
  | AfterPreloadAdjacentZoomLevels
  | AfterAsyncCalculateSizes.

Record Data := mkData {
  layout : Layout.t;
  item_count : Z;
  thumbnail_size : Z;
  item_sizes : list (Z * Z);
  aspect_ratios : list Q;
  sections : list Layout.Section_;
  document_boxes : list DocumentBox;
  box_mode : bool;
  box_images : gmap Z Z;
  continuous_mode : bool;
  ove_enabled : bool
}.

Record Sel := mkSel {
  selected_indices : gset Z;
  marked_indices : gset Z;
  bracket_start : option Z;
  hover_index : Z;
  hover_side : option side;
  hover_gap : option Z;
  hover_item_index : Z;
  drop_indicator_index : Z;
  cut_mode : bool;
  drop_target_section : option Layout.Section_
}.

(** The drag state, with the attributes of the [DragFanOverlay]. *)
Record Drag := mkDrag {
  drag_active : bool;
  drag_start_x : Z;
  drag_start_y : Z;
  pending_click_index : option Z;
  pending_click_event : option Event;
  fan_active : bool;
  fan_image : bool;
  fan_canvas_item_id : option Z;
  fan_mouse_x : Z;
  fan_mouse_y : Z
}.

(** The image cache by zoom level, the pending renders, and the two queues
    the grid feeds: the tasks given to the thread pool and the callbacks
    given to [after]. *)
Record Render := mkRender {
  images_cache : odict Z (gmap Z PhotoImage);
  max_zoom_levels_cached : Z;
  _pending_renders : gset Z;
  submitted : list (Z * Z);
  after_queue : list AfterCall;
  _shutdown : bool
}.

(** Smart-redraw tracking.  [_drawn_items] maps an index to a dict object;
    the dict objects live in [heap], so that a dict that was dropped from
    [_drawn_items] can still be written through a reference held before. *)
Record Track := mkTrack {
  _drawn_items : gmap Z nat;
  heap : gmap nat (gmap string dval);
  next_loc : nat;
  _static_items : list Z;
  _last_visible_range : Z * Z;
  _last_thumbnail_size : Z;
  _cut_indicator_ids : list Z;
  _bracket_ids : list Z;
  _selection_overlay_cache : gset (Z * Z);
  _hover_overlay_cache : gset (Z * Z);
  _header_items : gmap Z Layout.Section_;
  _header_hit_zones : gmap (Z * Z * Z * Z) Layout.Section_
}.

(** What the host has plugged in, what it was called with, and the widgets
    around the canvas. *)
Record Host := mkHost {
  on_request_image : bool;
  on_selection_change : bool;
  on_click : bool;
  on_split_request : bool;
  on_header_rename_request : bool;
  parent_rename_section : bool;
  on_box_rename_request : bool;
  on_drag_end : bool;
  host_calls : list HostCall;
  scissors_image : bool;
  loading_placeholder : bool;
  scrollbar_mapped : bool;
  light_appearance : bool
}.

Record t := mk {
  data : Data;
  sel : Sel;
  drag : Drag;
  render : Render;
  track : Track;
  host : Host;
  canvas : Canvas.t
}.

(** *** Attribute updates *)

Definition upd_data (f : Data → Data) (g : t) : t :=
  mk (f (data g)) (sel g) (drag g) (render g) (track g) (host g) (canvas g).
Definition upd_sel (f : Sel → Sel) (g : t) : t :=
  mk (data g) (f (sel g)) (drag g) (render g) (track g) (host g) (canvas g).
Definition upd_drag (f : Drag → Drag) (g : t) : t :=
  mk (data g) (sel g) (f (drag g)) (render g) (track g) (host g) (canvas g).
Definition upd_render (f : Render → Render) (g : t) : t :=
  mk (data g) (sel g) (drag g) (f (render g)) (track g) (host g) (canvas g).
Definition upd_track (f : Track → Track) (g : t) : t :=
  mk (data g) (sel g) (drag g) (render g) (f (track g)) (host g) (canvas g).
Definition upd_host (f : Host → Host) (g : t) : t :=
  mk (data g) (sel g) (drag g) (render g) (track g) (f (host g)) (canvas g).
Definition upd_canvas (f : Canvas.t → Canvas.t) (g : t) : t :=
  mk (data g) (sel g) (drag g) (render g) (track g) (host g) (f (canvas g)).

Definition set_layout v (d : Data) : Data :=
  mkData v (item_count d) (thumbnail_size d) (item_sizes d) (aspect_ratios d)
    (sections d) (document_boxes d) (box_mode d) (box_images d) (continuous_mode d)
    (ove_enabled d).
Definition set_thumbnail_size_attr v (d : Data) : Data :=
  mkData (layout d) (item_count d) v (item_sizes d) (aspect_ratios d)
    (sections d) (document_boxes d) (box_mode d) (box_images d) (continuous_mode d)
    (ove_enabled d).
Definition set_item_sizes v (d : Data) : Data :=
  mkData (layout d) (item_count d) (thumbnail_size d) v (aspect_ratios d)
    (sections d) (document_boxes d) (box_mode d) (box_images d) (continuous_mode d)
    (ove_enabled d).
Definition set_aspect_ratios v (d : Data) : Data :=
  mkData (layout d) (item_count d) (thumbnail_size d) (item_sizes d) v
    (sections d) (document_boxes d) (box_mode d) (box_images d) (continuous_mode d)
    (ove_enabled d).
Definition set_document_boxes v (d : Data) : Data :=
  mkData (layout d) (item_count d) (thumbnail_size d) (item_sizes d) (aspect_ratios d)
    (sections d) v (box_mode d) (box_images d) (continuous_mode d) (ove_enabled d).
Definition set_box_images v (d : Data) : Data :=
  mkData (layout d) (item_count d) (thumbnail_size d) (item_sizes d) (aspect_ratios d)
    (sections d) (document_boxes d) (box_mode d) v (continuous_mode d) (ove_enabled d).

Definition enter_box_mode (boxes : list DocumentBox) (d : Data) : Data :=
  mkData (layout d) (len boxes) (thumbnail_size d)
    ((λ _, (150, 200)) <$> boxes) ((λ _, 150 # 200) <$> boxes)
    (sections d) boxes true (box_images d) (continuous_mode d) (ove_enabled d).
Definition set_items count sizes ratios (d : Data) : Data :=
  mkData (layout d) count (thumbnail_size d) sizes ratios
    (sections d) (document_boxes d) (box_mode d) (box_images d) (continuous_mode d)
    (ove_enabled d).
Definition set_sections v (d : Data) : Data :=
  mkData (layout d) (item_count d) (thumbnail_size d) (item_sizes d) (aspect_ratios d)
    v (document_boxes d) (box_mode d) (box_images d) (continuous_mode d) (ove_enabled d).

Definition leave_cut_mode (s : Sel) : Sel :=
  mkSel (selected_indices s) (marked_indices s) (bracket_start s) (hover_index s)
    (hover_side s) None (hover_item_index s) (drop_indicator_index s) false
    (drop_target_section s).
Definition set_selected_indices v (s : Sel) : Sel :=
  mkSel v (marked_indices s) (bracket_start s) (hover_index s) (hover_side s)
    (hover_gap s) (hover_item_index s) (drop_indicator_index s) (cut_mode s)
    (drop_target_section s).
Definition set_bracket_start v (s : Sel) : Sel :=
  mkSel (selected_indices s) (marked_indices s) v (hover_index s) (hover_side s)
    (hover_gap s) (hover_item_index s) (drop_indicator_index s) (cut_mode s)
    (drop_target_section s).
Definition set_drop_indicator_index v (s : Sel) : Sel :=
  mkSel (selected_indices s) (marked_indices s) (bracket_start s) (hover_index s)
    (hover_side s) (hover_gap s) (hover_item_index s) v (cut_mode s)
    (drop_target_section s).
Definition set_drop_target_section v (s : Sel) : Sel :=
  mkSel (selected_indices s) (marked_indices s) (bracket_start s) (hover_index s)
    (hover_side s) (hover_gap s) (hover_item_index s) (drop_indicator_index s)
    (cut_mode s) v.

Definition set_drag_active v (d : Drag) : Drag :=
  mkDrag v (drag_start_x d) (drag_start_y d) (pending_click_index d)
    (pending_click_event d) (fan_active d) (fan_image d) (fan_canvas_item_id d)
    (fan_mouse_x d) (fan_mouse_y d).
Definition set_drag_start x y (d : Drag) : Drag :=
  mkDrag (drag_active d) x y (pending_click_index d)
    (pending_click_event d) (fan_active d) (fan_image d) (fan_canvas_item_id d)
    (fan_mouse_x d) (fan_mouse_y d).
Definition set_pending_click i e (d : Drag) : Drag :=
  mkDrag (drag_active d) (drag_start_x d) (drag_start_y d) i e
    (fan_active d) (fan_image d) (fan_canvas_item_id d) (fan_mouse_x d) (fan_mouse_y d).
Definition set_fan active img id (d : Drag) : Drag :=
  mkDrag (drag_active d) (drag_start_x d) (drag_start_y d) (pending_click_index d)
    (pending_click_event d) active img id (fan_mouse_x d) (fan_mouse_y d).

Definition set_images_cache v (r : Render) : Render :=
  mkRender v (max_zoom_levels_cached r) (_pending_renders r) (submitted r)
    (after_queue r) (_shutdown r).
Definition set_pending_renders v (r : Render) : Render :=
  mkRender (images_cache r) (max_zoom_levels_cached r) v (submitted r)
    (after_queue r) (_shutdown r).
Definition set_submitted v (r : Render) : Render :=
  mkRender (images_cache r) (max_zoom_levels_cached r) (_pending_renders r) v
    (after_queue r) (_shutdown r).
Definition set_after_queue v (r : Render) : Render :=
  mkRender (images_cache r) (max_zoom_levels_cached r) (_pending_renders r)
    (submitted r) v (_shutdown r).

Definition set_drawn_items v (k : Track) : Track :=
  mkTrack v (heap k) (next_loc k) (_static_items k) (_last_visible_range k)
    (_last_thumbnail_size k) (_cut_indicator_ids k) (_bracket_ids k)
    (_selection_overlay_cache k) (_hover_overlay_cache k) (_header_items k)
    (_header_hit_zones k).
Definition set_heap v n (k : Track) : Track :=
  mkTrack (_drawn_items k) v n (_static_items k) (_last_visible_range k)
    (_last_thumbnail_size k) (_cut_indicator_ids k) (_bracket_ids k)
    (_selection_overlay_cache k) (_hover_overlay_cache k) (_header_items k)
    (_header_hit_zones k).
Definition set_static_items v (k : Track) : Track :=
  mkTrack (_drawn_items k) (heap k) (next_loc k) v (_last_visible_range k)
    (_last_thumbnail_size k) (_cut_indicator_ids k) (_bracket_ids k)
    (_selection_overlay_cache k) (_hover_overlay_cache k) (_header_items k)
    (_header_hit_zones k).
Definition set_last_visible_range v (k : Track) : Track :=
  mkTrack (_drawn_items k) (heap k) (next_loc k) (_static_items k) v
    (_last_thumbnail_size k) (_cut_indicator_ids k) (_bracket_ids k)
    (_selection_overlay_cache k) (_hover_overlay_cache k) (_header_items k)
    (_header_hit_zones k).
Definition set_last_thumbnail_size v (k : Track) : Track :=
  mkTrack (_drawn_items k) (heap k) (next_loc k) (_static_items k)
    (_last_visible_range k) v (_cut_indicator_ids k) (_bracket_ids k)
    (_selection_overlay_cache k) (_hover_overlay_cache k) (_header_items k)
    (_header_hit_zones k).
Definition set_cut_indicator_ids v (k : Track) : Track :=
  mkTrack (_drawn_items k) (heap k) (next_loc k) (_static_items k)
    (_last_visible_range k) (_last_thumbnail_size k) v (_bracket_ids k)
    (_selection_overlay_cache k) (_hover_overlay_cache k) (_header_items k)
    (_header_hit_zones k).
Definition set_bracket_ids v (k : Track) : Track :=
  mkTrack (_drawn_items k) (heap k) (next_loc k) (_static_items k)
    (_last_visible_range k) (_last_thumbnail_size k) (_cut_indicator_ids k) v
    (_selection_overlay_cache k) (_hover_overlay_cache k) (_header_items k)
    (_header_hit_zones k).
Definition set_overlay_caches s h (k : Track) : Track :=
  mkTrack (_drawn_items k) (heap k) (next_loc k) (_static_items k)
    (_last_visible_range k) (_last_thumbnail_size k) (_cut_indicator_ids k)
    (_bracket_ids k) s h (_header_items k) (_header_hit_zones k).
Definition set_headers items zones (k : Track) : Track :=
  mkTrack (_drawn_items k) (heap k) (next_loc k) (_static_items k)
    (_last_visible_range k) (_last_thumbnail_size k) (_cut_indicator_ids k)
    (_bracket_ids k) (_selection_overlay_cache k) (_hover_overlay_cache k)
    items zones.

Definition set_host_calls v (h : Host) : Host :=
  mkHost (on_request_image h) (on_selection_change h) (on_click h)
    (on_split_request h) (on_header_rename_request h) (parent_rename_section h)
    (on_box_rename_request h) (on_drag_end h) v (scissors_image h)
    (loading_placeholder h) (scrollbar_mapped h) (light_appearance h).
(** [grid.on_request_image = ...] and [grid.on_click = ...], as the host
    does once the grid is built. *)
Definition plug_on_request_image (h : Host) : Host :=
  mkHost true (on_selection_change h) (on_click h)
    (on_split_request h) (on_header_rename_request h) (parent_rename_section h)
    (on_box_rename_request h) (on_drag_end h) (host_calls h) (scissors_image h)
    (loading_placeholder h) (scrollbar_mapped h) (light_appearance h).
Definition plug_on_click (h : Host) : Host :=
  mkHost (on_request_image h) (on_selection_change h) true
    (on_split_request h) (on_header_rename_request h) (parent_rename_section h)
    (on_box_rename_request h) (on_drag_end h) (host_calls h) (scissors_image h)
    (loading_placeholder h) (scrollbar_mapped h) (light_appearance h).
Definition set_scrollbar_mapped v (h : Host) : Host :=
  mkHost (on_request_image h) (on_selection_change h) (on_click h)
    (on_split_request h) (on_header_rename_request h) (parent_rename_section h)
    (on_box_rename_request h) (on_drag_end h) (host_calls h) (scissors_image h)
    (loading_placeholder h) v (light_appearance h).

(** Calling a host callback: recorded in [host_calls]. *)
Definition call_host (c : HostCall) : M t unit :=
  modify (upd_host (λ h, set_host_calls (host_calls h ++ [c]) h)).

(** A canvas command that returns a value. *)
Definition on_canvas {A} (f : Canvas.t → Canvas.t * A) : M t A :=
  λ g, let r := f (canvas g) in (upd_canvas (λ _, r.1) g, Ok r.2).

Definition canvas_create (k : Canvas.kind) (cs : list Q) (img : option PhotoImage)
    : M t Z :=
  on_canvas (Canvas.create k cs img false).

Definition canvas_delete (id : Z) : M t unit :=
  modify (upd_canvas (Canvas.delete id)).

(** *** The image cache by zoom level *)

(** The [images] property: the dict of the current zoom level, created
    empty when the level has none. *)
Definition images : M t (gmap Z PhotoImage) :=
  g ← gets id;
  match od_get (images_cache (render g)) (thumbnail_size (data g)) with
  | Some level => mret level
  | None =>
      modify (upd_render (λ r,
        set_images_cache (od_set (images_cache r) (thumbnail_size (data g)) ∅) r));;
      mret ∅
  end.

(** [_get_image(index)] *)
Definition _get_image (g : t) (index : Z) : option PhotoImage :=
  default ∅ (od_get (images_cache (render g)) (thumbnail_size (data g))) !! index.

(** [_set_image(index, image)] *)
Definition _set_image (index : Z) (image : PhotoImage) : M t unit :=
  g ← gets id;
  let size := thumbnail_size (data g) in
  let cache0 := images_cache (render g) in
  let cache1 := if od_mem cache0 size then cache0 else od_set cache0 size ∅ in
  let cache2 := od_set cache1 size (<[index := image]> (default ∅ (od_get cache1 size))) in
  let cache3 :=
    if max_zoom_levels_cached (render g) <? len cache2 then
      match cache2 with
      | (oldest_level, _) :: _ =>
          if bool_decide (oldest_level ≠ size) then od_del cache2 oldest_level else cache2
      | [] => cache2
      end
    else cache2 in
  modify (upd_render (set_images_cache cache3)).

(** *** The per-item dicts *)

Definition dict_of (g : t) (loc : nat) : gmap string dval :=
  default ∅ (heap (track g) !! loc).

(** [item_data[key] = v] and [del item_data[key]] through a reference. *)
Definition dict_set (loc : nat) (key : string) (v : dval) : M t unit :=
  modify (upd_track (λ k,
    set_heap (<[loc := <[key := v]> (default ∅ (heap k !! loc))]> (heap k)) (next_loc k) k)).

(** [if index not in self._drawn_items: self._drawn_items[index] = {}],
    then [self._drawn_items[index]]: a reference to the dict. *)
Definition drawn_dict (index : Z) : M t nat :=
  g ← gets id;
  match _drawn_items (track g) !! index with
  | Some loc => mret loc
  | None =>
      let loc := next_loc (track g) in
      modify (upd_track (λ k,
        set_drawn_items (<[index := loc]> (_drawn_items k))
          (set_heap (<[loc := ∅]> (heap k)) (S loc) k)));;
      mret loc
  end.

(** [item_data.get("base")]: an id, or [None] when absent or stored as [None]. *)
Definition base_of (d : gmap string dval) : option Z :=
  match d !! "base"%string with
  | Some (VId id) => Some id
  | _ => None
  end.

(** [_clear_all_drawn_items()] *)
Definition _clear_all_drawn_items : M t unit :=
  modify (upd_canvas Canvas.delete_all);;
  modify (upd_track (λ k,
    set_last_visible_range (0, 0) (set_static_items [] (set_drawn_items ∅ k)))).

(** [self.canvas.delete(obj_id)] for a value found in an item dict. *)
Definition delete_object (v : dval) : M t unit :=
  match v with
  | VId id => canvas_delete id
  | _ => mret ()
  end.

(** [_delete_item_objects(index)] *)
Definition _delete_item_objects (index : Z) : M t unit :=
  g ← gets id;
  match _drawn_items (track g) !! index with
  | None => mret ()
  | Some loc =>
      let item_data := dict_of g loc in
      match item_data !! "_base_ids"%string with
      | Some (VIds ids) => for_each ids canvas_delete
      | _ => mret ()
      end;;
      for_each (map_to_list item_data)
        (λ kv, if String.prefix "_" kv.1 then mret () else delete_object kv.2);;
      modify (upd_track (λ k, set_drawn_items (delete index (_drawn_items k)) k))
  end.

(** *** The render pipeline *)

(** [_render_page_async(index, size)]: the task goes to the thread pool. *)
Definition _render_page_async (index size : Z) : M t unit :=
  g ← gets id;
  if bool_decide (index ∈ _pending_renders (render g)) then mret () else
  level ← images;
  if bool_decide (is_Some (level !! index)) then mret () else
  modify (upd_render (λ r,
    set_submitted (submitted r ++ [(index, size)])
      (set_pending_renders ({[index]} ∪ _pending_renders r) r))).

(** [render_task], run by a worker.  [outcome] is what
    [on_request_image(index, size)] does: it raises, returns [None], or
    returns an image. *)
Definition render_task (index size : Z) (outcome : res (option PILImage)) : M t unit :=
  g ← gets id;
  (if on_request_image (host g) then
     match outcome with
     | Ok (Some pil_img) =>
         modify (upd_render (λ r,
           set_after_queue (after_queue r ++ [AfterRenderComplete index pil_img]) r))
     | Ok None => mret ()
     | Raise _ => mret ()
     end
   else mret ());;
  modify (upd_render (λ r,
    set_pending_renders (_pending_renders r ∖ {[index]}) r)).

(** The default aspect ratio, [0.707]. *)
Definition default_aspect : Q := 707 # 1000.

Definition aspect_of (pil_img : PILImage) : Q :=
  if 0 <? pil_height pil_img
  then inject_Z (pil_width pil_img) / inject_Z (pil_height pil_img)
  else default_aspect.

(** *** Layout refresh *)

(** [_update_layout()]: the layout is recomputed and the scroll region and
    the scrollbar follow. *)
Definition _update_layout : M t unit :=
  g ← gets id;
  let r := Layout.update (item_sizes (data g)) (Canvas.winfo_width (canvas g))
             (sections (data g)) (layout (data g)) in
  modify (upd_data (set_layout r.1));;
  lift_res r.2;;
  let total_height := Layout.total_height r.1 in
  let canvas_height := Canvas.winfo_height (canvas g) in
  scroll_height ←
    (if 1 <? canvas_height then
       modify (upd_host (λ h,
         if canvas_height <? total_height
         then (if scrollbar_mapped h then h else set_scrollbar_mapped true h)
         else (if scrollbar_mapped h then set_scrollbar_mapped false h else h)));;
       mret (Z.max total_height canvas_height)
     else mret total_height);
  modify (upd_canvas (Canvas.set_scrollregion (0, 0, Layout.width r.1, scroll_height))).

(** [self.layout.positions[index]] *)
Definition position_at (index : Z) : M t Layout.position :=
  g ← gets id;
  lift_res (py_index (Layout.positions (layout (data g))) index).

(** *** Document boxes *)

(** [get_box_at(index)] *)
Definition get_box_at (g : t) (index : Z) : option DocumentBox :=
  if (0 <=? index) && (index <? len (document_boxes (data g)))
  then document_boxes (data g) !! Z.to_nat index
  else None.

(** [base_ids.append(self.canvas.create_...(...))] *)
Definition add_base (k : Canvas.kind) (cs : list Q) (img : option PhotoImage)
    (base_ids : list Z) : M t (list Z) :=
  new_id ← canvas_create k cs img;
  mret (base_ids ++ [new_id]).

(** [_draw_box_base(index)] *)
Definition _draw_box_base (index : Z) : M t unit :=
  g ← gets id;
  if len (Layout.positions (layout (data g))) <=? index then mret () else
  p ← position_at index;
  let '(x, y, w, h) := p in
  match get_box_at g index with
  | None => mret ()
  | Some box =>
      loc ← drawn_dict index;
      base_ids ← add_base Canvas.Rectangle (zs [x; y; x + w; y + h]) None [];
      base_ids ←
        match thumbnail box with
        | Some tw =>
            if bool_decide (state box = LOADED) then
              g1 ← gets id;
              (if bool_decide (is_Some (box_images (data g1) !! index)) then mret ()
               else modify (upd_data (λ d, set_box_images (<[index := tw]> (box_images d)) d)));;
              g2 ← gets id;
              match box_images (data g2) !! index with
              | Some width =>
                  add_base Canvas.Image (zs [x + (w - width) / 2; y + 10])
                    (Some (BoxThumb width)) base_ids
              | None => mret base_ids
              end
            else mret base_ids
        | None => mret base_ids
        end;
      base_ids ←
        match state box with
        | LOADING =>
            base_ids ←
              (if loading_placeholder (host g)
               then add_base Canvas.Image (zs [x + (w - 80) / 2; y + (h - 80) / 2 - 30])
                      (Some LoadingIcon) base_ids
               else mret base_ids);
            base_ids ← add_base Canvas.Text (zs [x + w / 2; y + h / 2 + 35]) None base_ids;
            let bar_x := x + 10 in
            let bar_y := y + h - 40 in
            let bar_w := w - 20 in
            let bar_h := 8 in
            base_ids ← add_base Canvas.Rectangle
                         (zs [bar_x; bar_y; bar_x + bar_w; bar_y + bar_h]) None base_ids;
            let progress_w := py_int (inject_Z bar_w * progress box) in
            base_ids ←
              (if 0 <? progress_w
               then add_base Canvas.Rectangle
                      (zs [bar_x; bar_y; bar_x + progress_w; bar_y + bar_h]) None base_ids
               else mret base_ids);
            add_base Canvas.Text (zs [x + w / 2; bar_y + bar_h + 10]) None base_ids
        | FAILED =>
            base_ids ← add_base Canvas.Text (zs [x + w / 2; y + h / 2 - 10]) None base_ids;
            add_base Canvas.Text (zs [x + w / 2; y + h / 2 + 35]) None base_ids
        | QUEUED =>
            base_ids ← add_base Canvas.Text (zs [x + w / 2; y + h / 2]) None base_ids;
            g3 ← gets id;
            let text_y := (y + h / 2 + Canvas.icon_half_height (canvas g3)) + 5 in
            add_base Canvas.Text (zs [x + w / 2; text_y]) None base_ids
        | MARKED =>
            let margin := 10 in
            base_ids ← add_base Canvas.Line
                         (zs [x + margin; y + margin; x + w - margin; y + h - margin])
                         None base_ids;
            add_base Canvas.Line
              (zs [x + w - margin; y + margin; x + margin; y + h - margin]) None base_ids
        | LOADED | CANCELLED => mret base_ids
        end;
      let text_y := y + h - 25 in
      base_ids ← add_base Canvas.Text (zs [x + w / 2; text_y]) None base_ids;
      base_ids ←
        (if bool_decide (state box = LOADED) && bool_decide (pages box ≠ 0%nat)
         then add_base Canvas.Text (zs [x + w / 2; text_y + 15]) None base_ids
         else mret base_ids);
      (* self._drawn_items[index]["base"], self._drawn_items[index]["_base_ids"] *)
      loc' ← drawn_dict index;
      dict_set loc' "base" (match base_ids with id :: _ => VId id | [] => VNone end);;
      dict_set loc' "_base_ids" (VIds base_ids)
  end.

(** The tints and the bracket that [_draw_item_smart] and
    [_draw_box_overlays] draw alike. *)
Definition draw_selection_overlay (loc : nat) (index x y w h : Z) : M t unit :=
  g ← gets id;
  if bool_decide (index ∈ selected_indices (sel g)) then
    modify (upd_track (λ k,
      set_overlay_caches ({[(w, h)]} ∪ _selection_overlay_cache k)
        (_hover_overlay_cache k) k));;
    overlay_id ← canvas_create Canvas.Image (zs [x; y]) (Some (SelectionTint w h));
    dict_set loc "selection" (VId overlay_id)
  else mret ().

Definition draw_hover_overlay (loc : nat) (index x y w h : Z) : M t unit :=
  g ← gets id;
  if bool_decide (index = hover_item_index (sel g)) then
    modify (upd_track (λ k,
      set_overlay_caches (_selection_overlay_cache k)
        ({[(w, h)]} ∪ _hover_overlay_cache k) k));;
    hover_id ← canvas_create Canvas.Image (zs [x; y]) (Some (HoverTint w h));
    dict_set loc "hover" (VId hover_id)
  else mret ().

Definition draw_bracket (index x y w h : Z) : M t unit :=
  g ← gets id;
  if negb (cut_mode (sel g)) && bool_decide (hover_index (sel g) = index) then
    match hover_side (sel g) with
    | Some Left =>
        bracket_id ← canvas_create Canvas.Line
          (zs [x + 10; y; x; y; x; y + h; x + 10; y + h]) None;
        modify (upd_track (λ k, set_bracket_ids (_bracket_ids k ++ [bracket_id]) k))
    | Some Right =>
        bracket_id ← canvas_create Canvas.Line
          (zs [x + w - 10; y; x + w; y; x + w; y + h; x + w - 10; y + h]) None;
        modify (upd_track (λ k, set_bracket_ids (_bracket_ids k ++ [bracket_id]) k))
    | None => mret ()
    end
  else mret ().

(** [_draw_box_overlays(index)] *)
Definition _draw_box_overlays (index : Z) : M t unit :=
  g ← gets id;
  if len (Layout.positions (layout (data g))) <=? index then mret () else
  p ← position_at index;
  let '(x, y, w, h) := p in
  loc ← drawn_dict index;
  draw_selection_overlay loc index x y w h;;
  draw_hover_overlay loc index x y w h;;
  draw_bracket index x y w h.

(** [(box.state, box.progress if box.state.name == "LOADING" else 0)] *)
Definition box_state_token (box : DocumentBox) : BoxState * Q :=
  (state box, if bool_decide (state box = LOADING) then progress box else 0%Q).

(** [cached_state != current_state] *)
Definition token_differs (cached : option dval) (current : BoxState * Q) : bool :=
  match cached with
  | Some (VState s p) => negb (bool_decide (s = current.1) && Qeq_bool p current.2)
  | _ => true
  end.

(** *** Smart draw of one item *)

(** [if index not in self._pending_renders:
        self._render_page_async(index, self.thumbnail_size)] *)
Definition request_render (index : Z) : M t unit :=
  g ← gets id;
  if bool_decide (index ∈ _pending_renders (render g)) then mret ()
  else _render_page_async index (thumbnail_size (data g)).

(** The page-mode base layer when a base object is recorded (lines
    1713-1744); returns the base id left, if any. *)
Definition reuse_page_base (loc : nat) (index base_id x y w h : Z) : M t (option Z) :=
  g ← gets id;
  let obj_type := Canvas.type (canvas g) base_id in
  level ← images;
  match level !! index with
  | Some img =>
      if bool_decide (obj_type = Some Canvas.Image) then
        modify (upd_canvas (Canvas.set_coords base_id (zs [x; y])));;
        modify (upd_canvas (Canvas.set_image base_id img));;
        mret (Some base_id)
      else
        canvas_delete base_id;;
        new_id ← canvas_create Canvas.Image (zs [x; y]) (Some img);
        dict_set loc "base" (VId new_id);;
        mret (Some new_id)
  | None =>
      if bool_decide (obj_type = Some Canvas.Rectangle) then
        modify (upd_canvas (Canvas.set_coords base_id (zs [x; y; x + w; y + h])));;
        request_render index;;
        mret (Some base_id)
      else
        canvas_delete base_id;;
        dict_set loc "base" VNone;;
        mret None
  end.

(** The page-mode base layer when none is recorded (lines 1746-1754). *)
Definition create_page_base (loc : nat) (index x y w h : Z) : M t unit :=
  level ← images;
  base_id ←
    match level !! index with
    | Some img => canvas_create Canvas.Image (zs [x; y]) (Some img)
    | None =>
        rect_id ← canvas_create Canvas.Rectangle (zs [x; y; x + w; y + h]) None;
        request_render index;;
        mret rect_id
    end;
  dict_set loc "base" (VId base_id).

(** [_draw_item_smart(index)] *)
Definition _draw_item_smart (index : Z) : M t unit :=
  g ← gets id;
  if len (Layout.positions (layout (data g))) <=? index then mret () else
  p ← position_at index;
  let '(x, y, w, h) := p in
  item_data ← drawn_dict index;
  g ← gets id;
  let base_id := base_of (dict_of g item_data) in
  if box_mode (data g) then
    match get_box_at g index with
    | None => mret ()
    | Some box =>
        let cached_state := dict_of g item_data !! "_box_state"%string in
        let current_state := box_state_token box in
        (if bool_decide (base_id = None) || token_differs cached_state current_state then
           _delete_item_objects index;;
           _draw_box_base index;;
           dict_set item_data "_box_state" (VState current_state.1 current_state.2)
         else mret ());;
        _draw_box_overlays index
    end
  else
    base_id ←
      match base_id with
      | Some b => reuse_page_base item_data index b x y w h
      | None => mret None
      end;
    (if bool_decide (base_id = None)
     then create_page_base item_data index x y w h
     else mret ());;
    draw_selection_overlay item_data index x y w h;;
    g ← gets id;
    (if bool_decide (index ∈ marked_indices (sel g)) then
       line1_id ← canvas_create Canvas.Line (zs [x; y; x + w; y + h]) None;
       line2_id ← canvas_create Canvas.Line (zs [x + w; y; x; y + h]) None;
       dict_set item_data "mark1" (VId line1_id);;
       dict_set item_data "mark2" (VId line2_id)
     else mret ());;
    draw_hover_overlay item_data index x y w h;;
    draw_bracket index x y w h.

(** *** What is drawn afresh on every cycle *)

(** [_draw_empty_state()]: two texts per shortcut line. *)
Definition _draw_empty_state : M t unit :=
  g ← gets id;
  let width := Canvas.winfo_width (canvas g) in
  let height := Canvas.winfo_height (canvas g) in
  if (width <? 100) || (height <? 100) then mret () else
  let cx := (inject_Z width / 2)%Q in
  let cy := (inject_Z height / 2)%Q in
  let shortcuts := if ove_enabled (data g) then 11 else 9 in
  let line_height := 35 in
  let start_y := (cy - inject_Z (shortcuts * line_height) / 2)%Q in
  for_each (py_range 0 shortcuts) (λ i,
    let y := (start_y + inject_Z (i * line_height))%Q in
    canvas_create Canvas.Text [(cx - 20)%Q; y] None;;
    canvas_create Canvas.Text [(cx + 20)%Q; y] None;;
    mret ()).

(** [_draw_cut_indicator()] *)
Definition _draw_cut_indicator : M t unit :=
  g ← gets id;
  match hover_gap (sel g) with
  | None => mret ()
  | Some gap =>
      let ps := Layout.positions (layout (data g)) in
      let idx_left := gap - 1 in
      let idx_right := gap in
      found ←
        (if idx_left <? 0 then
           if 0 <? len ps then
             p ← lift_res (py_index ps 0);
             let '(xr, yr, wr, hr) := p in
             mret (Some (inject_Z xr, (inject_Z yr + inject_Z hr / 2)%Q, yr, yr + hr))
           else mret None
         else if len ps <=? idx_right then
           if 0 <? len ps then
             p ← lift_res (py_index ps (-1));
             let '(xl, yl, wl, hl) := p in
             mret (Some (inject_Z (xl + wl), (inject_Z yl + inject_Z hl / 2)%Q, yl, yl + hl))
           else mret None
         else
           pl ← lift_res (py_index ps idx_left);
           pr ← lift_res (py_index ps idx_right);
           let '(xl, yl, wl, hl) := pl in
           let '(xr, yr, wr, hr) := pr in
           if Z.abs (yl - yr) <? 10 then
             mret (Some ((inject_Z (xl + wl + xr) / 2)%Q,
                         (inject_Z yl + inject_Z hl / 2)%Q, yl, yl + hl))
           else
             mret (Some (inject_Z xr, (inject_Z yr + inject_Z hr / 2)%Q, yr, yr + hr)));
      match found with
      | None => mret ()
      | Some (cx, cy, y1, y2) =>
          line_id ← canvas_create Canvas.Line [cx; inject_Z y1; cx; inject_Z y2] None;
          modify (upd_track (λ k, set_cut_indicator_ids (_cut_indicator_ids k ++ [line_id]) k));;
          if scissors_image (host g) then
            scissors_id ← canvas_create Canvas.Image [cx; cy] (Some ScissorsIcon);
            modify (upd_track (λ k,
              set_cut_indicator_ids (_cut_indicator_ids k ++ [scissors_id]) k))
          else
            let r := 8%Q in
            oval_id ← canvas_create Canvas.Oval
                        [(cx - r)%Q; (cy - r)%Q; (cx + r)%Q; (cy + r)%Q] None;
            line1_id ← canvas_create Canvas.Line
                         [(cx - 4)%Q; (cy - 4)%Q; (cx + 4)%Q; (cy + 4)%Q] None;
            line2_id ← canvas_create Canvas.Line
                         [(cx - 4)%Q; (cy + 4)%Q; (cx + 4)%Q; (cy - 4)%Q] None;
            modify (upd_track (λ k,
              set_cut_indicator_ids (_cut_indicator_ids k ++ [oval_id; line1_id; line2_id]) k))
      end
  end.

(** [_draw_drop_indicator()] *)
Definition _draw_drop_indicator : M t unit :=
  g ← gets id;
  let ps := Layout.positions (layout (data g)) in
  let index := drop_indicator_index (sel g) in
  place ←
    match drop_target_section (sel g) with
    | Some section =>
        let last_idx := Layout.end_page section - 1 in
        if (0 <=? last_idx) && (last_idx <? len ps) then
          p ← lift_res (py_index ps last_idx);
          let '(lx, ly, lw, lh) := p in
          mret (Some (lx + lw - 11, ly, lh))
        else mret None
    | None =>
        if bool_decide (index = item_count (data g)) && (0 <? item_count (data g)) then
          p ← lift_res (py_index ps (-1));
          let '(lx, ly, lw, lh) := p in
          mret (Some (lx + lw - 11, ly, lh))
        else if (0 <=? index) && (index <? item_count (data g)) then
          if index <? len ps then
            p ← lift_res (py_index ps index);
            let '(lx, ly, lw, lh) := p in
            mret (Some (lx - 14, ly, lh))
          else mret None
        else mret None
    end;
  match place with
  | None => mret ()
  | Some (x, y, h) =>
      canvas_create Canvas.Image (zs [x; y]) (Some (DropLine h));;
      mret ()
  end.

(** [DragFanOverlay._draw()] *)
Definition drag_fan_draw : M t unit :=
  g ← gets id;
  if negb (fan_active (drag g)) || negb (fan_image (drag g)) then mret () else
  match fan_canvas_item_id (drag g) with
  | Some old => canvas_delete old
  | None => mret ()
  end;;
  g1 ← gets id;
  let canvas_x := Canvas.canvasx (canvas g1) (fan_mouse_x (drag g1)) in
  let canvas_y := Canvas.canvasy (canvas g1) (fan_mouse_y (drag g1)) in
  new_id ← canvas_create Canvas.Image (zs [canvas_x + 30; canvas_y + 20]) (Some FanPhoto);
  modify (upd_drag (set_fan (fan_active (drag g1)) (fan_image (drag g1)) (Some new_id))).

(** [DragFanOverlay.stop()] *)
Definition drag_fan_stop : M t unit :=
  g ← gets id;
  match fan_canvas_item_id (drag g) with
  | Some old => canvas_delete old
  | None => mret ()
  end;;
  modify (upd_drag (set_fan false false None)).

(** [_draw_section_headers(scroll_y, view_height)] *)
Definition _draw_section_headers (scroll_y view_height : Z) : M t unit :=
  g ← gets id;
  for_each (enumerate (sections (data g))) (λ e,
    let '(i, section) := e in
    g ← gets id;
    match od_get (Layout.section_header_coords (layout (data g))) i with
    | None => mret ()
    | Some (x, y, max_w) =>
        if (scroll_y + view_height <? y) || (y + 30 <? scroll_y) then mret () else
        let name := Layout.title section in
        if bool_decide (name = ""%string) then mret () else
        let char_width := 7 in
        let text_width := Z.of_nat (String.length name) * char_width in
        let padding := 20 in
        let limit_width := Z.max 50 max_w in
        let desired_width := text_width + padding in
        let final_width :=
          if limit_width <? desired_width then limit_width else desired_width in
        let h := 24 in
        rect_id ← on_canvas (Canvas.create Canvas.Rectangle
                    (zs [x; y; x + final_width; y + h]) None true);
        modify (upd_track (λ k,
          set_headers (<[rect_id := section]> (_header_items k))
            (<[(x, y, x + final_width, y + h) := section]> (_header_hit_zones k)) k));;
        text_id ← on_canvas (Canvas.create Canvas.Text
                    [inject_Z (x + 5); (inject_Z y + inject_Z h / 2)%Q] None true);
        modify (upd_track (λ k,
          set_headers (<[text_id := section]> (_header_items k)) (_header_hit_zones k) k))
    end).

(** *** The redraw cycle *)

(** Step 2 of [redraw] for one tracked index: its overlays are deleted from
    the canvas and dropped from its dict; ["base"] and the keys that start
    with an underscore stay. *)
Definition is_overlay_key (key : string) : bool :=
  bool_decide (key ≠ "base"%string) && negb (String.prefix "_" key).

Definition delete_overlays (loc : nat) : M t unit :=
  g ← gets id;
  let item_data := dict_of g loc in
  for_each (filter (λ kv, is_overlay_key kv.1 = true) (map_to_list item_data))
    (λ kv, delete_object kv.2);;
  modify (upd_track (λ k,
    set_heap (<[loc := filter (λ kv, is_overlay_key kv.1 = false) item_data]> (heap k))
      (next_loc k) k)).

(** Lines 1302-1325: what the previous cycle left of headers, cut
    indicator and brackets is removed. *)
Definition redraw_reset : M t unit :=
  modify (upd_track (set_headers ∅ ∅));;
  modify (upd_canvas Canvas.delete_headers);;
  g ← gets id;
  for_each (_cut_indicator_ids (track g)) canvas_delete;;
  modify (upd_track (set_cut_indicator_ids []));;
  for_each (_bracket_ids (track g)) canvas_delete;;
  modify (upd_track (set_bracket_ids [])).

(** Lines 1337-1369: the tracked items.  The dicts of step 2 are those of
    the keys just listed, [self._drawn_items[i]] for [i] in
    [list(self._drawn_items.keys())]. *)
Definition redraw_items (start_idx end_idx : Z) : M t unit :=
  g ← gets id;
  for_each (_static_items (track g)) canvas_delete;;
  modify (upd_track (set_static_items []));;
  (* 1. items that left the view *)
  let visible_set : gset Z := list_to_set (py_range start_idx end_idx) in
  let drawn_set := dom (_drawn_items (track g)) in
  for_each (elements (drawn_set ∖ visible_set)) _delete_item_objects;;
  (* 2. overlays of every item still tracked *)
  g ← gets id;
  for_each (map_to_list (_drawn_items (track g))) (λ il, delete_overlays il.2);;
  (* 3. visible items *)
  for_each (py_range start_idx end_idx) _draw_item_smart.

(** Lines 1371-1384: cut and drop indicators, drag fan, section headers. *)
Definition redraw_indicators (scroll_y view_height : Z) : M t unit :=
  g ← gets id;
  (if cut_mode (sel g) && bool_decide (is_Some (hover_gap (sel g)))
   then _draw_cut_indicator else mret ());;
  (if bool_decide (drop_indicator_index (sel g) ≠ -1)
      || bool_decide (is_Some (drop_target_section (sel g)))
   then _draw_drop_indicator else mret ());;
  (if fan_active (drag g) then drag_fan_draw else mret ());;
  (if continuous_mode (data g)
      && bool_decide (sections (data g) ≠ []) && negb (box_mode (data g))
   then _draw_section_headers scroll_y view_height else mret ()).

(** [redraw()] *)
Definition redraw : M t unit :=
  redraw_reset;;
  g ← gets id;
  let scroll_y := Canvas.canvasy (canvas g) 0 in
  let view_height := Canvas.winfo_height (canvas g) in
  let '(start_idx, end_idx) :=
    Layout.get_visible_range (layout (data g)) scroll_y view_height in
  if bool_decide (item_count (data g) = 0) then
    _clear_all_drawn_items;;
    _draw_empty_state
  else
    redraw_items start_idx end_idx;;
    redraw_indicators scroll_y view_height;;
    modify (upd_track (set_last_visible_range (start_idx, end_idx))).

(** *** Completions and zoom *)

(** [_on_render_complete(index, pil_img)], run on the UI thread. *)
Definition _on_render_complete (index : Z) (pil_img : PILImage) : M t unit :=
  g ← gets id;
  if _shutdown (render g) then mret () else
  try_except
    ((if index <? len (aspect_ratios (data g)) then
        let actual_aspect := aspect_of pil_img in
        current ← lift_res (py_index (aspect_ratios (data g)) index);
        if Qeq_bool current default_aspect then
          ratios ← lift_res (py_setitem (aspect_ratios (data g)) index actual_aspect);
          modify (upd_data (set_aspect_ratios ratios));;
          let w := py_round (inject_Z (thumbnail_size (data g)) * actual_aspect) in
          let h := thumbnail_size (data g) in
          sizes ← lift_res (py_setitem (item_sizes (data g)) index (w, h));
          modify (upd_data (set_item_sizes sizes))
        else mret ()
      else mret ());;
     _set_image index (Photo pil_img);;
     g1 ← gets id;
     let '(start_idx, end_idx) :=
       Layout.get_visible_range (layout (data g1))
         (Canvas.canvasy (canvas g1) 0) (Canvas.winfo_height (canvas g1)) in
     if (start_idx <=? index) && (index <? end_idx) then redraw else mret ())
    (mret ()).

(** [set_thumbnail_size(size)], on a widget that is fully constructed. *)
Definition set_thumbnail_size (size : Z) : M t unit :=
  modify (upd_data (set_thumbnail_size_attr size));;
  modify (upd_data (λ d,
    set_item_sizes ((λ aspect_ratio, (py_round (inject_Z size * aspect_ratio), size))
                      <$> aspect_ratios d) d));;
  modify (upd_render (set_pending_renders ∅));;
  modify (upd_track (set_overlay_caches ∅ ∅));;
  modify (upd_track (set_last_thumbnail_size size));;
  _clear_all_drawn_items;;
  _update_layout;;
  redraw;;
  modify (upd_render (λ r,
    set_after_queue (after_queue r ++ [AfterPreloadAdjacentZoomLevels]) r)).

(** [clear_image_cache()]: [self.images.clear()] *)
Definition clear_image_cache : M t unit :=
  images;;
  g ← gets id;
  modify (upd_render (λ r,
    set_images_cache (od_set (images_cache r) (thumbnail_size (data g)) ∅) r)).

(** *** Box reordering *)

(** [[self.document_boxes[i] for i in selected]] *)
Fixpoint boxes_at (boxes : list DocumentBox) (selected : list Z)
    : res (list DocumentBox) :=
  match selected with
  | [] => Ok []
  | i :: rest =>
      match py_index boxes i with
      | Ok b =>
          match boxes_at boxes rest with
          | Ok bs => Ok (b :: bs)
          | Raise e => Raise e
          end
      | Raise e => Raise e
      end
  end.

(** [reorder_selected_boxes(target_index)] *)
Definition reorder_selected_boxes (target_index : Z) : M t bool :=
  g ← gets id;
  if negb (box_mode (data g)) || bool_decide (selected_indices (sel g) = ∅)
  then mret false else
  let selected := py_sorted (selected_indices (sel g)) in
  let boxes := document_boxes (data g) in
  let target_index := Z.max 0 (Z.min target_index (len boxes)) in
  boxes_to_move ← lift_res (boxes_at boxes selected);
  let remaining_boxes :=
    (enumerate boxes) ≫= (λ ib,
      if bool_decide (Z.of_nat ib.1 ∈ selected_indices (sel g)) then [] else [ib.2]) in
  let removed_before_target := len (filter (λ idx, idx < target_index) selected) in
  let insertion_index := target_index - removed_before_target in
  let insertion_index := Z.max 0 (Z.min insertion_index (len remaining_boxes)) in
  modify (upd_data (set_document_boxes
    (take (Z.to_nat insertion_index) remaining_boxes
       ++ boxes_to_move
       ++ drop (Z.to_nat insertion_index) remaining_boxes)));;
  modify (upd_data (set_box_images ∅));;
  _clear_all_drawn_items;;
  let new_start := insertion_index in
  modify (upd_sel (set_selected_indices
    (list_to_set (py_range new_start (new_start + len boxes_to_move)))));;
  _update_layout;;
  redraw;;
  mret true.

(** *** Pointer press and release *)

(** [if cb: cb(...)] *)
Definition call_if (present : bool) (c : HostCall) : M t unit :=
  if present then call_host c else mret ().

(** [_on_click(event)] *)
Definition _on_click (event : Event) : M t unit :=
  g ← gets id;
  let cx := Canvas.canvasx (canvas g) (ev_x event) in
  let cy := Canvas.canvasy (canvas g) (ev_y event) in
  let header_hit :=
    if continuous_mode (data g) && negb (box_mode (data g)) then
      list_find (λ item_id, is_Some (_header_items (track g) !! item_id))
                (overlapping event)
    else None in
  match header_hit with
  | Some (_, item_id) =>
      match _header_items (track g) !! item_id with
      | Some section =>
          if on_header_rename_request (host g)
          then call_host (OnHeaderRenameRequest section)
          else if parent_rename_section (host g)
          then call_host (ParentRenameSection section)
          else mret ()
      | None => mret ()
      end
  | None =>
      let index := Layout.get_item_at (layout (data g)) cx cy in
      modify (upd_drag (λ d, set_drag_active false (set_drag_start (ev_x event) (ev_y event) d)));;
      if cut_mode (sel g) && bool_decide (is_Some (hover_gap (sel g))) then
        call_if (on_split_request (host g)) (OnSplitRequest (default 0 (hover_gap (sel g))))
      else if bool_decide (index = -1) then mret ()
      else if negb (cut_mode (sel g)) && bool_decide (hover_index (sel g) = index)
              && bool_decide (is_Some (hover_side (sel g))) then
        match bracket_start (sel g) with
        | None =>
            modify (upd_sel (λ s, set_selected_indices {[index]} (set_bracket_start (Some index) s)));;
            call_if (on_selection_change (host g)) OnSelectionChange;;
            redraw
        | Some b =>
            let start := Z.min b index in
            let end_ := Z.max b index in
            modify (upd_sel (λ s,
              set_bracket_start None
                (set_selected_indices (list_to_set (py_range start (end_ + 1))) s)));;
            call_if (on_selection_change (host g)) OnSelectionChange;;
            redraw
        end
      else
        renamed ←
          (if box_mode (data g) then
             p ← position_at index;
             let '(x, y, w, h) := p in
             if (y + h - 40 <? cy) && on_box_rename_request (host g) then
               call_host (OnBoxRenameRequest index);; mret true
             else mret false
           else mret false);
        if (renamed : bool) then mret ()
        else if bool_decide (index ∈ selected_indices (sel g)) then
          modify (upd_drag (set_pending_click (Some index) (Some event)))
        else
          modify (upd_sel (λ s, set_selected_indices {[index]} (set_bracket_start None s)));;
          redraw;;
          call_if (on_selection_change (host g)) OnSelectionChange;;
          call_if (on_click (host g)) (OnClick index event)
  end.

(** The drop index of [_on_release] when the pointer is on no item. *)
Definition drop_index_off_items (cx cy : Z) : M t (Z * option Layout.Section_) :=
  g ← gets id;
  let ps := Layout.positions (layout (data g)) in
  p ← lift_res (py_index ps (-1));
  let '(lx, ly, lw, lh) := p in
  if (ly + lh <? cy) || ((ly <=? cy) && (2 * lx + lw <? 2 * cx))
  then mret (item_count (data g), None)
  else
    let hit := list_find (λ section : Layout.Section_,
        (let last_page_idx := Layout.end_page section - 1 in
         (0 <=? last_page_idx) && (last_page_idx <? len ps) &&
         match py_index ps last_page_idx with
         | Ok (px, py, pw, ph) => (py <=? cy) && (cy <=? py + ph) && (px + pw <? cx)
         | Raise _ => false
         end) = true) (sections (data g)) in
    match hit with
    | Some (_, section) => mret (Layout.end_page section, Some section)
    | None => mret (-1, None)
    end.

(** [_on_release(event)] *)
Definition _on_release (event : Event) : M t unit :=
  g ← gets id;
  handled_drag ←
    (if drag_active (drag g) then
       let cx := Canvas.canvasx (canvas g) (ev_x event) in
       let cy := Canvas.canvasy (canvas g) (ev_y event) in
       let index := Layout.get_item_at (layout (data g)) cx cy in
       modify (upd_sel (set_drop_target_section None));;
       target ←
         (if bool_decide (index = -1) && (0 <? item_count (data g))
          then drop_index_off_items cx cy
          else mret (index, None));
       modify (upd_sel (set_drop_target_section target.2));;
       (if on_drag_end (host g) && bool_decide (target.1 ≠ -1)
        then call_host (OnDragEnd target.1 event) else mret ());;
       modify (upd_drag (set_drag_active false));;
       modify (upd_sel (λ s, set_drop_target_section None (set_drop_indicator_index (-1) s)));;
       drag_fan_stop;;
       redraw;;
       mret true
     else mret false);
  g1 ← gets id;
  match pending_click_index (drag g1) with
  | Some pending =>
      if (handled_drag : bool) then mret () else
      call_if (on_click (host g1))
        (OnClick pending (default event (pending_click_event (drag g1))));;
      modify (upd_drag (set_pending_click None None))
  | None => mret ()
  end.

(** *** Construction and mode switch *)

(** The attributes after [VirtualGrid.__init__], on a canvas of the given
    size; [icons] tells whether the icon atlas was found. *)
Definition init (width height : Z) (icons : bool) : t :=
  mk (mkData Layout.init 0 150 [] [] [] [] false ∅ false true)
     (mkSel ∅ ∅ None (-1) None None (-1) (-1) false None)
     (mkDrag false 0 0 None None false false None 0 0)
     (mkRender [] 7 ∅ [] [] false)
     (mkTrack ∅ ∅ 0 [] (0, 0) 150 [] [] ∅ ∅ ∅ ∅)
     (mkHost false false false false false false false false [] icons true true false)
     (Canvas.mk ∅ 1 0 0 width height (0, 0, 0, 0) 18).

(** [set_item_count(count, page_sizes)] *)
Definition set_item_count (count : Z) (page_sizes : option (list (Z * Z))) : M t unit :=
  modify (upd_data (set_items count [] []));;
  modify (upd_render (λ r, set_pending_renders ∅ (set_images_cache [] r)));;
  _clear_all_drawn_items;;
  g ← gets id;
  let size := thumbnail_size (data g) in
  let given :=
    match page_sizes with
    | Some (wh :: rest) =>
        if bool_decide (len (wh :: rest) = count) then Some (wh :: rest) else None
    | _ => None
    end in
  let ratios :=
    match given with
    | Some sizes =>
        (λ wh : Z * Z,
           if 0 <? wh.2 then (inject_Z wh.1 / inject_Z wh.2)%Q else default_aspect)
          <$> sizes
    | None => (λ _, default_aspect) <$> py_range 0 count
    end in
  modify (upd_data (set_items count
    ((λ aspect, (py_round (inject_Z size * aspect), size)) <$> ratios) ratios));;
  _update_layout;;
  redraw;;
  modify (upd_render (λ r,
    set_after_queue (after_queue r ++ [AfterAsyncCalculateSizes]) r)).

(** [set_box_mode(boxes)] *)
Definition set_box_mode (boxes : list DocumentBox) : M t unit :=
  modify (upd_data (enter_box_mode boxes));;
  modify (upd_sel leave_cut_mode);;
  clear_image_cache;;
  modify (upd_data (set_box_images ∅));;
  modify (upd_sel (set_selected_indices ∅));;
  _clear_all_drawn_items;;
  modify (upd_data (set_sections []));;
  _update_layout;;
  redraw.

End Grid.

(** ** src/ui/main_window.py: the click handler plugged into the grid *)

Module MainWindow.

(** What [_on_thumbnail_click] does to the host: it returns at once, queues
    a retry of a failed box, or writes the status bar. *)
Inductive action :=
  | Nothing
  | RetryRemoteBox (index : Z)
  | StatusBoxSelected (name : string)
  | StatusPageSelected (page : Z).

(** [_on_thumbnail_click(index, event)]; it never assigns to the grid's
    selection. *)
Definition _on_thumbnail_click (g : Grid.t) (index : Z) : action :=
  if bool_decide (index = -1) then Nothing
  else if Grid.box_mode (Grid.data g) then
    match Grid.get_box_at g index with
    | Some box =>
        if bool_decide (Grid.state box = Grid.FAILED)
        then RetryRemoteBox index
        else StatusBoxSelected (Grid.name box)
    | None => Nothing
    end
  else StatusPageSelected (index + 1).

End MainWindow.

(** ** More Python list primitives *)

(** [del l[i]] and [l.pop(i)], with Python's negative indices. *)
Definition py_del {A} (l : list A) (i : Z) : res (list A) :=
  let n := len l in
  let j := if i <? 0 then i + n else i in
  if (0 <=? j) && (j <? n) then Ok (delete (Z.to_nat j) l) else Raise IndexError.

(** [l.insert(i, x)]: an index below [-len(l)] inserts in front, one above
    [len(l)] appends. *)
Definition py_insert {A} (l : list A) (i : Z) (x : A) : list A :=
  let n := len l in
  let j := if i <? 0 then Z.max 0 (i + n) else Z.min i n in
  take (Z.to_nat j) l ++ x :: drop (Z.to_nat j) l.

(** [[l[i] for i in indices]] *)
Fixpoint items_at {A} (l : list A) (indices : list Z) : res (list A) :=
  match indices with
  | [] => Ok []
  | i :: rest =>
      match py_index l i with
      | Ok a =>
          match items_at l rest with
          | Ok r => Ok (a :: r)
          | Raise e => Raise e
          end
      | Raise e => Raise e
      end
  end.

(** [sorted(l)] and [sorted(l, reverse=True)] for a list of integers. *)
Definition py_sorted_list (l : list Z) : list Z := merge_sort Z.le l.
Definition py_sorted_reverse (l : list Z) : list Z := reverse (merge_sort Z.le l).

(** ** src/pdf/structure.py: SectionManager *)

Module SectionManager.

(** [Section].  Its [metadata] dict is not read by the manager.  The
    sections of a manager are taken to be distinct objects, as the manager
    makes them: a write to one section's field shows in that section only. *)
Record Section := mkSection {
  id : string;
  title : string;
  start_page : Z;
  page_count : Z;
  split_config : option (Z * string);
  is_special : bool
}.

Definition end_page (s : Section) : Z := start_page s + page_count s.

Definition set_page_count (n : Z) (s : Section) : Section :=
  mkSection (id s) (title s) (start_page s) n (split_config s) (is_special s).

(** The manager is its list [sections]. *)
Definition t : Type := list Section.

(** [SectionManager()] *)
Definition init : t := [].

(** [section.start_page <= page_index < section.end_page] *)
Definition contains (page_index : Z) (s : Section) : Prop :=
  start_page s <= page_index < end_page s.

Global Instance contains_dec page_index s : Decision (contains page_index s).
Proof. unfold contains. apply _. Defined.

Definition _ensure_deleted_section : M t unit :=
  sections ← gets (λ sections, sections);
  match last sections with
  | Some last_section =>
      if bool_decide (id last_section ≠ "deleted") then
        modify (λ sections, sections ++
          [mkSection "deleted" "Borrados"
             (start_page last_section + page_count last_section) 0 None true])
      else mret ()
  | None =>
      modify (λ sections, sections ++ [mkSection "deleted" "Borrados" 0 0 None true])
  end.

Definition get_deleted_section : M t Section :=
  _ensure_deleted_section;;
  sections ← gets (λ sections, sections);
  lift_res (py_index sections (-1)).

Definition get_saveable_sections (sections : list Section) : list Section :=
  filter (λ s, is_special s = false ∧ 0 < page_count s) sections.

Definition initialize_default (total_pages : Z) (base_name : string) : M t unit :=
  modify (λ sections : list Section, filter (λ s, is_special s = false) sections);;
  modify (λ _, [mkSection "default" base_name 0 total_pages None false]).

Definition get_section_at (sections : t) (page_index : Z) : option Section :=
  snd <$> list_find (contains page_index) sections.

Section titles.

(** [_split_base_number(title)]: a regular expression, [strip], [rsplit]
    and [int] on a suffix that [isdigit] accepts; it is taken as given, and
    so is [str.strip]. *)
Variable _split_base_number : string → res (string * option Z).
Variable strip : string → string.

(** [x or "resultado"] *)
Definition or_resultado (x : string) : string :=
  if bool_decide (x = EmptyString) then "resultado"%string else x.

(** [s_num or 1] *)
Definition or_1 (s_num : option Z) : Z :=
  match s_num with
  | Some n => if bool_decide (n = 0) then 1 else n
  | None => 1
  end.

(** The loop of [_generate_next_title] that fills [existing_nums]. *)
Fixpoint existing_nums (normalized_base : string) (sections : list Section)
    : res (list Z) :=
  match sections with
  | [] => Ok []
  | s :: rest =>
      match _split_base_number (title s) with
      | Ok (s_base, s_num) =>
          match existing_nums normalized_base rest with
          | Ok nums =>
              Ok (if bool_decide (s_base = normalized_base) then or_1 s_num :: nums
                  else nums)
          | Raise e => Raise e
          end
      | Raise e => Raise e
      end
  end.

(** [max(l)] for a non-empty list. *)
Definition py_max (x : Z) (l : list Z) : Z := foldl Z.max x l.

Definition _generate_next_title (base_name : string) : M t string :=
  let normalized_base := or_resultado (strip base_name) in
  sections ← gets (λ sections, sections);
  nums ← lift_res (existing_nums normalized_base sections);
  let next_num :=
    match nums with
    | [] => 1
    | x :: rest => py_max x rest + 1
    end in
  if bool_decide (next_num = 1) then mret normalized_base
  else mret (normalized_base +:+ "_" +:+ pretty next_num).

(** [split_section(page_index, new_title, base_name)].  The page count of
    the section that is split is written before the titles are read. *)
Definition split_section (page_index : Z) (new_title base_name : option string)
    : M t unit :=
  sections ← gets (λ sections, sections);
  match list_find (contains page_index) sections with
  | None => mret ()
  | Some (target_section_idx, original) =>
      if bool_decide (page_index = start_page original) then mret () else
      let split_offset := page_index - start_page original in
      let new_count := page_count original - split_offset in
      modify (λ sections,
        <[target_section_idx := set_page_count split_offset original]> sections);;
      let named :=
        match base_name with
        | Some b => if bool_decide (b = EmptyString) then title original else b
        | None => title original
        end in
      parsed ← lift_res (_split_base_number named);
      let normalized_base := parsed.1 in
      new_title ← match new_title with
                  | None => _generate_next_title normalized_base
                  | Some given => mret given
                  end;
      let new_section :=
        mkSection ("sec_" +:+ pretty page_index) new_title page_index new_count
                  None false in
      modify (λ sections,
        take (S target_section_idx) sections ++ new_section
          :: drop (S target_section_idx) sections)
  end.

End titles.

(** [merge_section_up(section_index)] *)
Definition merge_section_up (section_index : Z) : M t unit :=
  sections ← gets (λ sections, sections);
  if (section_index <=? 0) || (len sections <=? section_index) then mret () else
  prev ← lift_res (py_index sections (section_index - 1));
  curr ← lift_res (py_index sections section_index);
  modify (λ sections,
    <[Z.to_nat (section_index - 1) :=
        set_page_count (page_count prev + page_count curr) prev]> sections);;
  sections ← gets (λ sections, sections);
  popped ← lift_res (py_del sections section_index);
  modify (λ _, popped).

(** The operations of the manager that write its list, for runs of it. *)
Inductive op :=
  | InitializeDefault (total_pages : Z) (base_name : string)
  | SplitSection (page_index : Z) (new_title base_name : option string)
  | MergeSectionUp (section_index : Z)
  | EnsureDeletedSection.

Section runs.
Variable _split_base_number : string → res (string * option Z).
Variable strip : string → string.

Definition step (sections : t) (o : op) : t * res unit :=
  match o with
  | InitializeDefault total_pages base_name => initialize_default total_pages base_name sections
  | SplitSection page_index new_title base_name =>
      split_section _split_base_number strip page_index new_title base_name sections
  | MergeSectionUp section_index => merge_section_up section_index sections
  | EnsureDeletedSection => _ensure_deleted_section sections
  end.

Definition run (ops : list op) : M t unit := for_each ops (λ o sections, step sections o).

End runs.

End SectionManager.

(** ** src/ui/pdf_viewer.py: the page list, the selection and the marks *)

Module PdfViewer.

(** [PdfViewer] without its documents and cache, which the page
    operations below do not touch: the global page list
    [(doc_idx, page_num)], the selected and the marked page indices, the
    zoom and the section manager the main window plugs in. *)
Record t := mk {
  pages : list (Z * Z);
  selected_pages : gset Z;
  marked_pages : gset Z;
  current_zoom : Z;
  section_manager : option SectionManager.t
}.

(** [PdfViewer()] *)
Definition init : t := mk [] ∅ ∅ 100 None.

Definition set_pages (ps : list (Z * Z)) (v : t) : t :=
  mk ps (selected_pages v) (marked_pages v) (current_zoom v) (section_manager v).

Definition set_selected_pages (s : gset Z) (v : t) : t :=
  mk (pages v) s (marked_pages v) (current_zoom v) (section_manager v).

Definition set_marked_pages (s : gset Z) (v : t) : t :=
  mk (pages v) (selected_pages v) s (current_zoom v) (section_manager v).

Definition set_current_zoom (z : Z) (v : t) : t :=
  mk (pages v) (selected_pages v) (marked_pages v) z (section_manager v).

Definition get_page_count (v : t) : Z := len (pages v).

(** [select_page(page_idx, multi)] *)
Definition select_page (page_idx : Z) (multi : bool) : M t unit :=
  when (negb multi) (modify (set_selected_pages ∅));;
  modify (λ v, set_selected_pages (selected_pages v ∪ {[page_idx]}) v).

(** [select_range(start_idx, end_idx)] *)
Definition select_range (start_idx end_idx : Z) : M t unit :=
  for_each (py_range (Z.min start_idx end_idx) (Z.max start_idx end_idx + 1))
    (λ idx,
       v ← gets id;
       when ((0 <=? idx) && (idx <? len (pages v)))
            (modify (set_selected_pages (selected_pages v ∪ {[idx]})))).

Definition deselect_all : M t unit := modify (set_selected_pages ∅).

(** [select_all()]: the pages of the first special section are left out. *)
Definition select_all : M t unit :=
  v ← gets id;
  let all_pages : gset Z := list_to_set (py_range 0 (len (pages v))) in
  match section_manager v with
  | Some sections =>
      let deleted_pages : gset Z :=
        match list_find (λ s, SectionManager.is_special s = true) sections with
        | Some (_, section) =>
            list_to_set (py_range (SectionManager.start_page section)
                           (SectionManager.start_page section
                            + SectionManager.page_count section))
        | None => ∅
        end in
      modify (set_selected_pages (all_pages ∖ deleted_pages))
  | None => modify (set_selected_pages all_pages)
  end.

Definition toggle_selection : M t unit :=
  v ← gets id;
  if bool_decide (selected_pages v ≠ ∅) then modify (set_selected_pages ∅)
  else select_all.

Definition is_selected (v : t) (page_idx : Z) : bool :=
  bool_decide (page_idx ∈ selected_pages v).

(** The first loop of [move_to_deleted_section]: each page is read, put in
    front of [deleted_pages] and deleted from the page list. *)
Fixpoint extract_pages (page_indices : list Z) (deleted_pages : list (Z * Z))
    : M t (list (Z * Z)) :=
  match page_indices with
  | [] => mret deleted_pages
  | page_idx :: rest =>
      v ← gets id;
      page_info ← lift_res (py_index (pages v) page_idx);
      ps ← lift_res (py_del (pages v) page_idx);
      modify (set_pages ps);;
      extract_pages rest (page_info :: deleted_pages)
  end.

(** [move_to_deleted_section(page_indices)] *)
Definition move_to_deleted_section (page_indices : option (list Z)) : M t unit :=
  v ← gets id;
  if bool_decide (page_indices = None) && bool_decide (selected_pages v = ∅)
  then mret () else
  let page_indices :=
    match page_indices with
    | None => reverse (py_sorted (selected_pages v))
    | Some l => py_sorted_reverse l
    end in
  deleted_pages ← extract_pages page_indices [];
  modify (λ v, set_pages (pages v ++ deleted_pages) v);;
  modify (set_selected_pages ∅);;
  modify (λ v, set_marked_pages
    (set_map (λ old_idx, old_idx - len (filter (λ del_idx, del_idx < old_idx) page_indices))
       (filter (λ old_idx, old_idx ∉ page_indices) (marked_pages v))) v).

Definition delete_selected_pages : M t unit := move_to_deleted_section None.

(** [delete_pages(page_indices)] *)
Definition delete_pages (page_indices : list Z) : M t unit :=
  if bool_decide (page_indices = []) then mret () else
  for_each (py_sorted_reverse page_indices)
    (λ idx,
       v ← gets id;
       if (0 <=? idx) && (idx <? len (pages v)) then
         ps ← lift_res (py_del (pages v) idx);
         modify (set_pages ps)
       else mret ());;
  modify (set_selected_pages ∅);;
  modify (set_marked_pages ∅).

(** [move_pages(page_indices, target_idx)] *)
Definition move_pages (page_indices : list Z) (target_idx : Z) : M t bool :=
  if bool_decide (page_indices = []) then mret false else
  let page_indices := py_sorted_list page_indices in
  v ← gets id;
  if bool_decide (Exists (λ idx, idx < 0 ∨ len (pages v) <= idx) page_indices)
  then mret false else
  if (target_idx <? 0) || (len (pages v) <? target_idx) then mret false else
  pages_to_move ← lift_res (items_at (pages v) page_indices);
  for_each (reverse page_indices)
    (λ idx,
       v ← gets id;
       ps ← lift_res (py_del (pages v) idx);
       modify (set_pages ps));;
  let adjusted_target :=
    target_idx - len (filter (λ idx, idx < target_idx) page_indices) in
  for_each (enumerate pages_to_move)
    (λ ip, modify (λ v,
       set_pages (py_insert (pages v) (adjusted_target + Z.of_nat ip.1) ip.2) v));;
  modify (set_selected_pages
    (list_to_set (py_range adjusted_target (adjusted_target + len pages_to_move))));;
  mret true.

(** [unmark_selected()] *)
Definition unmark_selected : M t unit :=
  v ← gets id;
  if bool_decide (selected_pages v = ∅) then mret () else
  modify (set_marked_pages (marked_pages v ∖ selected_pages v)).

(** [delete_marked_pages()].  [list(self.marked_pages)] comes in the set's
    order, which [move_to_deleted_section] sorts away. *)
Definition delete_marked_pages : M t unit :=
  v ← gets id;
  if bool_decide (marked_pages v = ∅) then mret () else
  move_to_deleted_section (Some (elements (marked_pages v)));;
  modify (set_marked_pages ∅).

Definition is_marked (v : t) (page_idx : Z) : bool :=
  bool_decide (page_idx ∈ marked_pages v).

(** [set_zoom(zoom_pct)] *)
Definition set_zoom (zoom_pct : Z) : M t unit :=
  modify (set_current_zoom (Z.max 50 (Z.min 200 zoom_pct))).

(** [get_render_dpi()]: [int(72 * self.current_zoom / 100)]. *)
Definition get_render_dpi (v : t) : Z :=
  py_int (inject_Z (72 * current_zoom v) / 100).

End PdfViewer.

(** * Properties *)

(** ** Python list primitives *)

Lemma py_remove_Some {A} `{EqDecision A} (x : A) l :
  x ∈ l → ∃ l', py_remove x l = Some l'.
Proof.
  induction l as [|y l IH]; intros Hin; [by apply elem_of_nil in Hin|].
  simpl. destruct (decide (x = y)) as [->|Hne]; [eauto|].
  apply elem_of_cons in Hin as [?|Hin]; [done|].
  destruct (IH Hin) as [l' ->]. eauto.
Qed.

Lemma py_remove_None {A} `{EqDecision A} (x : A) l :
  x ∉ l → py_remove x l = None.
Proof.
  induction l as [|y l IH]; intros Hin; [done|].
  simpl. apply not_elem_of_cons in Hin as [Hne Hin].
  destruct (decide (x = y)); [done|]. by rewrite IH.
Qed.

Lemma py_remove_elem_of {A} `{EqDecision A} (x : A) l l' :
  NoDup l → py_remove x l = Some l' →
  NoDup l' ∧ (x ∉ l') ∧ (∀ y, y ∈ l ↔ y = x ∨ y ∈ l').
Proof.
  revert l'. induction l as [|z l IH]; intros l' Hnd Hrm; [done|].
  simpl in Hrm. apply NoDup_cons in Hnd as [Hz Hnd].
  destruct (decide (x = z)) as [->|Hne].
  - injection Hrm as <-. split_and!; [done..|].
    intros y. by rewrite elem_of_cons.
  - destruct (py_remove x l) as [l0|] eqn:E; [|done].
    injection Hrm as <-.
    destruct (IH l0 Hnd eq_refl) as (Hnd0 & Hx & Hiff).
    split_and!.
    + apply NoDup_cons. split; [|done].
      intros Hin. apply Hz, Hiff. by right.
    + apply not_elem_of_cons. done.
    + intros y. rewrite !elem_of_cons, Hiff. tauto.
Qed.

Lemma py_remove_length {A} `{EqDecision A} (x : A) l l' :
  py_remove x l = Some l' → length l = S (length l').
Proof.
  revert l'. induction l as [|z l IH]; intros l' Hrm; [done|].
  simpl in Hrm. destruct (decide (x = z)); [by injection Hrm as <-|].
  destruct (py_remove x l) as [l0|]; [|done]. injection Hrm as <-.
  simpl. f_equal. by apply IH.
Qed.


(** ** The page cache *)

Section page_cache.
Import PageCache.

Lemma consistent_size c :
  consistent c → size (_cache c) = length (_access_order c).
Proof.
  intros [Hnd Hiff].
  rewrite <-size_dom, <-(size_list_to_set (C:=gset string)) by done.
  f_equal. apply set_eq. intros k.
  by rewrite elem_of_dom, elem_of_list_to_set, Hiff.
Qed.

Lemma consistent_init n : consistent (init n).
Proof.
  split; [constructor|]. intros k. simpl. rewrite lookup_empty.
  split; [by intros ?%elem_of_nil | by intros ?%is_Some_None].
Qed.

Lemma get_key_hit c key img :
  consistent c → _cache c !! key = Some img →
  ∃ l, py_remove key (_access_order c) = Some l ∧
       get_key c key = (mk (max_size c) (_cache c) (l ++ [key]), Ok (Some img)).
Proof.
  intros [Hnd Hiff] Hk.
  destruct (py_remove_Some key (_access_order c)) as [l Hl].
  { apply Hiff. by rewrite Hk. }
  exists l. split; [done|]. unfold get_key. by rewrite Hk, Hl.
Qed.

Lemma get_key_miss c key :
  _cache c !! key = None → get_key c key = (c, Ok None).
Proof. intros Hk. unfold get_key. by rewrite Hk. Qed.

Lemma moved_to_end_consistent n (m : gmap string Image) order key l :
  consistent (mk n m order) → py_remove key order = Some l →
  consistent (mk n m (l ++ [key])).
Proof.
  intros [Hnd Hiff] Hl. simpl in *.
  destruct (py_remove_elem_of key order l Hnd Hl) as (Hnd' & Hnot & Hmem).
  split; simpl.
  - apply NoDup_app. split_and!; [done| |apply NoDup_singleton].
    intros x Hx ->%list_elem_of_singleton. done.
  - intros k. rewrite <-Hiff, Hmem, elem_of_app, list_elem_of_singleton.
    split; intros [?|?]; auto.
Qed.

Lemma get_key_consistent c key :
  consistent c →
  consistent (get_key c key).1 ∧ _cache (get_key c key).1 = _cache c ∧
  max_size (get_key c key).1 = max_size c ∧
  (get_key c key).2 = Ok (_cache c !! key).
Proof.
  intros Hc. destruct (_cache c !! key) as [img|] eqn:Hk.
  - destruct (get_key_hit c key img Hc Hk) as (l & Hl & ->). simpl.
    split_and!; [|done..].
    destruct c as [n m order]. by eapply moved_to_end_consistent.
  - rewrite get_key_miss by done. done.
Qed.

(** A put of a key that is already stored: nothing is evicted. *)
Lemma put_key_present c key img old :
  consistent c → _cache c !! key = Some old →
  ∃ l, py_remove key (_access_order c) = Some l ∧
       put_key c key img = (mk (max_size c) (<[key := img]> (_cache c)) (l ++ [key]), Ok ()).
Proof.
  intros Hc Hk.
  destruct (py_remove_Some key (_access_order c)) as [l Hl].
  { apply Hc. by rewrite Hk. }
  exists l. split; [done|]. unfold put_key.
  rewrite bool_decide_eq_false_2 by (by rewrite Hk).
  rewrite andb_false_r. simpl. by rewrite Hl.
Qed.

(** A put of a new key below capacity: nothing is evicted. *)
Lemma put_key_room c key img :
  consistent c → _cache c !! key = None →
  Z.of_nat (size (_cache c)) < max_size c →
  put_key c key img = (mk (max_size c) (<[key := img]> (_cache c)) (_access_order c ++ [key]), Ok ()).
Proof.
  intros Hc Hk Hlt. unfold put_key.
  replace (max_size c <=? _) with false by (symmetry; apply Z.leb_gt; lia).
  simpl. rewrite py_remove_None; [done|].
  intros Hin. apply Hc in Hin. rewrite Hk in Hin. by apply is_Some_None in Hin.
Qed.

(** A put of a new key at capacity: the head of the access order goes. *)
Lemma put_key_full c key img oldest rest :
  consistent c → _cache c !! key = None →
  max_size c <= Z.of_nat (size (_cache c)) →
  _access_order c = oldest :: rest →
  put_key c key img =
    (mk (max_size c) (<[key := img]> (delete oldest (_cache c))) (rest ++ [key]), Ok ()).
Proof.
  intros Hc Hk Hge Ho. unfold put_key.
  replace (max_size c <=? _) with true by (symmetry; apply Z.leb_le; lia).
  rewrite bool_decide_eq_true_2 by done. simpl. rewrite Ho.
  destruct (_cache c !! oldest) as [x|] eqn:Hold.
  - simpl. rewrite py_remove_None; [done|].
    intros Hin. assert (key ∈ _access_order c) as Hin' by (rewrite Ho; by right).
    apply Hc in Hin'. rewrite Hk in Hin'. by apply is_Some_None in Hin'.
  - assert (oldest ∈ _access_order c) as Hin by (rewrite Ho; by left).
    apply Hc in Hin. rewrite Hold in Hin. by apply is_Some_None in Hin.
Qed.

(** With nothing stored and no room the eviction pops an empty list. *)
Lemma put_key_empty_full c key img :
  _access_order c = [] → _cache c !! key = None →
  max_size c <= Z.of_nat (size (_cache c)) →
  put_key c key img = (c, Raise IndexError).
Proof.
  intros Ho Hk Hge. unfold put_key.
  replace (max_size c <=? _) with true by (symmetry; apply Z.leb_le; lia).
  rewrite bool_decide_eq_true_2 by done. simpl. by rewrite Ho.
Qed.

Lemma put_key_invariant c key img :
  consistent c → bounded c →
  consistent (put_key c key img).1 ∧ bounded (put_key c key img).1 ∧
  max_size (put_key c key img).1 = max_size c.
Proof.
  intros Hc Hb. pose proof (consistent_size c Hc) as Hsz.
  destruct (_cache c !! key) as [old|] eqn:Hk.
  - destruct (put_key_present c key img old Hc Hk) as (l & Hl & ->). simpl.
    destruct c as [n m order]; simpl in *.
    assert (consistent (mk n (<[key:=img]> m) order)) as Hc'.
    { destruct Hc as [Hnd Hiff]. split; [done|]. simpl in *. intros k.
      rewrite Hiff, lookup_insert_is_Some. split.
      - intros ?. destruct (decide (key = k)); [by left|by right].
      - intros [<-|[_ ?]]; [by rewrite Hk|done]. }
    split_and!; [by eapply moved_to_end_consistent| |done].
    unfold bounded in *. simpl in *.
    rewrite map_size_insert_Some by (by rewrite Hk). done.
  - destruct (decide (Z.of_nat (size (_cache c)) < max_size c)) as [Hlt|Hge].
    + rewrite put_key_room by done. simpl. split_and!; [| |done].
      * destruct Hc as [Hnd Hiff]. split; simpl.
        -- apply NoDup_app. split_and!; [done| |apply NoDup_singleton].
           intros x Hx ->%list_elem_of_singleton.
           apply Hiff in Hx. rewrite Hk in Hx. by apply is_Some_None in Hx.
        -- intros k. rewrite elem_of_app, list_elem_of_singleton, Hiff,
             lookup_insert_is_Some.
           split.
           ++ intros [?| ->]; [|by left].
              destruct (decide (key = k)); [by left|by right].
           ++ intros [->|[_ ?]]; auto.
      * unfold bounded in *. simpl.
        rewrite map_size_insert_None by done. lia.
    + destruct (_access_order c) as [|oldest rest] eqn:Ho.
      * rewrite put_key_empty_full by (done || lia). done.
      * rewrite (put_key_full c key img oldest rest) by (done || lia). simpl.
        destruct Hc as [Hnd Hiff]. rewrite Ho in Hnd, Hiff.
        apply NoDup_cons in Hnd as [Hold Hnd].
        assert (oldest ≠ key) as Hne.
        { intros ->. specialize (Hiff key). rewrite Hk in Hiff.
          eapply is_Some_None, Hiff. by left. }
        assert (is_Some (_cache c !! oldest)) as [x Hx] by (apply Hiff; by left).
        split_and!; [| |done].
        -- split; simpl.
           ++ apply NoDup_app. split_and!; [done| |apply NoDup_singleton].
              intros x' Hx' ->%list_elem_of_singleton.
              assert (key ∈ oldest :: rest) as Hin by (by right).
              apply Hiff in Hin. rewrite Hk in Hin. by apply is_Some_None in Hin.
           ++ intros k. rewrite elem_of_app, list_elem_of_singleton,
                lookup_insert_is_Some, lookup_delete_is_Some.
              specialize (Hiff k). rewrite elem_of_cons in Hiff.
              split.
              ** intros [Hin| ->]; [|by left]. right. split; [|split].
                 --- intros <-.
                     assert (is_Some (_cache c !! key)) as Hs by (apply Hiff; by right).
                     rewrite Hk in Hs. by apply is_Some_None in Hs.
                 --- intros ->. done.
                 --- apply Hiff. by right.
              ** intros [->|(_ & Hko & Hs)]; [by right|].
                 apply Hiff in Hs as [->|?]; [done|by left].
        -- unfold bounded in *. simpl.
           rewrite map_size_insert_None by (rewrite lookup_delete_ne; done).
           rewrite map_size_delete_Some by (by rewrite Hx).
           assert (size (_cache c) ≠ 0%nat).
           { intros Hz. apply map_size_empty_inv in Hz. rewrite Hz in Hx.
             by rewrite lookup_empty in Hx. }
           lia.
Qed.

Lemma remove_keys_invariant keys c :
  consistent c → bounded c → NoDup keys →
  (∀ k, k ∈ keys → is_Some (_cache c !! k)) →
  consistent (remove_keys keys c).1 ∧ bounded (remove_keys keys c).1 ∧
  max_size (remove_keys keys c).1 = max_size c ∧
  (remove_keys keys c).2 = Ok ().
Proof.
  revert c. induction keys as [|key keys IH]; intros c Hc Hb Hnd Hin; [done|].
  apply NoDup_cons in Hnd as [Hkey Hnd]. simpl.
  destruct (Hin key) as [x Hx]; [by left|]. rewrite Hx.
  destruct (py_remove_Some key (_access_order c)) as [l Hl].
  { apply Hc. by rewrite Hx. }
  rewrite Hl.
  destruct Hc as [Hndo Hiff].
  destruct (py_remove_elem_of key _ l Hndo Hl) as (Hndl & Hnot & Hmem).
  set (c2 := mk (max_size c) (delete key (_cache c)) l).
  assert (consistent c2) as Hc2.
  { split; [done|]. simpl. intros k. rewrite lookup_delete_is_Some, <-Hiff, Hmem.
    split.
    - intros Hk. split; [by intros <-|by right].
    - intros [Hne [->|?]]; done. }
  assert (bounded c2) as Hb2.
  { unfold bounded in *. simpl. rewrite map_size_delete_Some by (by rewrite Hx).
    lia. }
  destruct (IH c2 Hc2 Hb2 Hnd) as (? & ? & ? & ?); [|done].
  intros k Hk. simpl. apply lookup_delete_is_Some. split.
  - by intros <-.
  - apply Hin. by right.
Qed.

Lemma clear_pdf_invariant c pdf_path :
  consistent c → bounded c →
  consistent (clear_pdf c pdf_path).1 ∧ bounded (clear_pdf c pdf_path).1 ∧
  max_size (clear_pdf c pdf_path).1 = max_size c ∧
  (clear_pdf c pdf_path).2 = Ok ().
Proof.
  intros Hc Hb. apply remove_keys_invariant; [done..| |].
  - apply NoDup_filter, NoDup_elements.
  - intros k [_ Hk]%list_elem_of_filter.
    by apply elem_of_elements, elem_of_dom in Hk.
Qed.

Lemma step_invariant c o :
  consistent c → bounded c →
  consistent (step c o) ∧ bounded (step c o) ∧ max_size (step c o) = max_size c.
Proof.
  intros Hc Hb. destruct o as [p n d|p n d img| |p]; simpl.
  - destruct (get_key_consistent c (_make_key p n d) Hc) as (? & Hm & Hn & _).
    unfold get. split_and!; [done| |done].
    unfold bounded. by rewrite Hm, Hn.
  - by apply put_key_invariant.
  - split_and!; [apply (consistent_init (max_size c))| |done].
    unfold bounded. simpl. rewrite map_size_empty.
    unfold bounded in Hb. lia.
  - destruct (clear_pdf_invariant c p Hc Hb) as (? & ? & ? & _). done.
Qed.

Lemma run_invariant ops c :
  consistent c → bounded c →
  consistent (run ops c) ∧ bounded (run ops c) ∧ max_size (run ops c) = max_size c.
Proof.
  revert c. induction ops as [|o ops IH]; intros c Hc Hb; [done|].
  destruct (step_invariant c o Hc Hb) as (Hc' & Hb' & Hn).
  destruct (IH (step c o) Hc' Hb') as (? & ? & ?).
  unfold run in *. simpl. split_and!; [done..|congruence].
Qed.

(** *** Recency order *)

Lemma py_remove_sublist {A} `{EqDecision A} (x : A) l l' :
  py_remove x l = Some l' → l' `sublist_of` l.
Proof.
  revert l'. induction l as [|y l IH]; intros l' Hrm; [done|].
  simpl in Hrm. destruct (decide (x = y)).
  - injection Hrm as <-. by apply sublist_cons_r; left.
  - destruct (py_remove x l) as [l0|]; [|done]. injection Hrm as <-.
    apply sublist_skip. by apply IH.
Qed.

Lemma StronglySorted_sublist {A} (R : relation A) l l' :
  l' `sublist_of` l → StronglySorted R l → StronglySorted R l'.
Proof.
  induction 1 as [|x l1 l2 Hsub IH|x l1 l2 Hsub IH]; intros Hs; [done|..].
  - apply StronglySorted_cons in Hs as [Hall Hs].
    apply StronglySorted_cons. split; [|by apply IH].
    apply Forall_forall. intros y Hy.
    eapply Forall_forall in Hall; [done|]. by eapply elem_of_sublist.
  - apply StronglySorted_cons in Hs as [_ Hs]. by apply IH.
Qed.

Lemma StronglySorted_ext {A} (R R' : relation A) l :
  (∀ a b, a ∈ l → b ∈ l → R a b → R' a b) →
  StronglySorted R l → StronglySorted R' l.
Proof.
  induction l as [|x l IH]; intros Himp Hs; [constructor|].
  apply StronglySorted_cons in Hs as [Hall Hs].
  apply StronglySorted_cons. split.
  - apply Forall_forall. intros y Hy. apply Himp; [by left|by right|].
    by eapply Forall_forall in Hall.
  - apply IH; [|done]. intros a b Ha Hb. apply Himp; by right.
Qed.

(** [k1] was last accessed strictly before [k2]. *)
Definition older (st : gmap string nat) (k1 k2 : string) : Prop :=
  ∃ t1 t2, st !! k1 = Some t1 ∧ st !! k2 = Some t2 ∧ (t1 < t2)%nat.

Definition stamped (s : clocked) : Prop :=
  ∀ k, k ∈ _access_order (cache_of s) →
       ∃ t, stamps s !! k = Some t ∧ (t < now s)%nat.

Definition by_recency (s : clocked) : Prop :=
  StronglySorted (older (stamps s)) (_access_order (cache_of s)).

(** Moving or adding [key] to the most-recently-used end at time [now]. *)
Lemma touch_by_recency n m order st t key l :
  stamped (Clocked (mk n m order) st t) →
  by_recency (Clocked (mk n m order) st t) →
  l `sublist_of` order → key ∉ l →
  ∀ m', stamped (Clocked (mk n m' (l ++ [key])) (<[key := t]> st) (S t)) ∧
        by_recency (Clocked (mk n m' (l ++ [key])) (<[key := t]> st) (S t)).
Proof.
  unfold stamped, by_recency. simpl. intros Hst Hs Hsub Hkey m'. split.
  - intros k [Hk| ->%list_elem_of_singleton]%elem_of_app.
    + assert (k ≠ key) by (by intros ->).
      destruct (Hst k) as (t0 & Ht0 & ?); [by eapply elem_of_sublist|].
      exists t0. rewrite lookup_insert_ne by done. split; [done|lia].
    + exists t. rewrite lookup_insert_eq. split; [done|lia].
  - apply StronglySorted_app. split_and!.
    + intros k1 k2 Hk1 ->%list_elem_of_singleton.
      assert (k1 ≠ key) by (by intros ->).
      destruct (Hst k1) as (t1 & Ht1 & ?); [by eapply elem_of_sublist|].
      exists t1, t. rewrite lookup_insert_ne, lookup_insert_eq by done. done.
    + eapply StronglySorted_ext; [|by eapply StronglySorted_sublist].
      intros a b Ha Hb (t1 & t2 & H1 & H2 & Hlt).
      exists t1, t2. rewrite !lookup_insert_ne; [done|by intros ->..].
    + repeat constructor.
Qed.

Lemma tick_by_recency c st t :
  stamped (Clocked c st t) → by_recency (Clocked c st t) →
  stamped (Clocked c st (S t)) ∧ by_recency (Clocked c st (S t)).
Proof.
  unfold stamped, by_recency. simpl. intros Hst Hs. split; [|done].
  intros k Hk. destruct (Hst k Hk) as (t0 & ? & ?). exists t0. split; [done|lia].
Qed.

Lemma remove_keys_sublist keys c :
  _access_order (remove_keys keys c).1 `sublist_of` _access_order c.
Proof.
  revert c. induction keys as [|key keys IH]; intros c; [done|]. simpl.
  destruct (_cache c !! key); [|done]. simpl.
  destruct (py_remove key (_access_order c)) as [l|] eqn:Hl; [|done].
  etrans; [apply IH|]. simpl. by eapply py_remove_sublist.
Qed.

Definition lru_inv (s : clocked) : Prop :=
  consistent (cache_of s) ∧ bounded (cache_of s) ∧ stamped s ∧ by_recency s.

Lemma step_clock_invariant s o :
  lru_inv s →
  lru_inv (step_clock s o) ∧
  max_size (cache_of (step_clock s o)) = max_size (cache_of s).
Proof.
  intros (Hc & Hb & Hst & Hs).
  destruct (step_invariant (cache_of s) o Hc Hb) as (Hc' & Hb' & Hn).
  split; [|done]. split_and!; [done..| |];
    destruct s as [[n m order] st t]; unfold step_clock in *; simpl in *.
  all: destruct o as [p pg d|p pg d img| |p]; simpl.
  all: try (set (key := _make_key p pg d)).
  - (* get, stamped *)
    unfold get. fold key. destruct (m !! key) as [x|] eqn:Hk.
    + destruct (get_key_hit _ key x Hc Hk) as (l & Hl & ->). simpl in *.
      destruct (py_remove_elem_of key order l (proj1 Hc) Hl) as (_ & Hnot & _).
      eapply touch_by_recency; [done..|by eapply py_remove_sublist|done].
    + rewrite get_key_miss by done. by apply tick_by_recency.
  - (* put, stamped *)
    unfold put. fold key. destruct (m !! key) as [x|] eqn:Hk.
    + destruct (put_key_present _ key img x Hc Hk) as (l & Hl & ->). simpl in *.
      destruct (py_remove_elem_of key order l (proj1 Hc) Hl) as (_ & Hnot & _).
      eapply touch_by_recency; [done..|by eapply py_remove_sublist|done].
    + assert (key ∉ order) as Hnot.
      { intros Hin. apply Hc in Hin. simpl in Hin. rewrite Hk in Hin.
        by apply is_Some_None in Hin. }
      destruct (decide (Z.of_nat (size m) < n)) as [Hlt|Hge].
      * rewrite put_key_room by done. simpl.
        by eapply touch_by_recency.
      * destruct order as [|oldest rest] eqn:Ho.
        -- rewrite put_key_empty_full by (done || simpl; lia). simpl.
           intros k Hin. by apply elem_of_nil in Hin.
        -- rewrite (put_key_full _ key img oldest rest) by (done || simpl; lia).
           simpl. eapply touch_by_recency; [done..| |].
           ++ by apply sublist_cons_r; left.
           ++ by apply not_elem_of_cons in Hnot as [_ ?].
  - intros k Hin. by apply elem_of_nil in Hin.
  - intros k Hin. destruct (Hst k) as (t0 & ? & ?).
    { eapply elem_of_sublist; [done|]. apply remove_keys_sublist. }
    exists t0. simpl in *. split; [done|lia].
  - (* get, recency *)
    unfold get. fold key. destruct (m !! key) as [x|] eqn:Hk.
    + destruct (get_key_hit _ key x Hc Hk) as (l & Hl & ->). simpl in *.
      destruct (py_remove_elem_of key order l (proj1 Hc) Hl) as (_ & Hnot & _).
      eapply touch_by_recency; [done..|by eapply py_remove_sublist|done].
    + rewrite get_key_miss by done. done.
  - unfold put. fold key. destruct (m !! key) as [x|] eqn:Hk.
    + destruct (put_key_present _ key img x Hc Hk) as (l & Hl & ->). simpl in *.
      destruct (py_remove_elem_of key order l (proj1 Hc) Hl) as (_ & Hnot & _).
      eapply touch_by_recency; [done..|by eapply py_remove_sublist|done].
    + assert (key ∉ order) as Hnot.
      { intros Hin. apply Hc in Hin. simpl in Hin. rewrite Hk in Hin.
        by apply is_Some_None in Hin. }
      destruct (decide (Z.of_nat (size m) < n)) as [Hlt|Hge].
      * rewrite put_key_room by done. simpl.
        by eapply touch_by_recency.
      * destruct order as [|oldest rest] eqn:Ho.
        -- rewrite put_key_empty_full by (done || simpl; lia). simpl.
           constructor.
        -- rewrite (put_key_full _ key img oldest rest) by (done || simpl; lia).
           simpl. eapply touch_by_recency; [done..| |].
           ++ by apply sublist_cons_r; left.
           ++ by apply not_elem_of_cons in Hnot as [_ ?].
  - constructor.
  - unfold by_recency in *. simpl in *.
    eapply StronglySorted_sublist; [apply remove_keys_sublist|done].
Qed.

Lemma run_clock_invariant ops s :
  lru_inv s →
  lru_inv (run_clock ops s) ∧
  max_size (cache_of (run_clock ops s)) = max_size (cache_of s).
Proof.
  revert s. induction ops as [|o ops IH]; intros s Hs; [done|].
  destruct (step_clock_invariant s o Hs) as [Hs' Hn].
  destruct (IH _ Hs') as [? ?]. unfold run_clock in *. simpl.
  split; [done|congruence].
Qed.

Lemma run_clock_cache ops s :
  cache_of (run_clock ops s) = run ops (cache_of s).
Proof.
  revert s. induction ops as [|o ops IH]; intros s; [done|].
  unfold run_clock, run in *. simpl. by rewrite IH.
Qed.

Lemma lru_inv_start n : 0 <= n → lru_inv (start n).
Proof.
  intros Hn. split_and!.
  - apply consistent_init.
  - unfold bounded. simpl. rewrite map_size_empty. lia.
  - intros k Hin. by apply elem_of_nil in Hin.
  - constructor.
Qed.

(** *** Filling a cache *)

Lemma put_all_app kvs1 kvs2 c :
  put_all (kvs1 ++ kvs2) c = put_all kvs2 (put_all kvs1 c).
Proof. unfold put_all. by rewrite foldl_app. Qed.

Lemma put_all_room kvs c :
  consistent c → NoDup kvs.*1 →
  (∀ k, k ∈ kvs.*1 → _cache c !! k = None) →
  Z.of_nat (size (_cache c)) + len kvs <= max_size c →
  consistent (put_all kvs c) ∧
  _access_order (put_all kvs c) = _access_order c ++ kvs.*1 ∧
  max_size (put_all kvs c) = max_size c.
Proof.
  revert c. induction kvs as [|[k v] kvs IH]; intros c Hc Hnd Hfresh Hsz.
  { simpl. by rewrite app_nil_r. }
  rewrite fmap_cons in Hnd, Hfresh. simpl in Hnd, Hfresh.
  apply NoDup_cons in Hnd as [Hk Hnd].
  unfold len in *. simpl length in Hsz.
  assert (_cache c !! k = None) as Hkc by (apply Hfresh; by left).
  unfold put_all in *. simpl.
  rewrite put_key_room by (done || lia). simpl.
  set (c1 := mk _ _ _).
  assert (consistent c1 ∧ bounded c1) as [Hc1 _].
  { pose proof (put_key_invariant c k v Hc) as Hinv.
    rewrite put_key_room in Hinv by (done || lia).
    destruct Hinv as (? & ? & _); [unfold bounded; lia|done]. }
  destruct (IH c1 Hc1 Hnd) as (? & Ho & ?).
  - intros k' Hk'. simpl. rewrite lookup_insert_ne by (by intros ->).
    apply Hfresh. by right.
  - simpl. rewrite map_size_insert_None by done. lia.
  - split_and!; [done| |done]. rewrite Ho. simpl. by rewrite <-app_assoc.
Qed.

End page_cache.

(** C9: after any run of get/put/clear/clear_pdf on a cache created with
    capacity [n ≥ 0], at most [max_size] entries are stored, the access-order
    list holds exactly the stored keys, each once, and a put on a key that is
    already stored succeeds, replaces that entry only and evicts nothing,
    whether or not the cache is full. *)
Theorem page_cache_size_invariant (n : Z) (ops : list PageCache.op) :
  0 <= n →
  let c := PageCache.run ops (PageCache.init n) in
  PageCache.max_size c = n ∧
  Z.of_nat (size (PageCache._cache c)) <= PageCache.max_size c ∧
  NoDup (PageCache._access_order c) ∧
  (∀ k, k ∈ PageCache._access_order c ↔ is_Some (PageCache._cache c !! k)) ∧
  (∀ p pg d img,
     is_Some (PageCache._cache c !! PageCache._make_key p pg d) →
     ∃ c', PageCache.put c p pg d img = (c', Ok ()) ∧
           PageCache._cache c' = <[PageCache._make_key p pg d := img]> (PageCache._cache c) ∧
           size (PageCache._cache c') = size (PageCache._cache c)).
Proof.
  intros Hn c.
  destruct (run_invariant ops (PageCache.init n)) as ([Hnd Hiff] & Hb & Hmax).
  { apply consistent_init. }
  { unfold PageCache.bounded. simpl. rewrite map_size_empty. lia. }
  fold c in Hnd, Hiff, Hb, Hmax.
  split_and!; [done..|].
  intros p pg d img [old Hold].
  destruct (put_key_present c _ img old (conj Hnd Hiff) Hold) as (l & _ & Hput).
  eexists. split; [exact Hput|]. simpl. split; [done|].
  apply map_size_insert_Some. by rewrite Hold.
Qed.

Lemma page_cache_size_invariant_witness :
  0 <= 2 ∧
  let c := PageCache.run
    [PageCache.Put "a.pdf" 0 72 (PageCache.Raster 1);
     PageCache.Put "a.pdf" 1 72 (PageCache.Raster 2);
     PageCache.Get "a.pdf" 0 72;
     PageCache.Put "a.pdf" 2 72 (PageCache.Raster 3);
     PageCache.ClearPdf "b.pdf"] (PageCache.init 2) in
  PageCache.max_size c = 2 ∧
  Z.of_nat (size (PageCache._cache c)) <= PageCache.max_size c ∧
  NoDup (PageCache._access_order c) ∧
  (∀ k, k ∈ PageCache._access_order c ↔ is_Some (PageCache._cache c !! k)) ∧
  (∀ p pg d img,
     is_Some (PageCache._cache c !! PageCache._make_key p pg d) →
     ∃ c', PageCache.put c p pg d img = (c', Ok ()) ∧
           PageCache._cache c' = <[PageCache._make_key p pg d := img]> (PageCache._cache c) ∧
           size (PageCache._cache c') = size (PageCache._cache c)).
Proof.
  split; [lia|]. apply (page_cache_size_invariant 2). lia.
Defined.

Example cache_run_example :
  PageCache._access_order (PageCache.run
    [PageCache.Put "a.pdf" 0 72 (PageCache.Raster 1);
     PageCache.Put "a.pdf" 1 72 (PageCache.Raster 2);
     PageCache.Get "a.pdf" 0 72;
     PageCache.Put "a.pdf" 2 72 (PageCache.Raster 3)] (PageCache.init 2))
  = ["a.pdf:0:72"; "a.pdf:2:72"]%string.
Proof. vm_compute. reflexivity. Qed.

(** C4, as stated, fails: the cache has one capacity and one recency order
    for all resolution classes.  With capacity 2 and two pages stored at
    class 150, a put at class 300 evicts the older class-150 entry. *)
Lemma page_cache_eviction_crosses_classes :
  let c := PageCache.run
    [PageCache.Put "a.pdf" 0 150 (PageCache.Raster 1);
     PageCache.Put "a.pdf" 1 150 (PageCache.Raster 2)] (PageCache.init 2) in
  let r := PageCache.put c "a.pdf" 0 300 (PageCache.Raster 3) in
  PageCache._cache c !! PageCache._make_key "a.pdf" 0 150 = Some (PageCache.Raster 1) ∧
  r.2 = Ok () ∧
  PageCache._cache r.1 !! PageCache._make_key "a.pdf" 0 150 = None ∧
  PageCache._cache r.1 !! PageCache._make_key "a.pdf" 1 150 = Some (PageCache.Raster 2) ∧
  PageCache._cache r.1 !! PageCache._make_key "a.pdf" 0 300 = Some (PageCache.Raster 3).
Proof. vm_compute. done. Qed.

(** C4, amended: eviction is strict LRU over the whole cache, whatever the
    resolution class of the keys.  After any run of operations on a cache of
    capacity [n ≥ 1], a put of a key that is not stored into a full cache
    succeeds and evicts exactly one entry, the least recently accessed of all
    stored keys (every other stored key was accessed strictly later), and
    stores the new key; and putting [n + 1] distinct keys into the empty cache
    leaves exactly the last [n] of them, in order of insertion. *)
Theorem page_cache_lru_eviction
    (n : Z) (ops : list PageCache.op) (key : string) (img : PageCache.Image)
    (kvs : list (string * PageCache.Image)) :
  1 <= n →
  (let s := PageCache.run_clock ops (PageCache.start n) in
   let c := PageCache.cache_of s in
   c = PageCache.run ops (PageCache.init n) ∧
   (PageCache._cache c !! key = None →
    Z.of_nat (size (PageCache._cache c)) = n →
    ∃ victim,
      is_Some (PageCache._cache c !! victim) ∧
      (∀ k, is_Some (PageCache._cache c !! k) → k ≠ victim →
            older (PageCache.stamps s) victim k) ∧
      (PageCache.put_key c key img).2 = Ok () ∧
      PageCache._cache (PageCache.put_key c key img).1
        = <[key := img]> (delete victim (PageCache._cache c)))) ∧
  (NoDup kvs.*1 → len kvs = n + 1 →
   PageCache._access_order (PageCache.put_all kvs (PageCache.init n)) = tail kvs.*1 ∧
   ∀ k, is_Some (PageCache._cache (PageCache.put_all kvs (PageCache.init n)) !! k)
        ↔ k ∈ tail kvs.*1).
Proof.
  intros Hn. split.
  - intros s c.
    destruct (run_clock_invariant ops (PageCache.start n)) as ((Hc & Hb & Hst & Hs) & Hmax).
    { apply lru_inv_start. lia. }
    fold s in Hc, Hb, Hst, Hs, Hmax. fold c in Hc, Hb, Hmax. simpl in Hmax.
    split; [apply run_clock_cache|].
    intros Hk Hfull.
    pose proof (consistent_size c Hc) as Hsz.
    destruct (PageCache._access_order c) as [|victim rest] eqn:Ho.
    { simpl in Hsz. lia. }
    exists victim.
    rewrite (put_key_full c key img victim rest) by (done || lia). simpl.
    split_and!; [|  |done..].
    + apply Hc. rewrite Ho. by left.
    + intros k Hsome Hne. apply Hc in Hsome. rewrite Ho in Hsome.
      apply elem_of_cons in Hsome as [?|Hin]; [done|].
      unfold by_recency in Hs. fold c in Hs. rewrite Ho in Hs.
      apply StronglySorted_cons in Hs as [Hall _].
      by eapply Forall_forall in Hall.
  - intros Hnd Hlen.
    set (k := Z.to_nat n).
    rewrite <-(take_drop k kvs) in Hnd |- *.
    assert (length (take k kvs) = k) as Htake.
    { rewrite length_take. unfold len in Hlen. lia. }
    destruct (drop k kvs) as [|[kl vl] [|]] eqn:Hdrop.
    1,3: apply (f_equal length) in Hdrop; rewrite length_drop in Hdrop;
         unfold len in Hlen; simpl in Hdrop; lia.
    rewrite fmap_app in Hnd. apply NoDup_app in Hnd as (Hnd1 & Hdisj & _).
    rewrite put_all_app.
    destruct (put_all_room (take k kvs) (PageCache.init n)) as (Hc & Ho & Hmax).
    { apply consistent_init. }
    { done. }
    { intros ? _. apply lookup_empty. }
    { simpl. rewrite map_size_empty. unfold len. lia. }
    simpl in Ho, Hmax. set (c := PageCache.put_all (take k kvs) (PageCache.init n)) in *.
    assert (PageCache._cache c !! kl = None) as Hkl.
    { destruct (PageCache._cache c !! kl) eqn:E; [|done]. exfalso.
      assert (kl ∈ PageCache._access_order c) as Hin by (apply Hc; by rewrite E).
      rewrite Ho in Hin. eapply Hdisj; [done|]. simpl. by left. }
    pose proof (consistent_size c Hc) as Hsz. rewrite Ho, length_fmap, Htake in Hsz.
    destruct (take k kvs).*1 as [|k0 front] eqn:Hfront.
    { apply (f_equal length) in Hfront. rewrite length_fmap, Htake in Hfront.
      simpl in Hfront. lia. }
    unfold PageCache.put_all at 1. simpl.
    rewrite (put_key_full c kl vl k0 front) by (done || lia).
    rewrite fmap_app, Hfront. simpl. split; [done|].
    intros k'.
    pose proof (put_key_invariant c kl vl Hc) as Hinv.
    rewrite (put_key_full c kl vl k0 front) in Hinv by (done || lia).
    destruct Hinv as ([_ Hiff] & _).
    { unfold PageCache.bounded. lia. }
    simpl in Hiff. by rewrite <-Hiff.
Qed.

Lemma page_cache_lru_eviction_witness :
  1 <= 2 ∧
  PageCache._access_order
    (PageCache.put_all [("a:0:72", PageCache.Raster 1); ("a:1:72", PageCache.Raster 2);
                        ("a:2:72", PageCache.Raster 3)]%string (PageCache.init 2))
  = ["a:1:72"; "a:2:72"]%string.
Proof.
  split; [lia|].
  refine (proj1 (proj2 (page_cache_lru_eviction 2 [] "k" (PageCache.Raster 0)
    [("a:0:72", PageCache.Raster 1); ("a:1:72", PageCache.Raster 2);
     ("a:2:72", PageCache.Raster 3)]%string _) _ _)).
  - lia.
  - apply (bool_decide_unpack _). vm_compute. reflexivity.
  - reflexivity.
Defined.

(** ** The viewer's fast thumbnail lookup *)

Ltac unfold_monad :=
  unfold mbind, M_bind, bind, mret, M_ret, ret, gets, modify, lift_res, raise, when in *.

Section viewer.
Import PageCache Viewer.

Variable render_page_thumbnail : PdfDocument → Z → Z → res Image.

Lemma elem_of_insert_by key x l y :
  y ∈ insert_by key x l ↔ y = x ∨ y ∈ l.
Proof.
  induction l as [|z l IH]; simpl.
  - by rewrite list_elem_of_singleton, elem_of_nil; intuition.
  - destruct (key x <=? key z).
    + by rewrite elem_of_cons.
    + rewrite !elem_of_cons, IH. tauto.
Qed.

Lemma elem_of_sorted_by key l y : y ∈ sorted_by key l ↔ y ∈ l.
Proof.
  induction l as [|x l IH]; simpl; [done|].
  rewrite elem_of_insert_by, elem_of_cons, IH. done.
Qed.

Lemma insert_by_sorted key x l :
  StronglySorted (λ a b, key a <= key b) l →
  StronglySorted (λ a b, key a <= key b) (insert_by key x l).
Proof.
  induction l as [|z l IH]; intros Hs; simpl.
  - repeat constructor.
  - apply StronglySorted_cons in Hs as [Hall Hs].
    destruct (key x <=? key z) eqn:E.
    + apply Z.leb_le in E. apply StronglySorted_cons. split.
      * constructor; [done|]. eapply Forall_impl; [done|]. simpl. intros; lia.
      * by apply StronglySorted_cons.
    + apply Z.leb_gt in E. apply StronglySorted_cons. split; [|by apply IH].
      apply Forall_forall. intros y [->|Hy]%elem_of_insert_by; [lia|].
      by eapply Forall_forall in Hall.
Qed.

Lemma sorted_by_sorted key l :
  StronglySorted (λ a b, key a <= key b) (sorted_by key l).
Proof.
  induction l as [|x l IH]; simpl; [constructor|]. by apply insert_by_sorted.
Qed.

Example sorted_by_ties :
  sorted_by (λ d, Z.abs (d - 84)) common_dpis = [72; 96; 150; 200].
Proof. reflexivity. Qed.

Example sorted_by_300 :
  sorted_by (λ d, Z.abs (d - 120)) common_dpis = [96; 150; 72; 200].
Proof. reflexivity. Qed.

(** What the search loop returns on a consistent cache: nothing, with the
    viewer untouched, when no listed DPI is stored; otherwise the first
    stored one, whose entry has been moved to the recent end. *)
Lemma first_cached_spec pdf_path page_num dpis v :
  consistent (cache v) →
  (Forall (λ d, _cache (cache v) !! _make_key pdf_path page_num d = None) dpis ∧
   first_cached pdf_path page_num dpis v = (v, Ok None)) ∨
  (∃ l1 d l2 img,
     dpis = l1 ++ d :: l2 ∧
     Forall (λ d, _cache (cache v) !! _make_key pdf_path page_num d = None) l1 ∧
     _cache (cache v) !! _make_key pdf_path page_num d = Some img ∧
     first_cached pdf_path page_num dpis v
       = (set_cache (PageCache.get (cache v) pdf_path page_num d).1 v,
          Ok (Some (img, d)))).
Proof.
  intros Hc. induction dpis as [|d dpis IH].
  { left. split; [constructor|done]. }
  simpl. unfold_monad. unfold cache_get, get.
  destruct (_cache (cache v) !! _make_key pdf_path page_num d) as [img|] eqn:Hd.
  - right. exists [], d, dpis, img. split_and!; [done|constructor|done|].
    destruct (get_key_hit _ _ img Hc Hd) as (l & Hl & ->). done.
  - rewrite get_key_miss by done. simpl.
    replace (set_cache (cache v) v) with v by (by destruct v).
    destruct IH as [[Hall ->]|(l1 & d' & l2 & img & -> & Hall & Hd' & ->)].
    + left. split; [by constructor|done].
    + right. exists (d :: l1), d', l2, img. split_and!; [done|by constructor|done..].
Qed.

Lemma put_key_stores c key img :
  consistent c → 1 <= max_size c →
  (put_key c key img).2 = Ok () ∧ _cache (put_key c key img).1 !! key = Some img.
Proof.
  intros Hc Hmax. destruct (_cache c !! key) as [old|] eqn:Hk.
  - destruct (put_key_present c key img old Hc Hk) as (l & _ & ->). simpl.
    by rewrite lookup_insert_eq.
  - destruct (decide (Z.of_nat (size (_cache c)) < max_size c)) as [Hlt|Hge].
    + rewrite put_key_room by done. simpl. by rewrite lookup_insert_eq.
    + pose proof (consistent_size c Hc) as Hsz.
      destruct (_access_order c) as [|oldest rest] eqn:Ho; [simpl in Hsz; lia|].
      rewrite (put_key_full c key img oldest rest) by (done || lia). simpl.
      by rewrite lookup_insert_eq.
Qed.

Lemma py_index_lookup {A} (l : list A) i x :
  0 <= i → l !! Z.to_nat i = Some x →
  py_index l i = Ok x ∧ (i <? 0) || (len l <=? i) = false.
Proof.
  intros Hi Hx. pose proof (lookup_lt_Some _ _ _ Hx) as Hlt.
  unfold py_index, len.
  replace (i <? 0) with false by (symmetry; apply Z.ltb_ge; lia).
  replace (0 <=? i) with true by (symmetry; apply Z.leb_le; lia).
  replace (i <? Z.of_nat (length l)) with true by (symmetry; apply Z.ltb_lt; lia).
  replace (Z.of_nat (length l) <=? i) with false by (symmetry; apply Z.leb_gt; lia).
  simpl. by rewrite Hx.
Qed.

(** The slow path on a page whose thumbnail is not cached: one render is
    requested and, when it succeeds, its result is stored and returned. *)
Lemma get_page_thumbnail_miss v page_idx dpi p doc :
  consistent (cache v) → 1 <= max_size (cache v) →
  0 <= page_idx → pages v !! Z.to_nat page_idx = Some p →
  py_index (documents v) p.1 = Ok doc →
  _cache (cache v) !! _make_key (filepath doc) p.2 dpi = None →
  let r := get_page_thumbnail render_page_thumbnail page_idx dpi v in
  rendered r.1 = rendered v ++ [(filepath doc, p.2, dpi)] ∧
  r.2 = render_page_thumbnail doc p.2 dpi ∧
  ∀ image, r.2 = Ok image →
    _cache (cache r.1) !! _make_key (filepath doc) p.2 dpi = Some image.
Proof.
  intros Hc Hmax Hi Hp Hdoc Hk.
  destruct (py_index_lookup _ _ _ Hi Hp) as [Hpi Hrange].
  unfold get_page_thumbnail. unfold_monad. rewrite Hrange, Hpi, Hdoc.
  unfold cache_get, get. rewrite get_key_miss by done. simpl.
  unfold render. simpl.
  destruct (render_page_thumbnail doc p.2 dpi) as [image|e]; simpl; [|done].
  unfold cache_put, put. simpl.
  destruct (put_key_stores (cache v) (_make_key (filepath doc) p.2 dpi) image Hc Hmax)
    as [Hok Hst].
  destruct (put_key _ _ _) as [c' r']. simpl in *. subst r'. simpl.
  split_and!; [done..|]. by intros ? [= <-].
Qed.

End viewer.

Local Opaque Viewer.sorted_by.

(** C3: on a page whose thumbnail at the target DPI is not cached, the known
    DPIs are searched for the stored one nearest to the target.  If there is
    one and the scale from it to the target is at most 1.5, the stored raster
    is resized and returned, no render is requested and the stored entries
    are unchanged; if the scale exceeds 1.5, or no known DPI is stored, the
    lookup is a miss: one render at the target DPI is requested and, when it
    succeeds, its result is returned and stored under the target key. *)
Theorem fast_zoom_fallback
    (render_page_thumbnail : Viewer.PdfDocument → Z → Z → res PageCache.Image)
    (v : Viewer.t) (page_idx target_dpi : Z) (p : Z * Z) (doc : Viewer.PdfDocument) :
  0 < target_dpi →
  PageCache.consistent (Viewer.cache v) → 1 <= PageCache.max_size (Viewer.cache v) →
  0 <= page_idx → Viewer.pages v !! Z.to_nat page_idx = Some p →
  py_index (Viewer.documents v) p.1 = Ok doc →
  let stored d :=
    PageCache._cache (Viewer.cache v) !! PageCache._make_key (Viewer.filepath doc) p.2 d in
  stored target_dpi = None →
  let r := Viewer.get_page_thumbnail_fast render_page_thumbnail page_idx target_dpi v in
  let fresh_render :=
    Viewer.rendered r.1 = Viewer.rendered v ++ [(Viewer.filepath doc, p.2, target_dpi)] ∧
    r.2 = render_page_thumbnail doc p.2 target_dpi ∧
    ∀ image, r.2 = Ok image →
      PageCache._cache (Viewer.cache r.1)
        !! PageCache._make_key (Viewer.filepath doc) p.2 target_dpi = Some image in
  (∃ d img,
     d ∈ Viewer.common_dpis ∧ stored d = Some img ∧
     (∀ d', d' ∈ Viewer.common_dpis → is_Some (stored d') →
            Z.abs (d - target_dpi) <= Z.abs (d' - target_dpi)) ∧
     (2 * target_dpi <= 3 * d →
        r.2 = Ok (PageCache.Resized img target_dpi d) ∧
        Viewer.rendered r.1 = Viewer.rendered v ∧
        PageCache._cache (Viewer.cache r.1) = PageCache._cache (Viewer.cache v)) ∧
     (3 * d < 2 * target_dpi → fresh_render))
  ∨ ((∀ d, d ∈ Viewer.common_dpis → stored d = None) ∧ fresh_render).
Proof.
  intros Hpos Hc Hmax Hi Hp Hdoc stored Hexact r.
  destruct (py_index_lookup _ _ _ Hi Hp) as [Hpi Hrange].
  set (key := λ d, Z.abs (d - target_dpi)).
  set (slow := Viewer.get_page_thumbnail render_page_thumbnail page_idx target_dpi).
  assert (r = match Viewer.first_cached (Viewer.filepath doc) p.2
                      (Viewer.sorted_by key Viewer.common_dpis) v with
              | (s', Ok (Some (best_cached, best_dpi))) =>
                  if bool_decide (best_dpi ≠ target_dpi) then
                    if Viewer.scale_within target_dpi best_dpi
                    then (s', Ok (PageCache.Resized best_cached target_dpi best_dpi))
                    else slow s'
                  else (s', Ok best_cached)
              | (s', Ok None) => slow s'
              | (s', Raise e) => (s', Raise e)
              end) as Hr.
  { subst r. unfold Viewer.get_page_thumbnail_fast. unfold_monad.
    rewrite Hrange, Hpi, Hdoc.
    unfold Viewer.cache_get at 1, PageCache.get. rewrite get_key_miss by done. simpl.
    replace (Viewer.set_cache (Viewer.cache v) v) with v by (by destruct v).
    fold key slow.
    destruct (Viewer.first_cached _ _ _ v) as [s' [[[bc bd]|]|]]; [|done..].
    destruct (bool_decide (bd ≠ target_dpi)), (Viewer.scale_within target_dpi bd); done. }
  clearbody r. subst r. intros fresh_render.
  destruct (first_cached_spec (Viewer.filepath doc) p.2
              (Viewer.sorted_by key Viewer.common_dpis) v Hc)
    as [[Hall Hfc]|(l1 & d & l2 & img & Hsplit & Hall & Hd & Hfc)].
  - right. split.
    { intros d Hd. eapply Forall_forall in Hall; [exact Hall|].
      by apply elem_of_sorted_by. }
    subst fresh_render. simpl. rewrite Hfc.
    by apply get_page_thumbnail_miss.
  - left. exists d, img.
    assert (d ∈ Viewer.common_dpis) as Hin.
    { apply (elem_of_sorted_by key). rewrite Hsplit, elem_of_app. right. by left. }
    assert (bool_decide (d ≠ target_dpi) = true) as Hne.
    { apply bool_decide_eq_true_2. intros ->. unfold stored in Hexact. congruence. }
    destruct (get_key_consistent (Viewer.cache v)
                (PageCache._make_key (Viewer.filepath doc) p.2 d) Hc)
      as (Hc1 & Hm1 & Hn1 & _).
    split_and!; [done..| | |].
    + intros d' Hd' [img' Hs'].
      apply (elem_of_sorted_by key) in Hd'. rewrite Hsplit in Hd'.
      apply elem_of_app in Hd' as [Hd'|Hd'].
      { eapply Forall_forall in Hall; [|done]. simpl in Hall.
        unfold stored in Hs'. congruence. }
      apply elem_of_cons in Hd' as [->|Hd']; [lia|].
      pose proof (sorted_by_sorted key Viewer.common_dpis) as Hs.
      rewrite Hsplit in Hs. apply StronglySorted_app in Hs as (_ & _ & Hs).
      apply StronglySorted_cons in Hs as [Hfa _].
      eapply Forall_forall in Hfa; [|done]. done.
    + intros Hscale. rewrite Hfc, Hne. unfold Viewer.scale_within.
      replace (2 * target_dpi <=? 3 * d) with true by (symmetry; by apply Z.leb_le).
      simpl. done.
    + intros Hscale. subst fresh_render. simpl. rewrite Hfc, Hne.
      unfold Viewer.scale_within.
      replace (2 * target_dpi <=? 3 * d) with false by (symmetry; apply Z.leb_gt; lia).
      set (v1 := Viewer.set_cache _ v).
      destruct (get_page_thumbnail_miss render_page_thumbnail v1 page_idx target_dpi p doc)
        as (Hr & Hres & Hst); try done.
      * simpl. unfold PageCache.get. by rewrite Hn1.
      * simpl. unfold PageCache.get. by rewrite Hm1.
Qed.

Lemma fast_zoom_fallback_witness :
  let render := λ (_ : Viewer.PdfDocument) (_ _ : Z), Ok (PageCache.Raster 9) in
  let doc := {| Viewer.filepath := "a.pdf" |} in
  let v := Viewer.mk [doc] [(0, 0)]
             (PageCache.run [PageCache.Put "a.pdf" 0 96 (PageCache.Raster 1)]
                            (PageCache.init 500)) [] in
  let stored d :=
    PageCache._cache (Viewer.cache v) !! PageCache._make_key "a.pdf" 0 d in
  let r := Viewer.get_page_thumbnail_fast render 0 120 v in
  let fresh_render :=
    Viewer.rendered r.1 = Viewer.rendered v ++ [("a.pdf"%string, 0, 120)] ∧
    r.2 = render doc 0 120 ∧
    ∀ image, r.2 = Ok image →
      PageCache._cache (Viewer.cache r.1) !! PageCache._make_key "a.pdf" 0 120 = Some image in
  0 < 120 ∧
  ((∃ d img,
     d ∈ Viewer.common_dpis ∧ stored d = Some img ∧
     (∀ d', d' ∈ Viewer.common_dpis → is_Some (stored d') →
            Z.abs (d - 120) <= Z.abs (d' - 120)) ∧
     (2 * 120 <= 3 * d →
        r.2 = Ok (PageCache.Resized img 120 d) ∧
        Viewer.rendered r.1 = Viewer.rendered v ∧
        PageCache._cache (Viewer.cache r.1) = PageCache._cache (Viewer.cache v)) ∧
     (3 * d < 2 * 120 → fresh_render))
   ∨ ((∀ d, d ∈ Viewer.common_dpis → stored d = None) ∧ fresh_render)).
Proof.
  intros render doc v stored r fresh_render. split; [lia|].
  apply (fast_zoom_fallback render v 0 120 (0, 0) doc).
  - lia.
  - apply run_invariant; [apply consistent_init|].
    unfold PageCache.bounded. simpl. rewrite map_size_empty. lia.
  - vm_compute. discriminate.
  - lia.
  - reflexivity.
  - reflexivity.
  - vm_compute. reflexivity.
Defined.

Example fast_zoom_rescales :
  let render := λ (_ : Viewer.PdfDocument) (_ _ : Z), Ok (PageCache.Raster 9) in
  let v := Viewer.mk [{| Viewer.filepath := "a.pdf" |}] [(0, 0)]
             (PageCache.run [PageCache.Put "a.pdf" 0 96 (PageCache.Raster 1)]
                            (PageCache.init 500)) [] in
  (Viewer.get_page_thumbnail_fast render 0 120 v).2
    = Ok (PageCache.Resized (PageCache.Raster 1) 120 96) ∧
  (Viewer.get_page_thumbnail_fast render 0 150 v).2 = Ok (PageCache.Raster 9) ∧
  Viewer.rendered (Viewer.get_page_thumbnail_fast render 0 150 v).1
    = [("a.pdf"%string, 0, 150)].
Proof. vm_compute. done. Qed.

Local Transparent Viewer.sorted_by.

(** ** The flow layout *)

Section layout.
Import Layout.

(** Without sections the loop never switches section nor records a header. *)
Lemma layout_item_no_sections i wh L l :
  layout_item ∅ i wh (L, l) =
    let item_w := wh.1 + sepsize L in
    let item_h := wh.2 + sepsize L in
    if (0 <? x l) && (width L <? x l + item_w) then
      (append_position (0, y l + row_height l, wh.1, wh.2)
         (set_row_height (y l) (row_height l) L),
       Locals item_w (y l + row_height l) (Z.max 0 item_h)
              (current_section_start_y l) (active_section_idx l))
    else
      (append_position (x l, y l, wh.1, wh.2) L,
       Locals (x l + item_w) (y l) (Z.max (row_height l) item_h)
              (current_section_start_y l) (active_section_idx l)).
Proof.
  unfold layout_item, switch_section, place_item. rewrite lookup_empty.
  simpl. destruct ((0 <? x l) && _); simpl; by rewrite ?lookup_empty.
Qed.

(** The simulation between the loop of [update] and the packing of the
    specification: same cursor, same positions, and the same committed rows
    up to a zero-height entry for the row being filled. *)
Definition packs_as (gap cw : Z) (Ll : t * locals) (P : packing) : Prop :=
  width Ll.1 = cw ∧ sepsize Ll.1 = gap ∧
  positions Ll.1 = placed P ∧
  x Ll.2 = px P ∧ y Ll.2 = py P ∧ row_height Ll.2 = prow P ∧
  0 <= px P ∧ 0 <= prow P ∧ (px P = 0 → prow P = 0) ∧
  (row_heights Ll.1 = rows P ∨
   (0 < prow P ∧ rows P = <[py P := 0]> (row_heights Ll.1))).

Lemma layout_item_packs gap cw i wh Ll P :
  0 < gap → 0 <= wh.1 → 0 <= wh.2 →
  packs_as gap cw Ll P →
  packs_as gap cw (layout_item ∅ i wh Ll) (pack_item gap cw P wh).
Proof.
  intros Hgap Hw Hh. destruct Ll as [L l].
  intros (Hcw & Hg & Hpos & Hx & Hy & Hr & Hx0 & Hr0 & Hzero & Hrows).
  simpl in *. rewrite layout_item_no_sections. unfold pack_item. simpl.
  rewrite Hcw, Hg, Hx, Hy, Hr.
  destruct (Z.leb_spec (px P + (wh.1 + gap)) cw) as [Hfit|Hover].
  - replace (cw <? px P + (wh.1 + gap)) with false by (symmetry; apply Z.ltb_ge; lia).
    rewrite andb_false_r. unfold packs_as. simpl.
    rewrite Hpos. split_and!; try done; try lia.
    destruct Hrows as [?|[? ?]]; [by left|right]. split; [lia|done].
  - replace (cw <? px P + (wh.1 + gap)) with true by (symmetry; apply Z.ltb_lt; lia).
    rewrite andb_true_r.
    destruct (Z.ltb_spec 0 (px P)) as [Hpos'|Hzero'].
    + unfold packs_as. simpl. rewrite Hpos.
      split_and!; try done; try lia. left.
      destruct Hrows as [->|[_ ->]]; [done|]. by rewrite insert_insert_eq.
    + assert (px P = 0) as Hpx by lia. rewrite Hpx. rewrite (Hzero Hpx).
      unfold packs_as. simpl. rewrite Hpos, Z.add_0_r.
      split_and!; try done; try lia.
      right. split; [lia|].
      destruct Hrows as [->|[? _]]; [done|]. specialize (Hzero Hpx). lia.
Qed.

Lemma layout_items_packs gap cw items : ∀ i Ll P,
  0 < gap → Forall (λ wh, 0 <= wh.1 ∧ 0 <= wh.2) items →
  packs_as gap cw Ll P →
  packs_as gap cw (layout_items ∅ i items Ll) (foldl (pack_item gap cw) P items).
Proof.
  induction items as [|wh items IH]; intros i Ll P Hgap Hall HR; [done|].
  apply Forall_cons in Hall as [[Hw Hh] Hall]. simpl.
  apply IH; [done..|]. by apply layout_item_packs.
Qed.

(** [update] without sections is the packing of the specification. *)
Lemma update_packs items cw L :
  0 < sepsize L → Forall (λ wh, 0 <= wh.1 ∧ 0 <= wh.2) items →
  let r := update items cw [] L in
  let P := pack (sepsize L) (Z.max 1 cw) items in
  r.2 = Ok () ∧ positions r.1 = placed P ∧
  row_heights r.1 = rows P ∧ total_height r.1 = py P ∧
  width r.1 = Z.max 1 cw.
Proof.
  intros Hgap Hall. destruct items as [|wh items]; [done|].
  unfold update. unfold_monad. cbn [fst snd section_starts_of enumerate imap foldl].
  set (L0 := begin_update cw L).
  set (st := first_section [] ∅ L0).
  assert (packs_as (sepsize L) (Z.max 1 cw) st (Packing [] ∅ 0 0 0)) as HR.
  { unfold packs_as. simpl. split_and!; try done. by left. }
  pose proof (layout_items_packs (sepsize L) (Z.max 1 cw) (wh :: items) 0 st _ Hgap Hall HR)
    as (Hcw & Hg & Hpos & Hx & Hy & Hr & Hx0 & Hr0 & Hzero & Hrows).
  unfold pack. set (P := foldl _ _ _) in *.
  destruct (layout_items ∅ 0 (wh :: items) st) as [L1 l1]. simpl in *.
  unfold finish_rows. rewrite Hr, Hy.
  destruct (Z.ltb_spec 0 (prow P)) as [Hlt|Hle]; simpl.
  - split_and!; try done.
    destruct Hrows as [->|[_ ->]]; [done|]. by rewrite insert_insert_eq.
  - split_and!; try done. destruct Hrows as [?|[? _]]; [done|lia].
Qed.

(** *** Frame conditions of the loop *)

Lemma skip_sections_frame a b y0 L :
  width (skip_sections a b y0 L) = width L ∧
  sepsize (skip_sections a b y0 L) = sepsize L ∧
  continuous_mode (skip_sections a b y0 L) = continuous_mode L ∧
  positions (skip_sections a b y0 L) = positions L ∧
  section_header_coords (skip_sections a b y0 L) = section_header_coords L.
Proof.
  unfold skip_sections. generalize (seq a (b - a)). intros idxs. revert L.
  induction idxs as [|i idxs IH]; intros L; [done|]. simpl.
  destruct (IH (set_section_bound i (y0, y0) L)) as (-> & -> & -> & -> & ->). done.
Qed.

(** What one turn of the loop does to the cursor and to the positions. *)
Definition well_placed (Ll : t * locals) : Prop :=
  0 <= x Ll.2 ∧ 0 <= row_height Ll.2 ∧
  (0 < x Ll.2 → 0 < row_height Ll.2) ∧
  Forall (λ p : position, p.1.1.2 <= y Ll.2) (positions Ll.1) ∧
  (x Ll.2 = 0 → Forall (λ p : position, p.1.1.2 < y Ll.2) (positions Ll.1)).

Lemma switch_section_spec i ss Ll :
  well_placed Ll →
  let Ll' := switch_section i ss Ll in
  well_placed Ll' ∧
  width Ll'.1 = width Ll.1 ∧ sepsize Ll'.1 = sepsize Ll.1 ∧
  continuous_mode Ll'.1 = continuous_mode Ll.1 ∧
  positions Ll'.1 = positions Ll.1 ∧
  y Ll.2 <= y Ll'.2 ∧
  (x Ll'.2 = x Ll.2 ∧ y Ll'.2 = y Ll.2 ∨ x Ll'.2 = 0 ∧ y Ll.2 < y Ll'.2).
Proof.
  destruct Ll as [L l]. intros (Hx & Hr & Hxr & Hle & Hlt). simpl in *.
  assert (well_placed (L, l)) as Hwp by done.
  unfold switch_section.
  destruct (ss !! Z.of_nat i) as [new_idx|];
    [|simpl; split_and!; try done; try lia; by left].
  destruct (bool_decide (0 < i)%nat && bool_decide (new_idx ≠ active_section_idx l));
    [|simpl; split_and!; try done; try lia; by left].
  destruct (negb (continuous_mode L) && ((0 <? row_height l) || (0 <? x l))) eqn:Hforce.
  - destruct (Z.ltb_spec 0 (row_height l)) as [Hpos|Hnpos].
    + simpl.
      destruct (skip_sections_frame (S (active_section_idx l)) new_idx
                  (y l + row_height l)
                  (set_section_bound (active_section_idx l)
                     (current_section_start_y l, y l + row_height l)
                     (set_row_height (y l) (row_height l) L)))
        as (Hf1 & Hf2 & Hf3 & Hf4 & _).
      unfold well_placed. simpl. rewrite Hf1, Hf2, Hf3, Hf4. simpl.
      split_and!; try done; try lia; try (right; lia).
      * eapply Forall_impl; [exact Hle|]. simpl. intros; lia.
      * intros _. eapply Forall_impl; [exact Hle|]. simpl. intros; lia.
    + exfalso. apply andb_true_iff in Hforce as [_ Hforce].
      apply orb_true_iff in Hforce as [Hf|Hf]; [done|].
      apply Z.ltb_lt in Hf. specialize (Hxr Hf). lia.
  - destruct (skip_sections_frame (S (active_section_idx l)) new_idx (y l)
                (set_section_bound (active_section_idx l)
                   (current_section_start_y l, y l) L))
      as (Hf1 & Hf2 & Hf3 & Hf4 & _).
    unfold well_placed. simpl. rewrite Hf1, Hf2, Hf3, Hf4. simpl.
    split_and!; try done; try lia; try (by left).
Qed.

Lemma place_item_spec i ss wh Ll :
  0 < sepsize Ll.1 → 1 <= width Ll.1 → 0 <= wh.1 → 0 <= wh.2 →
  well_placed Ll →
  let Ll' := place_item i ss wh Ll in
  let item_w := wh.1 + sepsize Ll.1 in
  well_placed Ll' ∧
  width Ll'.1 = width Ll.1 ∧ sepsize Ll'.1 = sepsize Ll.1 ∧
  continuous_mode Ll'.1 = continuous_mode Ll.1 ∧
  y Ll.2 <= y Ll'.2 ∧
  0 < x Ll'.2 ∧
  ∃ px, positions Ll'.1 = positions Ll.1 ++ [(px, y Ll'.2, wh.1, wh.2)] ∧
        0 <= px ∧ x Ll'.2 = px + item_w ∧
        (width Ll.1 < item_w → px = 0) ∧
        (px = 0 → Forall (λ p : position, p.1.1.2 < y Ll'.2) (positions Ll.1)) ∧
        (width Ll.1 < x Ll.2 → y Ll.2 < y Ll'.2).
Proof.
  destruct Ll as [L l]. simpl. intros Hgap Hwd Hw Hh (Hx & Hr & Hxr & Hle & Hlt).
  simpl in *. unfold place_item.
  destruct ((0 <? x l) && (width L <? x l + (wh.1 + sepsize L))) eqn:Hwrap.
  - apply andb_true_iff in Hwrap as [Hx1%Z.ltb_lt Hover%Z.ltb_lt].
    specialize (Hxr Hx1).
    assert (∀ L', positions L' = positions L ++ [(0, y l + row_height l, wh.1, wh.2)] →
            well_placed (L', Locals (0 + (wh.1 + sepsize L)) (y l + row_height l)
                             (Z.max 0 (wh.2 + sepsize L)) (current_section_start_y l)
                             (active_section_idx l))) as Hwp.
    { intros L' HL'. split_and!; simpl; try lia.
      - rewrite HL'. apply Forall_app. split.
        + eapply Forall_impl; [exact Hle|]. simpl. intros; lia.
        + repeat constructor. simpl. lia. }
    destruct (ss !! Z.of_nat i); simpl.
    all: split_and!; try done; try lia; try (by apply Hwp).
    all: exists 0; split_and!; try done; try lia.
    all: intros _; eapply Forall_impl; [exact Hle|]; simpl; intros; lia.
  - assert (∀ L', positions L' = positions L ++ [(x l, y l, wh.1, wh.2)] →
            well_placed (L', Locals (x l + (wh.1 + sepsize L)) (y l)
                             (Z.max (row_height l) (wh.2 + sepsize L))
                             (current_section_start_y l) (active_section_idx l))) as Hwp.
    { intros L' HL'. split_and!; simpl; try lia.
      rewrite HL'. apply Forall_app. split; [done|].
      repeat constructor. simpl. lia. }
    assert (width L < wh.1 + sepsize L → x l = 0) as Hwide.
    { intros Hwide. apply andb_false_iff in Hwrap as [Hx0%Z.ltb_ge|Hfit%Z.ltb_ge]; lia. }
    assert (¬ width L < x l) as Hnarrow.
    { intros Hover. apply andb_false_iff in Hwrap as [Hx0%Z.ltb_ge|Hfit%Z.ltb_ge]; lia. }
    destruct (ss !! Z.of_nat i); simpl.
    all: split_and!; try done; try lia; try (by apply Hwp).
    all: exists (x l); split_and!; try done; try lia.
Qed.

Lemma layout_item_spec i ss wh Ll :
  0 < sepsize Ll.1 → 1 <= width Ll.1 → 0 <= wh.1 → 0 <= wh.2 →
  well_placed Ll →
  let Ll' := layout_item ss i wh Ll in
  let item_w := wh.1 + sepsize Ll.1 in
  well_placed Ll' ∧
  width Ll'.1 = width Ll.1 ∧ sepsize Ll'.1 = sepsize Ll.1 ∧
  continuous_mode Ll'.1 = continuous_mode Ll.1 ∧
  y Ll.2 <= y Ll'.2 ∧
  0 < x Ll'.2 ∧
  ∃ px, positions Ll'.1 = positions Ll.1 ++ [(px, y Ll'.2, wh.1, wh.2)] ∧
        0 <= px ∧ x Ll'.2 = px + item_w ∧
        (width Ll.1 < item_w → px = 0) ∧
        (px = 0 → Forall (λ p : position, p.1.1.2 < y Ll'.2) (positions Ll.1)) ∧
        (width Ll.1 < x Ll.2 → y Ll.2 < y Ll'.2).
Proof.
  intros Hgap Hwd Hw Hh Hwp. unfold layout_item.
  destruct (switch_section_spec i ss Ll Hwp) as (Hwp1 & Hf1 & Hf2 & Hf3 & Hf4 & Hy & Hxy).
  set (Ll1 := switch_section i ss Ll) in *.
  destruct (place_item_spec i ss wh Ll1) as (Hwp2 & Hg1 & Hg2 & Hg3 & Hy2 & Hx2 & px & Hp & ? & ? & ? & ? & Hov);
    [lia..|done|].
  cbv zeta. rewrite Hg1, Hg2, Hg3, Hf1, Hf2, Hf3. rewrite Hf1, Hf2 in *.
  split_and!; try done; try lia.
  exists px. rewrite Hp, Hf4. rewrite Hf4 in *. split_and!; try done.
  intros Hwide. destruct Hxy as [[Hx' Hy']|[Hx' Hy']]; [|lia].
  rewrite Hx' in Hov. specialize (Hov Hwide). lia.
Qed.

Lemma layout_items_app ss i items1 items2 Ll :
  layout_items ss i (items1 ++ items2) Ll =
  layout_items ss (i + length items1) items2 (layout_items ss i items1 Ll).
Proof.
  revert i Ll. induction items1 as [|wh items1 IH]; intros i Ll; simpl.
  - by rewrite Nat.add_0_r.
  - rewrite IH. f_equal. lia.
Qed.

(** Everything placed by the rest of the loop lies at or below the current
    row, and strictly below it when the cursor is already past the
    container's right edge. *)
Lemma layout_items_spec ss items : ∀ i Ll,
  0 < sepsize Ll.1 → 1 <= width Ll.1 →
  Forall (λ wh, 0 <= wh.1 ∧ 0 <= wh.2) items →
  well_placed Ll →
  let Ll' := layout_items ss i items Ll in
  well_placed Ll' ∧
  width Ll'.1 = width Ll.1 ∧ sepsize Ll'.1 = sepsize Ll.1 ∧
  continuous_mode Ll'.1 = continuous_mode Ll.1 ∧
  ∃ new, positions Ll'.1 = positions Ll.1 ++ new ∧
         length new = length items ∧
         Forall (λ p : position,
                   y Ll.2 <= p.1.1.2 ∧ (width Ll.1 < x Ll.2 → y Ll.2 < p.1.1.2)) new.
Proof.
  induction items as [|wh items IH]; intros i Ll Hgap Hwd Hall Hwp.
  { simpl. split_and!; try done. exists []. by rewrite app_nil_r. }
  apply Forall_cons in Hall as [[Hw Hh] Hall]. simpl.
  destruct (layout_item_spec i ss wh Ll) as
    (Hwp1 & Hf1 & Hf2 & Hf3 & Hy & Hx & px & Hp & _ & _ & _ & _ & Hov); try done.
  set (Ll1 := layout_item ss i wh Ll) in *.
  destruct (IH (S i) Ll1) as (Hwp2 & Hg1 & Hg2 & Hg3 & new & Hnew & Hlen & Hfa);
    [lia..|done|done|].
  rewrite Hg1, Hg2, Hg3. split_and!; try done.
  exists ((px, y Ll1.2, wh.1, wh.2) :: new).
  rewrite Hnew, Hp, <-app_assoc. simpl. split_and!; [done|by rewrite Hlen|].
  constructor; simpl.
  - split; [lia|done].
  - eapply Forall_impl; [exact Hfa|]. simpl. intros p [Hp1 _].
    split; [lia|]. intros Hwide. specialize (Hov Hwide). lia.
Qed.

Lemma first_section_spec sections ss L :
  positions L = [] →
  let Ll := first_section sections ss L in
  well_placed Ll ∧ positions Ll.1 = [] ∧
  width Ll.1 = width L ∧ sepsize Ll.1 = sepsize L ∧
  continuous_mode Ll.1 = continuous_mode L.
Proof.
  intros Hp. unfold first_section, well_placed.
  destruct sections as [|s sections], (ss !! 0) as [idx|]; simpl;
    repeat (match goal with |- context [if ?b then _ else _] => destruct b end);
    simpl; rewrite Hp; split_and!; try done; try lia.
Qed.

Lemma finish_rows_positions sections Ll :
  positions (finish_rows sections Ll) = positions Ll.1 ∧
  width (finish_rows sections Ll) = width Ll.1 ∧
  continuous_mode (finish_rows sections Ll) = continuous_mode Ll.1 ∧
  section_header_coords (finish_rows sections Ll) = section_header_coords Ll.1.
Proof.
  destruct Ll as [L l]. unfold finish_rows.
  destruct (0 <? row_height l), sections as [|s sections]; simpl; try done.
  all: match goal with |- context [skip_sections ?a ?b ?y ?L] =>
         destruct (skip_sections_frame a b y L) as (-> & _ & -> & -> & ->) end.
  all: done.
Qed.

Lemma header_width_positions sections e L :
  positions (header_width sections e L).1 = positions L.
Proof.
  destruct e as [sec_idx [[sx sy] w0]]. unfold header_width.
  destruct (sections !! sec_idx) as [sec|]; [|done]. unfold_monad. simpl.
  destruct (start_page sec <? len (positions L)); [|done].
  destruct (scan_row _ _ _ _); done.
Qed.

Lemma header_pass_positions sections es : ∀ L,
  positions (for_each es (header_width sections) L).1 = positions L.
Proof.
  induction es as [|e es IH]; intros L; [done|]. simpl. unfold bind.
  pose proof (header_width_positions sections e L) as He.
  destruct (header_width sections e L) as [L1 [[]|err]]; simpl in *; [|done].
  by rewrite IH.
Qed.

(** [update] leaves the positions computed by its loop. *)
Lemma update_positions item_sizes cw sections L :
  positions (update item_sizes cw sections L).1 =
  match item_sizes with
  | [] => []
  | _ :: _ =>
      positions (layout_items (section_starts_of sections) 0 item_sizes
                   (first_section sections (section_starts_of sections)
                      (begin_update cw L))).1
  end.
Proof.
  unfold update. unfold_monad. simpl. destruct item_sizes as [|wh items]; [done|].
  set (Ll := layout_items _ _ _ _).
  destruct (finish_rows_positions sections Ll) as (Hp & _).
  destruct sections as [|s sections]; simpl; [done|].
  destruct (continuous_mode _); simpl; [|done].
  by rewrite header_pass_positions.
Qed.

(** *** [update] returns normally *)

Lemma elem_of_enumerate {A} (l : list A) i a :
  (i, a) ∈ enumerate l → l !! i = Some a.
Proof.
  unfold enumerate. intros Hin.
  apply list_elem_of_lookup in Hin as [j Hj].
  rewrite list_lookup_imap in Hj.
  destruct (l !! j) eqn:E; simpl in Hj; [|done]. by injection Hj as <- <-.
Qed.

Lemma section_starts_of_valid sections k i :
  section_starts_of sections !! k = Some i → (i < length sections)%nat.
Proof.
  unfold section_starts_of.
  assert (∀ es (m : gmap Z nat),
            (∀ k i, m !! k = Some i → (i < length sections)%nat) →
            Forall (λ e : nat * Section_, (e.1 < length sections)%nat) es →
            ∀ k i, foldl (λ m e, <[start_page e.2 := e.1]> m) m es !! k = Some i →
                   (i < length sections)%nat) as Hgen.
  { induction es as [|e es IH]; intros m Hm Hes k' i' Hk; [by eapply Hm|].
    apply Forall_cons in Hes as [He Hes]. simpl in Hk.
    eapply IH; [|done|exact Hk].
    intros k0 i0. rewrite lookup_insert. case_decide; [|by apply Hm].
    by intros [= <-]. }
  apply Hgen; [by intros ? ?; rewrite lookup_empty|].
  apply Forall_forall. intros [j sec] Hin%elem_of_enumerate. simpl.
  by eapply lookup_lt_Some.
Qed.

Lemma od_set_keys {V} (P : nat → Prop) (d : odict nat V) k v :
  Forall (λ e, P e.1) d → P k → Forall (λ e, P e.1) (od_set d k v).
Proof.
  intros Hd Hk. induction d as [|[k' v'] d IH]; simpl.
  - by repeat constructor.
  - apply Forall_cons in Hd as [Hk' Hd].
    destruct (decide (k = k')); constructor; auto.
Qed.

Definition headers_valid (n : nat) (L : t) : Prop :=
  Forall (λ e : nat * (Z * Z * Z), (e.1 < n)%nat) (section_header_coords L).

Lemma layout_item_headers n ss i wh Ll :
  (∀ k j, ss !! k = Some j → (j < n)%nat) →
  headers_valid n Ll.1 → headers_valid n (layout_item ss i wh Ll).1.
Proof.
  intros Hss Hv. destruct Ll as [L l]. unfold layout_item.
  assert (headers_valid n (switch_section i ss (L, l)).1) as Hv1.
  { unfold switch_section. simpl in Hv.
    destruct (ss !! Z.of_nat i); [|done].
    destruct (_ && _); [|done].
    destruct (negb (continuous_mode L) && _).
    - destruct (0 <? row_height l); [|destruct (0 <? x l)]; simpl.
      all: unfold headers_valid;
        match goal with |- context [skip_sections ?a ?b ?y ?L] =>
          destruct (skip_sections_frame a b y L) as (_ & _ & _ & _ & ->) end; done.
    - simpl. unfold headers_valid.
      match goal with |- context [skip_sections ?a ?b ?y ?L] =>
        destruct (skip_sections_frame a b y L) as (_ & _ & _ & _ & ->) end. done. }
  destruct (switch_section i ss (L, l)) as [L1 l1]. simpl in Hv1.
  unfold place_item. destruct (_ && _); simpl.
  all: destruct (ss !! Z.of_nat i) as [sec_idx|] eqn:E; simpl; [|done].
  all: unfold headers_valid; simpl;
    apply (od_set_keys (λ j, (j < n)%nat)); [done|by eapply Hss].
Qed.

Lemma layout_items_headers n ss items : ∀ i Ll,
  (∀ k j, ss !! k = Some j → (j < n)%nat) →
  headers_valid n Ll.1 → headers_valid n (layout_items ss i items Ll).1.
Proof.
  induction items as [|wh items IH]; intros i Ll Hss Hv; [done|]. simpl.
  apply IH; [done|]. by apply layout_item_headers.
Qed.

Lemma first_section_headers sections L :
  section_header_coords L = [] →
  headers_valid (length sections)
    (first_section sections (section_starts_of sections) L).1.
Proof.
  intros Hnil. unfold first_section, headers_valid.
  destruct sections as [|s sections]; simpl; [by rewrite Hnil|].
  destruct (section_starts_of (s :: sections) !! 0) as [idx|] eqn:E.
  - apply section_starts_of_valid in E.
    destruct (_ && _); simpl;
      repeat (apply (od_set_keys (λ j, (j < S (length sections))%nat)); [|done]);
      rewrite Hnil; constructor.
  - destruct (_ && _); simpl.
    + apply (od_set_keys (λ j, (j < S (length sections))%nat)); [|lia].
      rewrite Hnil. constructor.
    + rewrite Hnil. constructor.
Qed.

Lemma elem_of_py_range a b i : i ∈ py_range a b → a <= i < b.
Proof.
  unfold py_range. intros (k & -> & Hk)%list_elem_of_fmap.
  apply elem_of_seq in Hk. lia.
Qed.

Lemma scan_row_ok ps sy idxs cur :
  Forall (λ i, 0 <= i < len ps) idxs → ∃ v, scan_row ps sy idxs cur = Ok v.
Proof.
  revert cur. induction idxs as [|i idxs IH]; intros cur Hall; [by eexists|].
  apply Forall_cons in Hall as [Hi Hall]. simpl.
  destruct (lookup_lt_is_Some_2 ps (Z.to_nat i)) as [p Hp]; [unfold len in Hi; lia|].
  destruct (py_index_lookup ps i p) as [-> _]; [lia|done|].
  destruct p as [[[px0 py0] pw] ph]. destruct (bool_decide (py0 ≠ sy)); [by eexists|].
  by apply IH.
Qed.

Lemma header_width_ok sections e L sec :
  sections !! e.1 = Some sec → 0 <= start_page sec →
  (header_width sections e L).2 = Ok ().
Proof.
  destruct e as [sec_idx [[sx sy] w0]]. simpl. intros Hsec Hstart.
  unfold header_width. rewrite Hsec. unfold_monad. simpl.
  destruct (start_page sec <? len (positions L)); [|done].
  destruct (scan_row_ok (positions L) sy
              (py_range (start_page sec)
                 (Z.min (start_page sec + page_count sec) (len (positions L)))) sx)
    as [v ->]; [|done].
  apply Forall_forall. intros i Hi%elem_of_py_range. lia.
Qed.

Lemma header_pass_ok sections es : ∀ L,
  Forall (λ s, 0 <= start_page s) sections →
  Forall (λ e : nat * (Z * Z * Z), (e.1 < length sections)%nat) es →
  (for_each es (header_width sections) L).2 = Ok ().
Proof.
  induction es as [|e es IH]; intros L Hsec Hes; [done|].
  apply Forall_cons in Hes as [He Hes]. simpl. unfold bind.
  destruct (lookup_lt_is_Some_2 sections e.1 He) as [sec Hs].
  pose proof (header_width_ok sections e L sec Hs) as Hok.
  destruct (header_width sections e L) as [L1 r]. simpl in Hok.
  rewrite Hok; [by apply IH|].
  eapply Forall_forall in Hsec; [exact Hsec|]. by eapply list_elem_of_lookup_2.
Qed.

Lemma update_ok item_sizes cw sections L :
  Forall (λ s, 0 <= start_page s) sections →
  (update item_sizes cw sections L).2 = Ok ().
Proof.
  intros Hsec. unfold update. unfold_monad. simpl.
  destruct item_sizes as [|wh items]; [done|].
  set (ss := section_starts_of sections).
  set (Ll := layout_items ss 0 (wh :: items) _).
  destruct sections as [|s sections]; [done|]. simpl.
  destruct (continuous_mode _); [|done].
  apply header_pass_ok; [done|].
  destruct (finish_rows_positions (s :: sections) Ll) as (_ & _ & _ & ->).
  apply layout_items_headers; [apply section_starts_of_valid|].
  by apply first_section_headers.
Qed.

Lemma layout_items_width ss items : ∀ i Ll,
  width (layout_items ss i items Ll).1 = width Ll.1.
Proof.
  induction items as [|wh items IH]; intros i Ll; [done|]. simpl.
  rewrite IH. destruct Ll as [L0 l0].
  unfold layout_item, switch_section, place_item.
  repeat (match goal with
          | |- context [match ?o with Some _ => _ | None => _ end] => destruct o
          | |- context [if ?b then _ else _] => destruct b
          | |- context [skip_sections ?a ?b ?y ?L] =>
              destruct (skip_sections_frame a b y L) as (-> & _)
          end; simpl); done.
Qed.

Lemma header_pass_width sections es : ∀ L,
  width (for_each es (header_width sections) L).1 = width L.
Proof.
  induction es as [|e es IH]; intros L; [done|]. simpl. unfold bind.
  assert (width (header_width sections e L).1 = width L) as He.
  { destruct e as [sec_idx [[sx sy] w0]]. unfold header_width.
    destruct (sections !! sec_idx) as [sec|]; [|done]. unfold_monad. simpl.
    destruct (_ <? _); [|done]. destruct (scan_row _ _ _ _); done. }
  destruct (header_width sections e L) as [L2 [[]|err]]; simpl in *; [|done].
  by rewrite IH.
Qed.

Lemma update_width item_sizes cw sections L :
  width (update item_sizes cw sections L).1 = Z.max 1 cw.
Proof.
  unfold update. unfold_monad. simpl. destruct item_sizes as [|wh items]; [done|].
  set (ss := section_starts_of sections).
  destruct (first_section_spec sections ss (begin_update cw L) eq_refl)
    as (_ & _ & Hw0 & _).
  set (st0 := first_section sections ss _) in *.
  pose proof (layout_items_width ss (wh :: items) 0 st0) as Hw1.
  destruct (finish_rows_positions sections (layout_items ss 0 (wh :: items) st0))
    as (_ & Hwf & _).
  set (Lf := finish_rows sections _) in *.
  assert (width Lf = Z.max 1 cw) as HLf by (rewrite Hwf, Hw1, Hw0; done).
  clearbody Lf. clear -HLf.
  destruct sections as [|s sections]; simpl; [done|].
  destruct (continuous_mode Lf); simpl; [|done].
  by rewrite header_pass_width.
Qed.

End layout.

(** C1: the positions, committed row heights and total height computed by
    [update] (no sections, non-negative item sizes, the fixed gap of 3) are
    those of the row packing of the specification: an item is appended to
    the current row while [x + item_width ≤ container_width], otherwise the
    row is closed with the maximum item height and a new row starts at
    [x = 0].  For 10 items of width 100 and any height [h ≥ 0] in a
    container of width 750, the first row holds exactly the items 0..6 and
    item 7 starts the second row at [x = 0], [y = h + 3]. *)
Theorem flow_layout_row_packing
    (item_sizes : list (Z * Z)) (container_width : Z) (L : Layout.t) (h : Z) :
  Layout.sepsize L = 3 →
  Forall (λ wh, 0 <= wh.1 ∧ 0 <= wh.2) item_sizes →
  0 <= h →
  (let r := Layout.update item_sizes container_width [] L in
   let P := Layout.pack 3 (Z.max 1 container_width) item_sizes in
   r.2 = Ok () ∧
   Layout.positions r.1 = Layout.placed P ∧
   Layout.row_heights r.1 = Layout.rows P ∧
   Layout.total_height r.1 = Layout.py P) ∧
  (let L' := (Layout.update (replicate 10 (100, h)) 750 [] L).1 in
   Layout.positions L' =
     [(0, 0, 100, h); (103, 0, 100, h); (206, 0, 100, h); (309, 0, 100, h);
      (412, 0, 100, h); (515, 0, 100, h); (618, 0, 100, h);
      (0, h + 3, 100, h); (103, h + 3, 100, h); (206, h + 3, 100, h)] ∧
   Layout.row_heights L' !! 0 = Some (h + 3) ∧
   Layout.total_height L' = 2 * (h + 3)).
Proof.
  intros Hgap Hall Hh. split.
  - destruct (update_packs item_sizes container_width L) as (? & ? & ? & ? & _);
      [lia|done|]. rewrite Hgap in *. done.
  - destruct (update_packs (replicate 10 (100, h)) 750 L) as (_ & Hp & Hr & Ht & _).
    { lia. }
    { apply Forall_replicate. simpl. lia. }
    rewrite Hgap in *. cbv zeta in *. rewrite Hp, Hr, Ht. clear Hp Hr Ht.
    unfold Layout.pack. simpl.
    rewrite !Z.max_id.
    replace (Z.max 0 (h + 3)) with (h + 3) by lia.
    rewrite !Z.max_id.
    replace (0 <? h + 3) with true by (symmetry; apply Z.ltb_lt; lia).
    simpl. rewrite Z.add_0_l.
    split_and!; [done| |lia].
    rewrite lookup_insert_ne by lia. by rewrite lookup_insert_eq.
Qed.

Lemma flow_layout_row_packing_witness :
  Layout.sepsize Layout.init = 3 ∧
  Forall (λ wh : Z * Z, 0 <= wh.1 ∧ 0 <= wh.2) [(900, 150); (10, 10); (10, 10); (900, 5)] ∧
  0 <= 150 ∧
  Layout.positions (Layout.update [(900, 150); (10, 10); (10, 10); (900, 5)] 750 [] Layout.init).1
  = Layout.placed (Layout.pack 3 (Z.max 1 750) [(900, 150); (10, 10); (10, 10); (900, 5)]).
Proof.
  assert (Forall (λ wh : Z * Z, 0 <= wh.1 ∧ 0 <= wh.2)
            [(900, 150); (10, 10); (10, 10); (900, 5)]) as Hall.
  { repeat constructor; simpl; lia. }
  split_and!; [reflexivity|exact Hall|lia|].
  apply (flow_layout_row_packing [(900, 150); (10, 10); (10, 10); (900, 5)] 750
           Layout.init 150); [reflexivity|exact Hall|lia].
Defined.

(** C8: [update] is total and returns normally for every item-size list and
    every container width (sections, when given, starting at non-negative
    pages); a container width [≤ 0] is laid out exactly as width 1; an empty
    item list gives total height 0 and no positions; and an item wider than
    the container is placed at [x = 0] on a row that holds no other item
    (item sizes being non-negative). *)
Theorem layout_total_on_degenerate_input
    (item_sizes : list (Z * Z)) (container_width : Z)
    (sections : list Layout.Section_) (L : Layout.t) (i : nat) (w h : Z) :
  Layout.sepsize L = 3 →
  Forall (λ s, 0 <= Layout.start_page s) sections →
  ((Layout.update item_sizes container_width sections L).2 = Ok ()) ∧
  (container_width <= 0 →
     Layout.update item_sizes container_width sections L
       = Layout.update item_sizes 1 sections L ∧
     Layout.width (Layout.update item_sizes container_width sections L).1 = 1) ∧
  (let r := Layout.update [] container_width sections L in
   r.2 = Ok () ∧ Layout.total_height r.1 = 0 ∧ Layout.positions r.1 = []) ∧
  (Forall (λ wh, 0 <= wh.1 ∧ 0 <= wh.2) item_sizes →
   item_sizes !! i = Some (w, h) → Z.max 1 container_width < w →
   let L' := (Layout.update item_sizes container_width sections L).1 in
   ∃ yi, Layout.positions L' !! i = Some (0, yi, w, h) ∧
         ∀ j p, j ≠ i → Layout.positions L' !! j = Some p → p.1.1.2 ≠ yi).
Proof.
  intros Hgap Hsec. split_and!.
  - by apply update_ok.
  - intros Hle.
    assert (Layout.begin_update container_width L = Layout.begin_update 1 L) as Hb.
    { unfold Layout.begin_update. by replace (Z.max 1 container_width) with (Z.max 1 1) by lia. }
    split.
    + unfold Layout.update. unfold_monad. by rewrite Hb.
    + rewrite update_width. lia.
  - done.
  - intros Hall Hi Hwide L'. subst L'. rewrite update_positions.
    destruct item_sizes as [|wh0 items0] eqn:Hitems; [done|]. rewrite <-Hitems in *.
    set (ss := Layout.section_starts_of sections).
    destruct (first_section_spec sections ss (Layout.begin_update container_width L) eq_refl)
      as (Hwp0 & Hp0 & Hw0 & Hs0 & _).
    set (st0 := Layout.first_section sections ss _) in *. clearbody st0.
    change (Layout.width (Layout.begin_update container_width L))
      with (Z.max 1 container_width) in Hw0.
    change (Layout.sepsize (Layout.begin_update container_width L))
      with (Layout.sepsize L) in Hs0.
    rewrite <-(take_drop_middle item_sizes i (w, h) Hi) in Hall |- *.
    set (l1 := take i item_sizes) in *. set (l2 := drop (S i) item_sizes) in *.
    assert (length l1 = i) as Hlen1.
    { subst l1. rewrite length_take. apply lookup_lt_Some in Hi. lia. }
    apply Forall_app in Hall as [Hall1 Hall2].
    apply Forall_cons in Hall2 as [[Hw Hh] Hall2]. simpl in Hw, Hh.
    rewrite layout_items_app. simpl.
    destruct (layout_items_spec ss l1 0 st0) as (Hwp1 & Hw1 & Hs1 & _ & new1 & Hn1 & Hl1 & _);
      [lia..|done|done|].
    set (st1 := Layout.layout_items ss 0 l1 st0) in *.
    destruct (layout_item_spec (length l1) ss (w, h) st1)
      as (Hwp2 & Hw2 & Hs2 & _ & _ & _ & px & Hp2 & _ & Hx2 & Hpx & Hbefore & _);
      [lia..|done|done|done|].
    set (st2 := Layout.layout_item ss (length l1) (w, h) st1) in *.
    simpl in Hp2, Hx2, Hpx.
    assert (px = 0) as -> by lia. specialize (Hbefore eq_refl).
    destruct (layout_items_spec ss l2 (S (length l1)) st2)
      as (_ & _ & _ & _ & new3 & Hn3 & _ & Hafter); [lia..|done|done|].
    rewrite Hn3, Hp2, Hn1, Hp0. simpl. rewrite Hn1, Hp0 in Hbefore. simpl in Hbefore.
    rewrite Hlen1 in Hl1. clearbody st2 st1 l1 l2.
    unfold Layout.position in *.
    exists (Layout.y st2.2). split.
    + rewrite <-app_assoc. rewrite lookup_app_r by lia.
      by replace (i - length new1)%nat with 0%nat by lia.
    + intros j p Hj Hp.
      destruct (decide (j < i)%nat) as [Hlt|Hge].
      * rewrite <-app_assoc, lookup_app_l in Hp by lia.
        eapply Forall_forall in Hbefore; [|by eapply list_elem_of_lookup_2].
        simpl in Hbefore. lia.
      * rewrite lookup_app_r in Hp by (rewrite length_app; simpl; lia).
        eapply Forall_forall in Hafter; [|by eapply list_elem_of_lookup_2].
        simpl in Hafter. destruct Hafter as [_ Hafter].
        assert (Layout.y st2.2 < p.1.1.2) by (apply Hafter; lia). lia.
Qed.

Lemma layout_total_on_degenerate_input_witness :
  Layout.sepsize Layout.init = 3 ∧
  Forall (λ s, 0 <= Layout.start_page s)
         [Layout.Build_Section_ "a" 0 1; Layout.Build_Section_ "b" 1 2] ∧
  (Layout.update [(50, 10); (900, 150); (10, 10)] (-5)
     [Layout.Build_Section_ "a" 0 1; Layout.Build_Section_ "b" 1 2] Layout.init).2 = Ok ().
Proof.
  assert (Forall (λ s, 0 <= Layout.start_page s)
            [Layout.Build_Section_ "a" 0 1; Layout.Build_Section_ "b" 1 2]) as Hsec.
  { repeat constructor; simpl; lia. }
  split_and!; [reflexivity|exact Hsec|].
  apply (layout_total_on_degenerate_input [(50, 10); (900, 150); (10, 10)] (-5)
           [Layout.Build_Section_ "a" 0 1; Layout.Build_Section_ "b" 1 2]
           Layout.init 1 900 150); [reflexivity|exact Hsec].
Defined.

Example layout_wide_item :
  Layout.positions
    (Layout.update [(50, 10); (900, 150); (10, 10)] 750 [] Layout.init).1
  = [(0, 0, 50, 10); (0, 13, 900, 150); (0, 166, 10, 10)].
Proof. vm_compute. reflexivity. Qed.

Example layout_negative_width :
  Layout.update [(50, 10); (900, 150)] (-5) [] Layout.init
  = Layout.update [(50, 10); (900, 150)] 1 [] Layout.init.
Proof. vm_compute. reflexivity. Qed.
(** ** Methods: what they leave alone and when they return *)

Section methods.
Context {S : Type}.

(** [m] relates every state to the state it leaves, whether it returns or
    raises. *)
Definition frames {A} (R : relation S) (m : M S A) : Prop := ∀ s, R s (m s).1.

Definition never_raises {A} (m : M S A) : Prop := ∀ s, is_ok (m s).2 = true.

Lemma bind_run {A B} (m : M S A) (k : A → M S B) s a :
  (m s).2 = Ok a → (m ≫= k) s = k a (m s).1.
Proof.
  unfold mbind, M_bind, bind. destruct (m s) as [s' r]. simpl. by intros ->.
Qed.

Lemma bind_returns {A B} (m : M S A) (k : A → M S B) s s' a :
  m s = (s', Ok a) → (m ≫= k) s = k a s'.
Proof. unfold mbind, M_bind, bind. by intros ->. Qed.

Lemma never_raises_run (m : M S unit) s : never_raises m → (m s).2 = Ok ().
Proof. intros H. specialize (H s). by destruct (m s).2 as [[]|]. Qed.

Lemma is_ok_run (m : M S unit) s : is_ok (m s).2 = true → (m s).2 = Ok ().
Proof. by destruct (m s).2 as [[]|]. Qed.

Section frames.
Context (R : relation S) `{!PreOrder R}.

Lemma frames_ret {A} (a : A) : frames R (mret a).
Proof using Type*. intros s. done. Qed.

Lemma frames_gets {A} (f : S → A) : frames R (gets f).
Proof using Type*. intros s. done. Qed.

Lemma frames_lift_res {A} (r : res A) : frames R (lift_res r).
Proof using Type*. intros s. done. Qed.

Lemma frames_raise {A} e : frames R (raise (A:=A) e).
Proof using Type*. intros s. done. Qed.

Lemma frames_modify (f : S → S) : (∀ s, R s (f s)) → frames R (modify f).
Proof using Type*. intros H s. apply H. Qed.

Lemma frames_bind {A B} (m : M S A) (k : A → M S B) :
  frames R m → (∀ a, frames R (k a)) → frames R (m ≫= k).
Proof using Type*.
  intros Hm Hk s. specialize (Hm s). unfold mbind, M_bind, bind.
  destruct (m s) as [s' [a|e]]; simpl in *; [|done].
  etrans; [done|apply Hk].
Qed.

Lemma frames_for_each {A} (l : list A) (body : A → M S unit) :
  (∀ a, a ∈ l → frames R (body a)) → frames R (for_each l body).
Proof using Type*.
  induction l as [|a l IH]; intros H; simpl.
  - apply frames_ret.
  - apply (frames_bind (body a)); [apply H; left|].
    intros _. apply IH. intros b Hb. apply H. by right.
Qed.

Lemma frames_try_except {A} (m h : M S A) :
  frames R m → frames R h → frames R (try_except m h).
Proof using Type*.
  intros Hm Hh s. specialize (Hm s). unfold try_except.
  destruct (m s) as [s' [a|e]]; simpl in *; [done|].
  etrans; [done|apply Hh].
Qed.

End frames.

Lemma never_raises_ret {A} (a : A) : never_raises (mret a : M S A).
Proof. done. Qed.

Lemma never_raises_gets {A} (f : S → A) : never_raises (gets f).
Proof. done. Qed.

Lemma never_raises_modify (f : S → S) : never_raises (modify f).
Proof. done. Qed.

Lemma never_raises_bind {A B} (m : M S A) (k : A → M S B) :
  never_raises m → (∀ a, never_raises (k a)) → never_raises (m ≫= k).
Proof.
  intros Hm Hk s. specialize (Hm s). unfold mbind, M_bind, bind.
  destruct (m s) as [s' [a|e]]; simpl in *; [apply Hk|done].
Qed.

Lemma never_raises_for_each {A} (l : list A) (body : A → M S unit) :
  (∀ a, a ∈ l → never_raises (body a)) → never_raises (for_each l body).
Proof.
  induction l as [|a l IH]; intros H; simpl.
  - done.
  - apply (never_raises_bind (body a)); [apply H; left|].
    intros _. apply IH. intros b Hb. apply H. by right.
Qed.

Lemma never_raises_try_except {A} (m h : M S A) :
  never_raises h → never_raises (try_except m h).
Proof.
  intros Hh s. unfold try_except. destruct (m s) as [s' [a|e]]; [done|apply Hh].
Qed.

(** [m] returns from every state that satisfies [P]. *)
Definition returns_from {A} (P : S → Prop) (m : M S A) : Prop :=
  ∀ s, P s → is_ok (m s).2 = true.

Lemma returns_from_never {A} P (m : M S A) : never_raises m → returns_from P m.
Proof. intros H s _. apply H. Qed.

Lemma returns_from_bind {A B} P (R : relation S) (m : M S A) (k : A → M S B) :
  (∀ s s', R s s' → P s → P s') →
  frames R m → returns_from P m → (∀ a, returns_from P (k a)) →
  returns_from P (m ≫= k).
Proof.
  intros HR Hf Hm Hk s Hs. specialize (Hf s). specialize (Hm s Hs).
  unfold mbind, M_bind, bind.
  destruct (m s) as [s' [a|e]]; simpl in *; [|done].
  apply Hk. by apply (HR s).
Qed.

Lemma returns_from_gets {A B} P (f : S → A) (k : A → M S B) :
  (∀ s, P s → is_ok (k (f s) s).2 = true) → returns_from P (gets f ≫= k).
Proof. intros H s Hs. by apply H. Qed.

End methods.

(** One step of a proof that a method frames a relation or never raises:
    the method is taken apart along its binds, loops and branches. *)
Ltac method_step :=
  lazymatch goal with
  | |- frames ?R (mret _) => apply (frames_ret R)
  | |- frames ?R (gets _) => apply (frames_gets R)
  | |- frames ?R (lift_res _) => apply (frames_lift_res R)
  | |- frames ?R (raise _) => apply (frames_raise R)
  | |- frames ?R (mbind _ _) => apply (frames_bind R); [|intros ?]
  | |- frames ?R (for_each _ _) => apply (frames_for_each R); intros ? ?
  | |- frames ?R (try_except _ _) => apply (frames_try_except R)
  | |- never_raises (mret _) => apply never_raises_ret
  | |- never_raises (gets _) => apply never_raises_gets
  | |- never_raises (modify _) => apply never_raises_modify
  | |- never_raises (mbind _ _) => apply never_raises_bind; [|intros ?]
  | |- never_raises (for_each _ _) => apply never_raises_for_each; intros ? ?
  | |- never_raises (try_except _ _) => apply never_raises_try_except
  | |- _ (if ?b then _ else _) => destruct b eqn:?
  | |- _ (match ?x with _ => _ end) => destruct x eqn:?
  end.

Ltac head_of t := lazymatch t with ?f _ => head_of f | _ => t end.

(** A method that is not a bind, a loop or a branch is unfolded. *)
Ltac method_unfold :=
  lazymatch goal with
  | |- frames _ ?m => let h := head_of m in unfold h
  | |- never_raises ?m => let h := head_of m in unfold h
  end.

(** ** The grid: what a redraw leaves alone

    A redraw writes the tracking attributes, the canvas, the drag fan, the
    box thumbnails, and the render pipeline through [images] and
    [request_render].  A relation that each of these writes respects is
    respected by the whole cycle. *)

Class RedrawFrame (R : relation Grid.t) : Prop := {
  #[global] frame_preorder :: PreOrder R;
  frame_track : ∀ f g, R g (Grid.upd_track f g);
  frame_canvas : ∀ f g, R g (Grid.upd_canvas f g);
  frame_drag : ∀ f g, R g (Grid.upd_drag f g);
  frame_box_images :
    ∀ f g, R g (Grid.upd_data (λ d, Grid.set_box_images (f d) d) g);
  frame_images : frames R Grid.images;
  frame_request : ∀ i, frames R (Grid.request_render i)
}.

Section grid_frames.
Import Grid.
Context (R : relation Grid.t) `{!RedrawFrame R}.

Lemma frames_upd_track f : frames R (modify (upd_track f)).
Proof using Type*. apply (frames_modify R). intros g. apply frame_track. Qed.

Lemma frames_upd_canvas f : frames R (modify (upd_canvas f)).
Proof using Type*. apply (frames_modify R). intros g. apply frame_canvas. Qed.

Lemma frames_upd_drag f : frames R (modify (upd_drag f)).
Proof using Type*. apply (frames_modify R). intros g. apply frame_drag. Qed.

Lemma frames_upd_box_images f :
  frames R (modify (upd_data (λ d, set_box_images (f d) d))).
Proof using Type*. apply (frames_modify R). intros g. apply frame_box_images. Qed.

Lemma frames_on_canvas {A} (f : Canvas.t → Canvas.t * A) : frames R (on_canvas f).
Proof using Type*. intros g. apply frame_canvas. Qed.

End grid_frames.

Ltac frames_with tac :=
  repeat first
    [ tac
    | lazymatch goal with
      | |- frames ?R Grid.images => apply (frame_images (R:=R))
      | |- frames ?R (Grid.request_render _) => apply (frame_request (R:=R))
      | |- frames ?R (modify (Grid.upd_track _)) => apply (frames_upd_track R)
      | |- frames ?R (modify (Grid.upd_canvas _)) => apply (frames_upd_canvas R)
      | |- frames ?R (modify (Grid.upd_drag _)) => apply (frames_upd_drag R)
      | |- frames ?R (modify (Grid.upd_data _)) => apply (frames_upd_box_images R)
      | |- frames ?R (Grid.on_canvas _) => apply (frames_on_canvas R)
      end
    | method_step | progress (cbv zeta) | method_unfold ].

Ltac frames_tac := frames_with fail.

Section grid_frames_methods.
Import Grid.
Context (R : relation Grid.t) `{!RedrawFrame R}.

Lemma frames_clear_all_drawn_items : frames R _clear_all_drawn_items.
Proof using Type*. unfold _clear_all_drawn_items. frames_tac. Qed.

Lemma frames_draw_item_smart index : frames R (_draw_item_smart index).
Proof using Type*. unfold _draw_item_smart. frames_tac. Qed.

Lemma frames_redraw_items start_idx end_idx : frames R (redraw_items start_idx end_idx).
Proof using Type*.
  unfold redraw_items. frames_with ltac:(apply frames_draw_item_smart).
Qed.

Lemma frames_redraw_reset : frames R redraw_reset.
Proof using Type*. unfold redraw_reset. frames_tac. Qed.

Lemma frames_redraw_indicators scroll_y view_height :
  frames R (redraw_indicators scroll_y view_height).
Proof using Type*. unfold redraw_indicators. frames_tac. Qed.

Lemma frames_redraw : frames R redraw.
Proof using Type*.
  unfold redraw.
  frames_with ltac:(first [ apply frames_redraw_reset | apply frames_redraw_items
                          | apply frames_redraw_indicators
                          | apply frames_clear_all_drawn_items ]).
Qed.

(** The layout refresh also writes the layout and the scrollbar. *)
Lemma frames_update_layout :
  (∀ v g, R g (upd_data (set_layout v) g)) →
  (∀ f g, R g (upd_host f g)) →
  frames R _update_layout.
Proof using Type*.
  intros Hl Hh. unfold _update_layout.
  frames_with ltac:(first [ apply (frames_modify R); intros ?; apply Hl
                          | apply (frames_modify R); intros ?; apply Hh ]).
Qed.

End grid_frames_methods.

(** An observation [f] of the grid that a redraw cannot change. *)
Definition same_on {X} (f : Grid.t → X) : relation Grid.t := λ g g', f g' = f g.

Global Instance same_on_preorder {X} (f : Grid.t → X) : PreOrder (same_on f).
Proof. split; [done|]. intros g1 g2 g3 H12 H23. unfold same_on in *. congruence. Qed.

Class RedrawBlind {X} (f : Grid.t → X) : Prop := {
  blind_track : ∀ h g, f (Grid.upd_track h g) = f g;
  blind_canvas : ∀ h g, f (Grid.upd_canvas h g) = f g;
  blind_drag : ∀ h g, f (Grid.upd_drag h g) = f g;
  blind_render : ∀ h g, f (Grid.upd_render h g) = f g;
  blind_box_images :
    ∀ h g, f (Grid.upd_data (λ d, Grid.set_box_images (h d) d) g) = f g
}.

Global Instance same_on_frame {X} (f : Grid.t → X) `{!RedrawBlind f} :
  RedrawFrame (same_on f).
Proof.
  split; try apply _; unfold same_on.
  - apply blind_track.
  - apply blind_canvas.
  - apply blind_drag.
  - apply blind_box_images.
  - unfold Grid.images.
    repeat first [ method_step
                 | apply (frames_modify (same_on f)); intros g; apply blind_render ].
  - intros i. unfold Grid.request_render, Grid._render_page_async, Grid.images.
    repeat first [ method_step
                 | apply (frames_modify (same_on f)); intros g; apply blind_render ].
Qed.

(** ** The grid: methods that return *)

Section grid_returns.
Import Grid.

Lemma py_index_ok {A} (l : list A) (i : Z) :
  0 <= i < len l → ∃ a, py_index l i = Ok a ∧ l !! Z.to_nat i = Some a.
Proof.
  intros Hi. unfold py_index, len in *.
  destruct (i <? 0) eqn:E; [lia|].
  assert ((0 <=? i) && (i <? Z.of_nat (length l)) = true) as -> by lia.
  destruct (lookup_lt_is_Some_2 l (Z.to_nat i)) as [a Ha]; [lia|].
  exists a. by rewrite Ha.
Qed.

Lemma py_index_last_ok {A} (l : list A) :
  l ≠ [] → ∃ a, py_index l (-1) = Ok a.
Proof.
  intros Hl. unfold py_index. simpl.
  assert (0 < Z.of_nat (length l)) by (destruct l; [done|simpl; lia]).
  assert ((0 <=? -1 + Z.of_nat (length l)) && (-1 + Z.of_nat (length l) <? Z.of_nat (length l)) = true)
    as -> by lia.
  destruct (lookup_lt_is_Some_2 l (Z.to_nat (-1 + Z.of_nat (length l)))) as [a Ha]; [lia|].
  exists a. by rewrite Ha.
Qed.

Lemma position_at_run g index :
  0 <= index < len (Layout.positions (layout (data g))) →
  ∃ p, position_at index g = (g, Ok p) ∧
       Layout.positions (layout (data g)) !! Z.to_nat index = Some p.
Proof.
  intros Hi. destruct (py_index_ok _ _ Hi) as (p & Hp & Hl).
  exists p. split; [|done]. unfold position_at. unfold_monad. unfold id. by rewrite Hp.
Qed.

Lemma never_raises_guarded {A} index (a : A) (k : t → Layout.position → M t A) :
  0 <= index → (∀ g p, never_raises (k g p)) →
  never_raises (g ← gets id;
                if len (Layout.positions (layout (data g))) <=? index then mret a
                else p ← position_at index; k g p).
Proof.
  intros Hi Hk g. unfold mbind at 1. unfold M_bind, bind. simpl.
  destruct (len _ <=? index) eqn:E; [done|].
  destruct (position_at_run g index) as (p & Hp & _); [lia|].
  rewrite (bind_run _ _ g p) by (by rewrite Hp).
  apply Hk.
Qed.

Lemma never_raises_on_canvas {A} (f : Canvas.t → Canvas.t * A) : never_raises (on_canvas f).
Proof. done. Qed.

Lemma never_raises_lift_res {A} (r : res A) :
  is_ok r = true → never_raises (lift_res r : M t A).
Proof. intros H g. done. Qed.

Lemma py_index_is_ok {A} (l : list A) (i : Z) :
  0 <= i < len l → is_ok (py_index l i) = true.
Proof. intros Hi. by destruct (py_index_ok l i Hi) as (a & -> & _). Qed.

Lemma py_index_last_is_ok {A} (l : list A) :
  0 < len l → is_ok (py_index l (-1)) = true.
Proof.
  intros Hl. destruct (py_index_last_ok l) as (a & ->); [|done].
  intros ->. unfold len in Hl. simpl in Hl. lia.
Qed.

End grid_returns.

Ltac len_lia := unfold Layout.position, len in *; lia.

Ltac returns_with tac :=
  repeat first
    [ tac
    | apply never_raises_on_canvas
    | apply never_raises_guarded; [lia|intros ? ?]
    | apply never_raises_lift_res;
      first [apply py_index_is_ok; len_lia | apply py_index_last_is_ok; len_lia]
    | method_step | progress (cbv zeta) | method_unfold ].

Ltac returns_tac := returns_with fail.

Section grid_returns_methods.
Import Grid.

Lemma never_raises_draw_item_smart index :
  0 <= index → never_raises (_draw_item_smart index).
Proof. intros Hi. unfold _draw_item_smart. returns_tac. Qed.

Lemma never_raises_redraw_reset : never_raises redraw_reset.
Proof. unfold redraw_reset. returns_tac. Qed.

Lemma never_raises_redraw_items start_idx end_idx :
  0 <= start_idx → never_raises (redraw_items start_idx end_idx).
Proof.
  intros Hs. unfold redraw_items.
  returns_with ltac:(apply never_raises_draw_item_smart).
  match goal with H : _ ∈ py_range _ _ |- _ => apply elem_of_py_range in H end. lia.
Qed.

Lemma never_raises_draw_cut_indicator : never_raises _draw_cut_indicator.
Proof. unfold _draw_cut_indicator. returns_tac. Qed.

Lemma never_raises_drag_fan_draw : never_raises drag_fan_draw.
Proof. unfold drag_fan_draw. returns_tac. Qed.

Lemma never_raises_draw_section_headers scroll_y view_height :
  never_raises (_draw_section_headers scroll_y view_height).
Proof. unfold _draw_section_headers. returns_tac. Qed.

Lemma never_raises_draw_empty_state : never_raises _draw_empty_state.
Proof. unfold _draw_empty_state. returns_tac. Qed.

End grid_returns_methods.

(** ** The grid: a redraw returns *)

Section grid_redraw_returns.
Import Grid.

Lemma get_visible_range_bounds L scroll_y view_height :
  0 <= (Layout.get_visible_range L scroll_y view_height).1 ∧
  (Layout.get_visible_range L scroll_y view_height).2 <= len (Layout.positions L).
Proof.
  unfold Layout.get_visible_range. simpl.
  set (step := λ (acc : option Z * option Z) (ip : nat * Layout.position), _).
  assert (∀ ps, let r := foldl step (None, None) (enumerate ps) in
                (∀ s, r.1 = Some s → 0 <= s) ∧ (∀ e, r.2 = Some e → e <= len ps)) as H.
  { induction ps as [|p ps IH] using rev_ind; [done|].
    unfold enumerate in *. rewrite imap_app, foldl_app. simpl.
    destruct IH as [IH1 IH2].
    set (r := foldl step (None, None) (imap (λ i a, (i, a)) ps)) in *.
    unfold step. simpl. unfold len. rewrite length_app. simpl.
    destruct (Layout.visible _ _ _); simpl.
    - split.
      + intros s. destruct r.1 as [s0|] eqn:E; intros [= <-]; [by apply IH1|lia].
      + intros e [= <-]. lia.
    - split; [done|]. intros e He. specialize (IH2 e He). unfold len in IH2. lia. }
  specialize (H (Layout.positions L)). simpl in H. destruct H as [H1 H2].
  destruct (foldl _ _ _).1 as [s|]; destruct (foldl _ _ _).2 as [e|]; simpl.
  all: split; [try lia; by apply H1|try (apply H2; done)]; unfold len; lia.
Qed.

(** When there are items, there are positions: what [_update_layout]
    establishes once [item_sizes] has an entry per item. *)
Definition drawable (g : t) : Prop :=
  0 < item_count (data g) → 0 < len (Layout.positions (layout (data g))).

Definition layout_and_count (g : t) : Layout.t * Z := (layout (data g), item_count (data g)).

Global Instance layout_and_count_blind : RedrawBlind layout_and_count.
Proof. by split. Qed.

Lemma drawable_same g g' : same_on layout_and_count g g' → drawable g → drawable g'.
Proof. unfold same_on, layout_and_count, drawable. intros [= -> ->]. done. Qed.

Lemma returns_draw_drop_indicator : returns_from drawable _draw_drop_indicator.
Proof.
  unfold _draw_drop_indicator. apply returns_from_gets. intros g Hg. unfold id.
  match goal with |- is_ok (?m ?s).2 = true => cut (never_raises m); [intros H; apply H|] end.
  returns_tac.
  apply never_raises_lift_res, py_index_last_is_ok, Hg.
  match goal with H : _ && _ = true |- _ => apply andb_true_iff in H as [_ H] end. lia.
Qed.

Lemma returns_redraw_indicators scroll_y view_height :
  returns_from drawable (redraw_indicators scroll_y view_height).
Proof.
  unfold redraw_indicators.
  apply (returns_from_bind _ (same_on layout_and_count));
    [apply drawable_same|frames_tac|apply returns_from_never; returns_tac|intros g].
  apply (returns_from_bind _ (same_on layout_and_count));
    [apply drawable_same|frames_tac|apply returns_from_never; returns_tac|intros _].
  apply (returns_from_bind _ (same_on layout_and_count));
    [apply drawable_same|frames_tac| |intros _].
  - destruct (_ || _); [apply returns_draw_drop_indicator|by apply returns_from_never].
  - apply returns_from_never. returns_tac.
Qed.

Lemma redraw_returns g : drawable g → (redraw g).2 = Ok ().
Proof.
  intros Hg. apply is_ok_run. revert g Hg. change (returns_from drawable redraw).
  unfold redraw.
  apply (returns_from_bind _ (same_on layout_and_count));
    [apply drawable_same|apply (frames_redraw_reset _)
    |apply returns_from_never, never_raises_redraw_reset|intros _].
  apply returns_from_gets. intros g Hg. unfold id.
  pose proof (get_visible_range_bounds (layout (data g))
                (Canvas.canvasy (canvas g) 0) (Canvas.winfo_height (canvas g))) as [Hs _].
  destruct (Layout.get_visible_range _ _ _) as [start_idx end_idx]. simpl in Hs.
  match goal with |- is_ok (?m g).2 = true =>
    cut (returns_from drawable m); [intros H; by apply H|] end.
  destruct (bool_decide _).
  - apply returns_from_never. returns_tac.
  - apply (returns_from_bind _ (same_on layout_and_count));
      [apply drawable_same|apply (frames_redraw_items _)
      |by apply returns_from_never, never_raises_redraw_items|intros _].
    apply (returns_from_bind _ (same_on layout_and_count));
      [apply drawable_same|apply (frames_redraw_indicators _)
      |apply returns_redraw_indicators|intros _].
    apply returns_from_never. returns_tac.
Qed.

End grid_redraw_returns.

(** ** The grid: layout refresh *)

Section grid_update_layout.
Import Grid.

Lemma layout_items_length ss items : ∀ i Ll,
  length (Layout.positions (Layout.layout_items ss i items Ll).1) =
  (length (Layout.positions Ll.1) + length items)%nat.
Proof.
  induction items as [|wh items IH]; intros i Ll; simpl; [lia|].
  rewrite IH. destruct Ll as [L0 l0].
  unfold Layout.layout_item, Layout.switch_section, Layout.place_item.
  repeat (match goal with
          | |- context [match ?o with Some _ => _ | None => _ end] => destruct o
          | |- context [if ?b then _ else _] => destruct b
          | |- context [Layout.skip_sections ?a ?b ?y ?L] =>
              destruct (skip_sections_frame a b y L) as (_ & _ & _ & -> & _)
          end; simpl); rewrite ?length_app; simpl; lia.
Qed.

Lemma update_length item_sizes cw sections L :
  length (Layout.positions (Layout.update item_sizes cw sections L).1) = length item_sizes.
Proof.
  rewrite update_positions. destruct item_sizes as [|wh items]; [done|].
  rewrite layout_items_length.
  destruct (first_section_spec sections (Layout.section_starts_of sections)
              (Layout.begin_update cw L) eq_refl) as (_ & -> & _). done.
Qed.

Lemma update_layout_returns g :
  Forall (λ s, 0 <= Layout.start_page s) (sections (data g)) →
  (_update_layout g).2 = Ok ().
Proof.
  intros Hsec. unfold _update_layout.
  rewrite (bind_run _ _ g g) by done. cbv zeta.
  rewrite (bind_run _ _ _ ()) by done.
  rewrite (bind_run _ _ _ ()).
  2: { unfold modify, lift_res. simpl. by apply update_ok. }
  apply never_raises_run. returns_tac.
Qed.

Lemma update_layout_layout g :
  layout (data (_update_layout g).1) =
  (Layout.update (item_sizes (data g)) (Canvas.winfo_width (canvas g))
     (sections (data g)) (layout (data g))).1.
Proof.
  unfold _update_layout. unfold_monad. simpl.
  repeat (match goal with
          | |- context [match ?o with Ok _ => _ | Raise _ => _ end] => destruct o
          | |- context [if ?b then _ else _] => destruct b
          end; simpl); done.
Qed.

(** What neither a layout refresh nor a redraw writes: the items, the
    boxes, the modes and the selection. *)
Definition content (g : t) :=
  (item_count (data g), thumbnail_size (data g), item_sizes (data g),
   aspect_ratios (data g), sections (data g), document_boxes (data g),
   box_mode (data g), continuous_mode (data g), sel g).

Global Instance content_blind : RedrawBlind content.
Proof. by split. Qed.

Lemma content_update_layout : frames (same_on content) _update_layout.
Proof. by apply frames_update_layout; [apply _|..]. Qed.

Lemma content_redraw : frames (same_on content) redraw.
Proof. apply frames_redraw, _. Qed.

(** After a layout refresh with one size per item, a redraw returns. *)
Lemma update_layout_drawable g :
  item_count (data g) = len (item_sizes (data g)) →
  drawable (_update_layout g).1.
Proof.
  intros Hn. unfold drawable.
  pose proof (content_update_layout g) as Hsame.
  unfold same_on, content in Hsame. injection Hsame as Hc _ Hs _.
  rewrite update_layout_layout. rewrite Hc, Hn. unfold len. rewrite update_length. done.
Qed.

End grid_update_layout.

(** ** Reordering the selected boxes *)

Section reorder.
Import Grid.

(** The boxes whose index satisfies [keep], in their order in the list. *)
Definition select {A} (keep : Z → Prop) `{!∀ i, Decision (keep i)} (l : list A) : list A :=
  (filter (λ ib, keep (Z.of_nat ib.1)) (enumerate l)).*2.

Lemma enumerate_snoc {A} (l : list A) a :
  enumerate (l ++ [a]) = enumerate l ++ [(length l, a)].
Proof. unfold enumerate. rewrite imap_app. simpl. by rewrite Nat.add_0_r. Qed.

Lemma enumerate_snd {A} (l : list A) : (enumerate l).*2 = l.
Proof.
  induction l as [|a l IH] using rev_ind; [done|].
  rewrite enumerate_snoc, fmap_app, IH. done.
Qed.

Lemma select_snoc {A} keep `{!∀ i, Decision (keep i)} (l : list A) a :
  select keep (l ++ [a]) = select keep l ++ (if decide (keep (len l)) then [a] else []).
Proof.
  unfold select. rewrite enumerate_snoc, filter_app, fmap_app. f_equal.
  rewrite filter_cons, filter_nil. simpl. unfold len. by destruct (decide _).
Qed.

Lemma select_sublist {A} keep `{!∀ i, Decision (keep i)} (l : list A) :
  select keep l `sublist_of` l.
Proof.
  unfold select. rewrite <-(enumerate_snd l) at 2.
  apply fmap_sublist, sublist_filter.
Qed.

Lemma select_complement {A} keep `{!∀ i, Decision (keep i)} (l : list A) :
  select keep l ++ select (λ i, ¬ keep i) l ≡ₚ l.
Proof.
  unfold select. rewrite <-fmap_app. rewrite <-(enumerate_snd l) at 3.
  apply fmap_Permutation.
  apply (filter_app_complement (λ ib : nat * A, keep (Z.of_nat ib.1))).
Qed.

Lemma bind_unless {A B} (Q : A → Prop) `{!∀ x, Decision (Q x)} (f : A → B) (l : list A) :
  l ≫= (λ x, if bool_decide (Q x) then [] else [f x]) = f <$> filter (λ x, ¬ Q x) l.
Proof.
  induction l as [|x l IH]; [done|]. rewrite filter_cons, bind_cons, IH.
  destruct (decide (Q x)) as [HQ|HQ].
  - rewrite bool_decide_true by done. by rewrite decide_False by tauto.
  - rewrite bool_decide_false by done. by rewrite decide_True by done.
Qed.

Lemma py_range_snoc n : 0 <= n → py_range 0 (n + 1) = py_range 0 n ++ [n].
Proof.
  intros Hn. unfold py_range.
  replace (Z.to_nat (n + 1 - 0)) with (S (Z.to_nat (n - 0))) by lia.
  rewrite seq_S, fmap_app. simpl. do 2 f_equal. lia.
Qed.

Lemma py_range_sorted a b : StronglySorted Z.le (py_range a b).
Proof.
  unfold py_range. generalize (Z.to_nat (b - a)). intros n. revert a.
  induction n as [|n IH]; intros a; [constructor|].
  simpl. constructor.
  - rewrite <-fmap_S_seq, <-list_fmap_compose.
    replace (fmap _ (seq 0 n)) with (fmap (λ k, (a + 1) + Z.of_nat k) (seq 0 n)).
    + apply IH.
    + apply list_fmap_ext. intros i k _. simpl. lia.
  - apply Forall_forall. intros x (k & -> & _)%list_elem_of_fmap. lia.
Qed.

Lemma py_range_NoDup a b : NoDup (py_range a b).
Proof.
  unfold py_range.
  assert (Inj (=) (=) (λ k : nat, a + Z.of_nat k)) by (intros x y ?; lia).
  apply (NoDup_fmap_2 _), NoDup_seq.
Qed.

Lemma elem_of_py_range_2 a b i : a <= i < b → i ∈ py_range a b.
Proof.
  intros Hi. unfold py_range. apply list_elem_of_fmap.
  exists (Z.to_nat (i - a)). split; [lia|]. apply elem_of_seq. lia.
Qed.

(** [sorted(s)] lists the members of [s] as they come in [range(n)]. *)
Lemma py_sorted_range (s : gset Z) n :
  (∀ i, i ∈ s → 0 <= i < n) →
  py_sorted s = filter (λ i, i ∈ s) (py_range 0 n).
Proof.
  intros Hs. unfold py_sorted.
  apply (StronglySorted_unique Z.le).
  - apply (StronglySorted_merge_sort _).
  - eapply StronglySorted_sublist; [apply sublist_filter|apply py_range_sorted].
  - rewrite merge_sort_Permutation. apply NoDup_Permutation.
    + apply NoDup_elements.
    + apply NoDup_filter, py_range_NoDup.
    + intros i. rewrite elem_of_elements, list_elem_of_filter. split.
      * intros Hi. split; [done|]. by apply elem_of_py_range_2, Hs.
      * tauto.
Qed.

Lemma boxes_at_app boxes l1 l2 :
  boxes_at boxes (l1 ++ l2) =
  match boxes_at boxes l1, boxes_at boxes l2 with
  | Ok a, Ok b => Ok (a ++ b)
  | Raise e, _ => Raise e
  | Ok _, Raise e => Raise e
  end.
Proof.
  induction l1 as [|i l1 IH]; simpl.
  - by destruct (boxes_at boxes l2).
  - destruct (py_index boxes i); [|done]. rewrite IH.
    by destruct (boxes_at boxes l1), (boxes_at boxes l2).
Qed.

Lemma boxes_at_ext boxes boxes' l :
  (∀ i, i ∈ l → py_index boxes' i = py_index boxes i) →
  boxes_at boxes' l = boxes_at boxes l.
Proof.
  induction l as [|i l IH]; intros H; simpl; [done|].
  rewrite H by left. rewrite IH; [done|]. intros j Hj. apply H. by right.
Qed.

Lemma py_index_snoc {A} (l : list A) a i :
  0 <= i < len l → py_index (l ++ [a]) i = py_index l i.
Proof.
  intros Hi. destruct (py_index_ok l i Hi) as (x & -> & Hx).
  apply py_index_lookup; [lia|]. by apply lookup_app_l_Some.
Qed.

Lemma py_index_snoc_last {A} (l : list A) a : py_index (l ++ [a]) (len l) = Ok a.
Proof.
  apply py_index_lookup; [unfold len; lia|].
  unfold len. rewrite Nat2Z.id. apply list_lookup_middle. done.
Qed.

Lemma boxes_at_select boxes keep `{!∀ i, Decision (keep i)} :
  boxes_at boxes (filter keep (py_range 0 (len boxes))) = Ok (select keep boxes).
Proof.
  induction boxes as [|b boxes IH] using rev_ind; [done|].
  unfold len. rewrite length_app. simpl.
  replace (Z.of_nat (length boxes + 1)) with (len boxes + 1) by (unfold len; lia).
  rewrite py_range_snoc by (unfold len; lia).
  rewrite filter_app, boxes_at_app, select_snoc.
  rewrite (boxes_at_ext boxes).
  2: { intros i [_ Hi%elem_of_py_range]%list_elem_of_filter. by apply py_index_snoc. }
  rewrite IH. rewrite filter_cons, filter_nil.
  destruct (decide (keep (len boxes))); simpl; [|done].
  by rewrite py_index_snoc_last.
Qed.

End reorder.

Section reorder_correct.
Import Grid.

Lemma reorder_refused target g :
  box_mode (data g) = false ∨ selected_indices (sel g) = ∅ →
  reorder_selected_boxes target g = (g, Ok false).
Proof.
  intros H. unfold reorder_selected_boxes. rewrite (bind_run _ _ g g) by done.
  unfold id. destruct H as [-> | ->]; [done|].
  rewrite bool_decide_true by done. by rewrite orb_true_r.
Qed.

(** A layout refresh followed by a redraw, on a grid with one size per
    item: both return, and the content is as before. *)
Lemma refresh_returns {A} (a : A) g :
  item_count (data g) = len (item_sizes (data g)) →
  Forall (λ s, 0 <= Layout.start_page s) (sections (data g)) →
  let r := (_update_layout ≫= λ _, redraw ≫= λ _, mret a) g in
  r.2 = Ok a ∧ content r.1 = content g.
Proof.
  intros Hcount Hsec. cbv zeta.
  rewrite (bind_run _ _ _ ()) by (by apply update_layout_returns).
  pose proof (update_layout_drawable g Hcount) as Hdraw.
  pose proof (content_update_layout g) as Hsame1.
  set (g2 := (_update_layout g).1) in *.
  rewrite (bind_run _ _ _ ()) by (by apply redraw_returns).
  pose proof (content_redraw g2) as Hsame2.
  split; [done|]. unfold same_on in *. simpl. congruence.
Qed.

Lemma reorder_run target g :
  box_mode (data g) = true → selected_indices (sel g) ≠ ∅ →
  (∀ i, i ∈ selected_indices (sel g) → 0 <= i < len (document_boxes (data g))) →
  item_count (data g) = len (item_sizes (data g)) →
  Forall (λ s, 0 <= Layout.start_page s) (sections (data g)) →
  let boxes := document_boxes (data g) in
  let chosen := selected_indices (sel g) in
  let moved := select (λ i, i ∈ chosen) boxes in
  let remaining := select (λ i, i ∉ chosen) boxes in
  let t := Z.max 0 (Z.min target (len boxes)) in
  let k := Z.max 0 (Z.min (t - len (filter (λ i, i < t) (py_sorted chosen)))
                          (len remaining)) in
  (reorder_selected_boxes target g).2 = Ok true ∧
  document_boxes (data (reorder_selected_boxes target g).1) =
    take (Z.to_nat k) remaining ++ moved ++ drop (Z.to_nat k) remaining ∧
  selected_indices (sel (reorder_selected_boxes target g).1) =
    list_to_set (py_range k (k + len moved)).
Proof.
  intros Hmode Hsel Hvalid Hcount Hsec. cbv zeta.
  unfold reorder_selected_boxes. rewrite (bind_run _ _ g g) by done. unfold id.
  rewrite Hmode, bool_decide_false by done.
  change (negb true || false) with false. cbv iota zeta.
  rewrite (py_sorted_range _ (len (document_boxes (data g)))) by done.
  rewrite (bind_run (lift_res _) _ g (select (λ i, i ∈ selected_indices (sel g)) (document_boxes (data g)))).
  2: { unfold lift_res. simpl. apply boxes_at_select. }
  rewrite (bind_unless (λ ib : nat * DocumentBox, Z.of_nat ib.1 ∈ selected_indices (sel g)) snd).
  change ((filter (λ ib : nat * DocumentBox, Z.of_nat ib.1 ∉ selected_indices (sel g))
             (enumerate (document_boxes (data g)))).*2)
    with (select (λ i, i ∉ selected_indices (sel g)) (document_boxes (data g))).
  set (moved := select (λ i, i ∈ selected_indices (sel g)) (document_boxes (data g))).
  set (remaining := select (λ i, i ∉ selected_indices (sel g)) (document_boxes (data g))).
  set (k := Z.max 0 (Z.min _ (len remaining))).
  rewrite (bind_run _ _ _ ()) by done.
  rewrite (bind_run _ _ _ ()) by done.
  rewrite (bind_run _ _ _ ()) by (apply never_raises_run; returns_tac).
  rewrite (bind_run _ _ _ ()) by done.
  set (g1 := (modify (upd_sel _) _).1).
  assert (item_count (data g1) = item_count (data g) ∧
          item_sizes (data g1) = item_sizes (data g) ∧
          sections (data g1) = sections (data g) ∧
          document_boxes (data g1) =
            take (Z.to_nat k) remaining ++ moved ++ drop (Z.to_nat k) remaining ∧
          selected_indices (sel g1) = list_to_set (py_range k (k + len moved)))
    as (Hc1 & Hs1 & Hsec1 & Hb1 & Hsel1) by done.
  clearbody g1.
  destruct (refresh_returns true g1) as [Hr Hsame]; [by rewrite Hc1, Hs1|by rewrite Hsec1|].
  split; [exact Hr|].
  unfold content in Hsame. injection Hsame as _ _ _ _ _ Hb _ _ Hs.
  by rewrite Hb, Hs, Hb1, Hsel1.
Qed.
End reorder_correct.

Lemma clamp_range x n : 0 <= n → 0 <= Z.max 0 (Z.min x n) <= n.
Proof. lia. Qed.

(** Four boxes in the staging area, the first and the third selected. *)
Definition staged_boxes : list Grid.DocumentBox :=
  [ Grid.Build_DocumentBox "a.pdf" Grid.LOADED 3 (Some 100) 1;
    Grid.Build_DocumentBox "b.pdf" Grid.LOADING 0 None (1 # 2);
    Grid.Build_DocumentBox "c.pdf" Grid.FAILED 0 None 0;
    Grid.Build_DocumentBox "d.pdf" Grid.QUEUED 0 None 0 ].

Definition staging_grid : Grid.t :=
  Grid.upd_sel (Grid.set_selected_indices {[0; 2]})
    (Grid.set_box_mode staged_boxes (Grid.init 800 600 true)).1.

(** X1: in box mode with a non-empty selection of valid indices, on a grid
    with one size per item, [reorder_selected_boxes(target)] returns [True];
    the new box list is a permutation of the old one, made of the unmoved
    boxes in their old order with the moved boxes, in their old order,
    inserted in one block at the insertion index computed from the clamped
    target; the selection becomes the range of that block.  Not in box mode,
    or with an empty selection, it returns [False] and changes nothing. *)
Theorem reorder_selected_boxes_correct (g : Grid.t) (target_index : Z) :
  Grid.box_mode (Grid.data g) = true →
  Grid.selected_indices (Grid.sel g) ≠ ∅ →
  (∀ i, i ∈ Grid.selected_indices (Grid.sel g) →
        0 <= i < len (Grid.document_boxes (Grid.data g))) →
  Grid.item_count (Grid.data g) = len (Grid.item_sizes (Grid.data g)) →
  Forall (λ s, 0 <= Layout.start_page s) (Grid.sections (Grid.data g)) →
  let boxes := Grid.document_boxes (Grid.data g) in
  let chosen := Grid.selected_indices (Grid.sel g) in
  let moved := select (λ i, i ∈ chosen) boxes in
  let remaining := select (λ i, i ∉ chosen) boxes in
  let target := Z.max 0 (Z.min target_index (len boxes)) in
  let k := Z.max 0 (Z.min (target - len (filter (λ i, i < target) (py_sorted chosen)))
                          (len remaining)) in
  let r := Grid.reorder_selected_boxes target_index g in
  r.2 = Ok true ∧
  Grid.document_boxes (Grid.data r.1) ≡ₚ boxes ∧
  moved `sublist_of` boxes ∧ remaining `sublist_of` boxes ∧
  Grid.document_boxes (Grid.data r.1) =
    take (Z.to_nat k) remaining ++ moved ++ drop (Z.to_nat k) remaining ∧
  0 <= k <= len remaining ∧
  Grid.selected_indices (Grid.sel r.1) = list_to_set (py_range k (k + len moved)) ∧
  (∀ j, (j < length moved)%nat →
        Grid.document_boxes (Grid.data r.1) !! (Z.to_nat k + j)%nat = moved !! j) ∧
  (∀ g0, Grid.box_mode (Grid.data g0) = false ∨ Grid.selected_indices (Grid.sel g0) = ∅ →
         Grid.reorder_selected_boxes target_index g0 = (g0, Ok false)).
Proof.
  intros Hmode Hsel Hvalid Hcount Hsec. cbv zeta.
  destruct (reorder_run target_index g Hmode Hsel Hvalid Hcount Hsec) as (Hr & Hb & Hs).
  set (boxes := Grid.document_boxes (Grid.data g)) in *.
  set (chosen := Grid.selected_indices (Grid.sel g)) in *.
  set (moved := select (λ i, i ∈ chosen) boxes) in *.
  set (remaining := select (λ i, i ∉ chosen) boxes) in *.
  set (k := Z.max 0 (Z.min _ (len remaining))) in *.
  assert (0 <= k <= len remaining) as Hk by (apply clamp_range; unfold len; lia).
  split_and!; try done; try lia.
  - rewrite Hb.
    rewrite Permutation_app_swap_app, take_drop. apply select_complement.
  - apply select_sublist.
  - apply select_sublist.
  - intros j Hj. rewrite Hb.
    rewrite lookup_app_r by (rewrite length_take; unfold len in *; lia).
    rewrite length_take.
    replace (Z.to_nat k + j - Z.to_nat k `min` length remaining)%nat with j
      by (unfold len in *; lia).
    by apply lookup_app_l.
  - intros g0. apply reorder_refused.
Qed.

Lemma reorder_selected_boxes_correct_witness :
  Grid.box_mode (Grid.data staging_grid) = true ∧
  (Grid.reorder_selected_boxes 4 staging_grid).2 = Ok true.
Proof.
  split; [reflexivity|].
  apply (reorder_selected_boxes_correct staging_grid 4).
  - reflexivity.
  - apply (bool_decide_unpack _). vm_compute. reflexivity.
  - intros i Hi. apply (elem_of_union {[0]} {[2]}) in Hi.
    rewrite !elem_of_singleton in Hi. change (0 <= i < 4). lia.
  - reflexivity.
  - vm_compute. constructor.
Defined.

Example reorder_staged_boxes :
  Grid.name <$> Grid.document_boxes
    (Grid.data (Grid.reorder_selected_boxes 4 staging_grid).1)
  = ["b.pdf"; "d.pdf"; "a.pdf"; "c.pdf"]%string
  ∧ py_sorted (Grid.selected_indices
       (Grid.sel (Grid.reorder_selected_boxes 4 staging_grid).1)) = [2; 3].
Proof. split; vm_compute; reflexivity. Qed.

(** ** Press and release on a selected item *)

Section pending_click.
Import Grid.

Lemma get_item_at_bounds L x y :
  Layout.get_item_at L x y ≠ -1 →
  0 <= Layout.get_item_at L x y < len (Layout.positions L).
Proof.
  unfold Layout.get_item_at.
  destruct (list_find _ _) as [[i p]|] eqn:E; [|done]. intros _.
  apply list_find_Some in E as (Hi & _). apply lookup_lt_Some in Hi.
  unfold len. lia.
Qed.

(** A plain press on the item [index]: no section header under the
    pointer, no cut to make, not on a bracket, and in box mode not on the
    name of a box that can be renamed. *)
Definition plain_click (g : t) (event : Event) (index : Z) : Prop :=
  let cx := Canvas.canvasx (canvas g) (ev_x event) in
  let cy := Canvas.canvasy (canvas g) (ev_y event) in
  (continuous_mode (data g) && negb (box_mode (data g)) = true →
   list_find (λ item_id, is_Some (_header_items (track g) !! item_id))
             (overlapping event) = None) ∧
  Layout.get_item_at (layout (data g)) cx cy = index ∧ index ≠ -1 ∧
  cut_mode (sel g) && bool_decide (is_Some (hover_gap (sel g))) = false ∧
  negb (cut_mode (sel g)) && bool_decide (hover_index (sel g) = index)
    && bool_decide (is_Some (hover_side (sel g))) = false ∧
  (box_mode (data g) = true →
   ∀ x y w h, Layout.positions (layout (data g)) !! Z.to_nat index = Some (x, y, w, h) →
              (y + h - 40 <? cy) && on_box_rename_request (host g) = false).

Lemma on_click_selected g event index :
  plain_click g event index → index ∈ selected_indices (sel g) →
  _on_click event g =
    (upd_drag (set_pending_click (Some index) (Some event))
       (upd_drag (λ d, set_drag_active false
                         (set_drag_start (ev_x event) (ev_y event) d)) g),
     Ok ()).
Proof.
  intros (Hheader & Hat & Hindex & Hcut & Hbracket & Hname) Hsel.
  unfold _on_click. rewrite (bind_run _ _ g g) by done. unfold id. cbv zeta.
  assert ((if continuous_mode (data g) && negb (box_mode (data g))
           then list_find (λ item_id, is_Some (_header_items (track g) !! item_id))
                          (overlapping event)
           else None) = None) as ->.
  { destruct (_ && _); [by apply Hheader|done]. }
  rewrite Hat. rewrite (bind_run _ _ _ ()) by done.
  rewrite Hcut, bool_decide_false by done. rewrite Hbracket.
  change (modify ?f (gets _ g).1).1 with (f g).
  set (g1 := upd_drag _ g).
  rewrite (bind_returns _ _ g1 g1 false).
  { by rewrite bool_decide_true by done. }
  destruct (box_mode (data g)) eqn:Hbox; [|done].
  destruct (position_at_run g1 index) as ([[[x y] w] h] & Hp & Hl).
  { pose proof (get_item_at_bounds (layout (data g))
                  (Canvas.canvasx (canvas g) (ev_x event))
                  (Canvas.canvasy (canvas g) (ev_y event))) as Hb.
    rewrite Hat in Hb. by apply Hb. }
  rewrite (bind_returns _ _ g1 g1 (x, y, w, h) Hp).
  change (on_box_rename_request (host g1)) with (on_box_rename_request (host g)).
  by rewrite (Hname eq_refl x y w h Hl).
Qed.

Lemma on_release_pending g release index event :
  drag_active (drag g) = false →
  pending_click_index (drag g) = Some index →
  pending_click_event (drag g) = Some event →
  _on_release release g =
    (upd_drag (set_pending_click None None)
       (if on_click (host g)
        then upd_host (λ h, set_host_calls (host_calls h ++ [OnClick index event]) h) g
        else g),
     Ok ()).
Proof.
  intros Hdrag Hidx Hev.
  unfold _on_release. rewrite (bind_run _ _ g g) by done. unfold id.
  rewrite Hdrag. rewrite (bind_run _ _ g false) by done.
  rewrite (bind_run _ _ g g) by done. unfold id. rewrite Hidx, Hev. simpl.
  unfold call_if. by destruct (on_click (host g)).
Qed.

End pending_click.

(** Three pages at the default zoom, the host's click handler plugged in,
    the first two pages selected. *)
Definition pages_grid : Grid.t :=
  Grid.upd_sel (Grid.set_selected_indices {[0; 1]})
    (Grid.set_item_count 3 None
       (Grid.upd_host Grid.plug_on_click (Grid.init 800 600 true))).1.

(** A press on the first page, which is at [(0, 0)] and 106 by 150. *)
Definition press_on_first : Grid.Event := Grid.Build_Event 10 10 [].

(** With two pages selected, a press on one of them followed by a release
    without any drag leaves both selected. *)
Example release_keeps_selection :
  Layout.get_item_at (Grid.layout (Grid.data pages_grid)) 10 10 = 0 ∧
  0 ∈ Grid.selected_indices (Grid.sel pages_grid) ∧
  Grid.pending_click_index (Grid.drag (Grid._on_click press_on_first pages_grid).1) = Some 0 ∧
  Grid.drag_active (Grid.drag (Grid._on_click press_on_first pages_grid).1) = false ∧
  Grid.selected_indices
    (Grid.sel (Grid._on_release press_on_first
                 (Grid._on_click press_on_first pages_grid).1).1) ≠ {[0]}.
Proof.
  split_and!.
  - vm_compute. reflexivity.
  - apply (bool_decide_unpack _). vm_compute. reflexivity.
  - vm_compute. reflexivity.
  - vm_compute. reflexivity.
  - apply (bool_decide_unpack _). vm_compute. reflexivity.
Qed.

(** X2: a plain press on an already selected item leaves the
    selection as it is, calls nothing, and records the press as the pending
    click.  A release with no drag started hands the pending click to the
    host's [on_click] handler, when there is one, and clears it; the
    selection is still what it was before the press.  The handler of the
    main window answers with a status line, or a retry of a failed box. *)
Theorem pending_click_resolution (g : Grid.t) (press release : Grid.Event) (index : Z) :
  plain_click g press index →
  index ∈ Grid.selected_indices (Grid.sel g) →
  let pressed := Grid._on_click press g in
  pressed.2 = Ok () ∧
  Grid.sel pressed.1 = Grid.sel g ∧
  Grid.host pressed.1 = Grid.host g ∧
  Grid.drag_active (Grid.drag pressed.1) = false ∧
  Grid.pending_click_index (Grid.drag pressed.1) = Some index ∧
  Grid.pending_click_event (Grid.drag pressed.1) = Some press ∧
  let released := Grid._on_release release pressed.1 in
  released.2 = Ok () ∧
  Grid.sel released.1 = Grid.sel g ∧
  Grid.pending_click_index (Grid.drag released.1) = None ∧
  Grid.host_calls (Grid.host released.1) =
    Grid.host_calls (Grid.host g) ++
    (if Grid.on_click (Grid.host g) then [Grid.OnClick index press] else []) ∧
  (Grid.box_mode (Grid.data g) = false →
   MainWindow._on_thumbnail_click released.1 index = MainWindow.StatusPageSelected (index + 1)).
Proof.
  intros Hplain Hsel. cbv zeta.
  rewrite (on_click_selected g press index Hplain Hsel). cbn [fst snd].
  set (g1 := Grid.upd_drag _ (Grid.upd_drag _ g)).
  rewrite (on_release_pending g1 release index press) by done. cbn [fst snd].
  change (Grid.on_click (Grid.host g1)) with (Grid.on_click (Grid.host g)).
  split_and!; try done.
  - by destruct (Grid.on_click (Grid.host g)).
  - destruct (Grid.on_click (Grid.host g)); [done|]. simpl. symmetry. apply app_nil_r.
  - intros Hbox. unfold MainWindow._on_thumbnail_click.
    destruct Hplain as (_ & _ & Hindex & _).
    rewrite bool_decide_false by done.
    replace (Grid.box_mode (Grid.data _)) with (Grid.box_mode (Grid.data g)); [by rewrite Hbox|].
    by destruct (Grid.on_click (Grid.host g)).
Qed.

Lemma pending_click_resolution_witness :
  plain_click pages_grid press_on_first 0 ∧
  0 ∈ Grid.selected_indices (Grid.sel pages_grid) ∧
  Grid.sel (Grid._on_release press_on_first
              (Grid._on_click press_on_first pages_grid).1).1 = Grid.sel pages_grid.
Proof.
  assert (plain_click pages_grid press_on_first 0) as Hplain.
  { unfold plain_click. split_and!.
    - intros _. reflexivity.
    - vm_compute. reflexivity.
    - discriminate.
    - vm_compute. reflexivity.
    - vm_compute. reflexivity.
    - vm_compute. discriminate. }
  assert (0 ∈ Grid.selected_indices (Grid.sel pages_grid)) as Hsel.
  { apply (bool_decide_unpack _). vm_compute. reflexivity. }
  split_and!; [exact Hplain|exact Hsel|].
  apply (pending_click_resolution pages_grid press_on_first press_on_first 0 Hplain Hsel).
Defined.

(** ** The image cache across zoom levels *)

Section zoom.
Import Grid.

(** The image cached for [index] at the zoom level [size], if any. *)
Definition level_get (g : t) (size index : Z) : option PhotoImage :=
  default ∅ (od_get (images_cache (render g)) size) !! index.

(** Between two states of one zoom level: no cached image came or went, and
    the renders submitted in between are renders at that level of items
    that had no image at it; they are the items that became pending. *)
Definition submits (g g' : t) : Prop :=
  thumbnail_size (data g') = thumbnail_size (data g) ∧
  (∀ size index, level_get g' size index = level_get g size index) ∧
  ∃ new, submitted (render g') = submitted (render g) ++ new ∧
         _pending_renders (render g') = _pending_renders (render g) ∪ list_to_set new.*1 ∧
         Forall (λ request : Z * Z,
                   request.2 = thumbnail_size (data g) ∧
                   level_get g request.2 request.1 = None) new.

Lemma submits_same g g' :
  thumbnail_size (data g') = thumbnail_size (data g) →
  images_cache (render g') = images_cache (render g) →
  submitted (render g') = submitted (render g) →
  _pending_renders (render g') = _pending_renders (render g) →
  submits g g'.
Proof.
  intros Hs Hc Hsub Hp. split_and!; [done| |].
  - intros size index. unfold level_get. by rewrite Hc.
  - exists []. rewrite app_nil_r. split_and!; [done| |constructor].
    rewrite Hp. simpl. by rewrite (right_id_L ∅ (∪)).
Qed.

Global Instance submits_preorder : PreOrder submits.
Proof.
  split.
  - intros g. by apply submits_same.
  - intros g1 g2 g3 (Hs12 & Hc12 & new12 & Hsub12 & Hp12 & Hnew12)
                    (Hs23 & Hc23 & new23 & Hsub23 & Hp23 & Hnew23).
    split_and!.
    + congruence.
    + intros size index. by rewrite Hc23, Hc12.
    + exists (new12 ++ new23). split_and!.
      * by rewrite Hsub23, Hsub12, (assoc_L (++)).
      * rewrite Hp23, Hp12, fmap_app, list_to_set_app_L. by rewrite (assoc_L (∪)).
      * apply Forall_app. split; [done|].
        eapply Forall_impl; [exact Hnew23|]. simpl. intros request [H1 H2].
        rewrite <-Hs12. split; [done|]. by rewrite <-Hc12.
Qed.

Lemma od_get_od_set {K V} `{EqDecision K} (d : odict K V) k v k' :
  od_get (od_set d k v) k' = if decide (k' = k) then Some v else od_get d k'.
Proof.
  induction d as [|[k0 v0] d IH]; simpl.
  - done.
  - destruct (decide (k = k0)) as [->|Hk]; simpl.
    + destruct (decide (k' = k0)); done.
    + rewrite IH. destruct (decide (k' = k0)) as [->|]; [|done].
      by rewrite decide_False by done.
Qed.

(** Reading [self.images] may add the empty dict of the current level. *)
Lemma images_run g :
  ∃ g', images g = (g', Ok (default ∅ (od_get (images_cache (render g)) (thumbnail_size (data g))))) ∧
        submits g g' ∧
        submitted (render g') = submitted (render g) ∧
        _pending_renders (render g') = _pending_renders (render g).
Proof.
  unfold images. rewrite (bind_run _ _ g g) by done. unfold id.
  destruct (od_get _ _) as [level|] eqn:E; simpl.
  - exists g. split_and!; done.
  - eexists. split; [reflexivity|]. split_and!; [|done..].
    split_and!; [done| |].
    + intros size index. unfold level_get. simpl. rewrite od_get_od_set.
      destruct (decide _) as [->|]; [|done]. by rewrite E.
    + exists []. simpl. rewrite app_nil_r. split_and!; [done| |constructor].
      by rewrite (right_id_L ∅ (∪)).
Qed.

Lemma submits_request index : frames submits (request_render index).
Proof.
  intros g. unfold request_render. rewrite (bind_run _ _ g g) by done. unfold id.
  destruct (bool_decide (index ∈ _pending_renders (render g))) eqn:Hpending; [done|].
  unfold _render_page_async. rewrite (bind_run _ _ g g) by done. unfold id.
  rewrite Hpending.
  destruct (images_run g) as (g' & Hrun & Hsub & Hsame & Hp).
  rewrite (bind_returns _ _ g g' _ Hrun).
  destruct (bool_decide (is_Some _)) eqn:Hcached; [done|].
  apply bool_decide_eq_false in Hcached.
  etrans; [exact Hsub|].
  destruct Hsub as (Hs & Hc & _).
  split_and!; [done|done|].
  exists [(index, thumbnail_size (data g))]. simpl. split_and!.
  - done.
  - by rewrite (right_id_L ∅ (∪)), (comm_L (∪)).
  - constructor; [|constructor]. simpl. split; [done|].
    rewrite Hc. unfold level_get. by apply eq_None_not_Some.
Qed.

Global Instance submits_frame : RedrawFrame submits.
Proof.
  split; try apply _.
  - intros f g. by apply submits_same.
  - intros f g. by apply submits_same.
  - intros f g. by apply submits_same.
  - intros f g. by apply submits_same.
  - intros g. destruct (images_run g) as (g' & -> & H & _). exact H.
  - apply submits_request.
Qed.

Lemma submits_update_layout : frames submits _update_layout.
Proof. apply frames_update_layout; [apply _|..]; intros; by apply submits_same. Qed.

(** What a zoom switch does to the render pipeline: the pending set is
    emptied first, no cached image of any level comes or goes, and the
    renders submitted are renders at the new size of items with no image at
    that size. *)
Lemma set_thumbnail_size_submits size g :
  let g' := (set_thumbnail_size size g).1 in
  thumbnail_size (data g') = size ∧
  (∀ level index, level_get g' level index = level_get g level index) ∧
  ∃ new, submitted (render g') = submitted (render g) ++ new ∧
         _pending_renders (render g') = list_to_set new.*1 ∧
         Forall (λ request : Z * Z,
                   request.2 = size ∧ level_get g size request.1 = None) new.
Proof.
  cbv zeta. unfold set_thumbnail_size.
  do 5 (rewrite (bind_run (modify _) _ _ ()) by done).
  set (ga := (modify _ _).1).
  assert (thumbnail_size (data ga) = size ∧
          images_cache (render ga) = images_cache (render g) ∧
          submitted (render ga) = submitted (render g) ∧
          _pending_renders (render ga) = ∅) as (Hsize & Hcache & Hsub & Hpending) by done.
  clearbody ga.
  match goal with |- context [(?m ga).1] => assert (submits ga (m ga).1) as Hrest end.
  { apply (frames_bind submits); [apply frames_clear_all_drawn_items, _|intros _].
    apply (frames_bind submits); [apply submits_update_layout|intros _].
    apply (frames_bind submits); [apply frames_redraw, _|intros _].
    apply (frames_modify submits). intros g0. by apply submits_same. }
  destruct Hrest as (Hs & Hc & new & Hnew & Hp & Hall).
  split_and!.
  - by rewrite Hs.
  - intros level index. rewrite Hc. unfold level_get. by rewrite Hcache.
  - exists new. split_and!.
    + by rewrite Hnew, Hsub.
    + by rewrite Hp, Hpending, (left_id_L ∅ (∪)).
    + eapply Forall_impl; [exact Hall|]. simpl. intros request [H1 H2].
      split; [congruence|]. rewrite <-Hsize, <-H1.
      revert H2. unfold level_get. by rewrite Hcache.
Qed.

(** A layout refresh then a redraw, whatever comes next: both return, and
    the content is as before. *)
Lemma refresh_run g :
  item_count (data g) = len (item_sizes (data g)) →
  Forall (λ s, 0 <= Layout.start_page s) (sections (data g)) →
  ∃ g', content g' = content g ∧
        ∀ B (k : () → M t B), (_update_layout ≫= λ _, redraw ≫= k) g = k () g'.
Proof.
  intros Hcount Hsec. exists (redraw (_update_layout g).1).1. split.
  - pose proof (content_update_layout g) as H1.
    pose proof (content_redraw (_update_layout g).1) as H2.
    unfold same_on in *. congruence.
  - intros B k.
    rewrite (bind_run _ _ _ ()) by (by apply update_layout_returns).
    rewrite (bind_run _ _ _ ()); [done|].
    by apply redraw_returns, update_layout_drawable.
Qed.

Lemma set_thumbnail_size_returns size g :
  item_count (data g) = len (aspect_ratios (data g)) →
  Forall (λ s, 0 <= Layout.start_page s) (sections (data g)) →
  let r := set_thumbnail_size size g in
  r.2 = Ok () ∧
  item_count (data r.1) = item_count (data g) ∧
  aspect_ratios (data r.1) = aspect_ratios (data g) ∧
  sections (data r.1) = sections (data g) ∧
  item_sizes (data r.1) =
    (λ aspect_ratio, (py_round (inject_Z size * aspect_ratio), size)) <$> aspect_ratios (data g).
Proof.
  intros Hcount Hsec. cbv zeta. unfold set_thumbnail_size.
  do 5 (rewrite (bind_run (modify _) _ _ ()) by done).
  rewrite (bind_run _ _ _ ()) by (apply never_raises_run; returns_tac).
  set (ga := (_clear_all_drawn_items _).1).
  assert (item_count (data ga) = item_count (data g) ∧
          aspect_ratios (data ga) = aspect_ratios (data g) ∧
          sections (data ga) = sections (data g) ∧
          item_sizes (data ga) =
            (λ aspect_ratio, (py_round (inject_Z size * aspect_ratio), size))
              <$> aspect_ratios (data g)) as (Hc & Ha & Hs & Hi) by done.
  clearbody ga.
  destruct (refresh_run ga) as (g' & Hcontent & Hrun).
  { rewrite Hc, Hi, Hcount. unfold len. by rewrite length_fmap. }
  { by rewrite Hs. }
  rewrite Hrun. simpl. unfold content in Hcontent.
  injection Hcontent as Hc' _ Hi' Ha' Hs' _ _ _ _.
  rewrite Hc', Ha', Hs', Hi'. done.
Qed.

End zoom.

Lemma get_image_level g index :
  Grid._get_image g index = level_get g (Grid.thumbnail_size (Grid.data g)) index.
Proof. reflexivity. Qed.

(** Three pages, the first of which has been rendered at the default zoom of
    150: its render task ran and its completion was delivered. *)
Definition rendered_grid : Grid.t :=
  let g := (Grid.set_item_count 3 None
              (Grid.upd_host Grid.plug_on_request_image (Grid.init 800 600 true))).1 in
  let pil_img := {| pil_id := 7; pil_width := 106; pil_height := 150 |} in
  (Grid._on_render_complete 0 pil_img
     (Grid.render_task 0 150 (Ok (Some pil_img)) g).1).1.

(** X3: zooming away and back: an image cached at a zoom level is still the one
    served at that level after a switch to another level and back, both
    switches return, and the switch back submits no render for the item. *)
Theorem zoom_round_trip (g : Grid.t) (size other index : Z) (img : PhotoImage) :
  level_get g size index = Some img →
  Grid.item_count (Grid.data g) = len (Grid.aspect_ratios (Grid.data g)) →
  Forall (λ s, 0 <= Layout.start_page s) (Grid.sections (Grid.data g)) →
  let away := Grid.set_thumbnail_size other g in
  let back := Grid.set_thumbnail_size size away.1 in
  away.2 = Ok () ∧ back.2 = Ok () ∧
  Grid.thumbnail_size (Grid.data back.1) = size ∧
  Grid._get_image back.1 index = Some img ∧
  ∃ new, Grid.submitted (Grid.render back.1) = Grid.submitted (Grid.render away.1) ++ new ∧
         index ∉ new.*1.
Proof.
  intros Hcached Hcount Hsec. cbv zeta.
  destruct (set_thumbnail_size_returns other g Hcount Hsec) as (Hr1 & Hc1 & Ha1 & Hs1 & _).
  destruct (set_thumbnail_size_submits other g) as (_ & Hl1 & _).
  destruct (set_thumbnail_size_returns size (Grid.set_thumbnail_size other g).1)
    as (Hr2 & _); [by rewrite Hc1, Ha1|by rewrite Hs1|].
  destruct (set_thumbnail_size_submits size (Grid.set_thumbnail_size other g).1)
    as (Hsize & Hl2 & new & Hnew & _ & Hall).
  split_and!; [exact Hr1|exact Hr2|exact Hsize| |].
  - rewrite get_image_level, Hsize, Hl2, Hl1. exact Hcached.
  - exists new. split; [exact Hnew|].
    intros ([i s] & Hi & Hin)%list_elem_of_fmap.
    rewrite Forall_forall in Hall. destruct (Hall _ Hin) as [_ Hnone].
    rewrite Hl1, <-Hi, Hcached in Hnone. discriminate.
Qed.

Lemma zoom_round_trip_witness :
  level_get rendered_grid 150 0 = Some (Photo {| pil_id := 7; pil_width := 106; pil_height := 150 |}) ∧
  Grid._get_image
    (Grid.set_thumbnail_size 150 (Grid.set_thumbnail_size 300 rendered_grid).1).1 0
  = Some (Photo {| pil_id := 7; pil_width := 106; pil_height := 150 |}).
Proof.
  assert (level_get rendered_grid 150 0
          = Some (Photo {| pil_id := 7; pil_width := 106; pil_height := 150 |})) as Hcached
    by (vm_compute; reflexivity).
  split; [exact Hcached|].
  apply (zoom_round_trip rendered_grid 150 300 0 _ Hcached).
  - vm_compute. reflexivity.
  - vm_compute. constructor.
Defined.

(** ** Hit testing and the visible range *)

Section layout_queries.

(** A point lies on a cell, borders included. *)
Definition holds (x y : Z) (p : Layout.position) : Prop :=
  p.1.1.1 <= x ∧ x <= p.1.1.1 + p.1.2 ∧ p.1.1.2 <= y ∧ y <= p.1.1.2 + p.2.

Global Instance holds_dec x y p : Decision (holds x y p).
Proof. unfold holds. apply _. Defined.

Lemma get_item_at_find L x y :
  Layout.get_item_at L x y =
  match list_find (holds x y) (Layout.positions L) with
  | Some (i, _) => Z.of_nat i
  | None => -1
  end.
Proof.
  unfold Layout.get_item_at.
  assert (list_find (λ p : Layout.position,
            let '(px, py, pw, ph) := p in px <= x ∧ x <= px + pw ∧ py <= y ∧ y <= py + ph)
            (Layout.positions L) = list_find (holds x y) (Layout.positions L)) as ->; [|done].
  induction (Layout.positions L) as [|[[[px py] pw] ph] ps IH]; [done|].
  simpl. unfold holds at 1. simpl.
  repeat (case_decide; try tauto); simpl; by rewrite ?IH.
Qed.

(** X4: [get_item_at] answers with the index of the first item whose
    cell, borders included, holds the point, and with [-1] when no cell
    does. *)
Theorem get_item_at_first (L : Layout.t) (x y : Z) :
  let r := Layout.get_item_at L x y in
  (r = -1 ∧ Forall (λ p, ¬ holds x y p) (Layout.positions L)) ∨
  (∃ p, 0 <= r ∧ Layout.positions L !! Z.to_nat r = Some p ∧ holds x y p ∧
        ∀ j q, (j < Z.to_nat r)%nat → Layout.positions L !! j = Some q → ¬ holds x y q).
Proof.
  cbv zeta. rewrite get_item_at_find.
  destruct (list_find _ _) as [[i p]|] eqn:E.
  - right. apply list_find_Some in E as (Hi & Hp & Hfirst).
    exists p. rewrite Nat2Z.id. split_and!; [lia|done|done|].
    intros j q Hj Hq. by eapply Hfirst.
  - left. split; [done|]. by apply list_find_None in E.
Qed.

(** The loop of [get_visible_range]. *)
Lemma visible_range_fold scroll_y view_height (ps : list Layout.position) :
  let r := foldl (λ (acc : option Z * option Z) (ip : nat * Layout.position),
                    if Layout.visible scroll_y view_height ip.2 then
                      (match acc.1 with
                       | None => Some (Z.of_nat ip.1)
                       | Some s => Some s
                       end, Some (Z.of_nat ip.1 + 1))
                    else acc)
             (None, None) (enumerate ps) in
  match r with
  | (None, None) => Forall (λ p, Layout.visible scroll_y view_height p = false) ps
  | (Some s, Some e) =>
      0 <= s ∧ s < e ∧ e <= len ps ∧
      (∃ p, ps !! Z.to_nat s = Some p ∧ Layout.visible scroll_y view_height p = true) ∧
      (∃ p, ps !! Z.to_nat (e - 1) = Some p ∧ Layout.visible scroll_y view_height p = true) ∧
      (∀ i p, ps !! i = Some p → Layout.visible scroll_y view_height p = true →
              s <= Z.of_nat i < e)
  | _ => False
  end.
Proof.
  cbv zeta. induction ps as [|p ps IH] using rev_ind; [constructor|].
  rewrite enumerate_snoc, foldl_app. simpl.
  destruct (foldl _ _ (enumerate ps)) as [[s|] [e|]]; simpl in *; try done.
  - destruct IH as (Hs & Hse & He & (ps_ & Hps & Hvs) & (pe & Hpe & Hve) & Hall).
    unfold len in *. rewrite length_app. simpl.
    destruct (Layout.visible scroll_y view_height p) eqn:Hv.
    + split_and!; try lia.
      * exists ps_. split; [|done]. apply lookup_app_l_Some. done.
      * exists p. split; [|done].
        replace (Z.to_nat (Z.of_nat (length ps) + 1 - 1)) with (length ps) by lia.
        by apply list_lookup_middle.
      * intros i q Hq Hvq. apply lookup_app_Some in Hq as [Hq|[Hi Hq]].
        -- specialize (Hall i q Hq Hvq). lia.
        -- apply lookup_lt_Some in Hq as Hlt. simpl in Hlt.
           specialize (Hall 0%nat). lia.
    + split_and!; try lia.
      * exists ps_. split; [|done]. by apply lookup_app_l_Some.
      * exists pe. split; [|done]. by apply lookup_app_l_Some.
      * intros i q Hq Hvq. apply lookup_app_Some in Hq as [Hq|[Hi Hq]].
        -- by apply (Hall i q).
        -- destruct (i - length ps)%nat as [|n] eqn:En; [|done].
           simpl in Hq. injection Hq as <-. congruence.
  - unfold len. rewrite length_app. simpl.
    destruct (Layout.visible scroll_y view_height p) eqn:Hv.
    + split_and!; try lia.
      * exists p. split; [|done]. rewrite Nat2Z.id. by apply list_lookup_middle.
      * exists p. split; [|done].
        replace (Z.to_nat (Z.of_nat (length ps) + 1 - 1)) with (length ps) by lia.
        by apply list_lookup_middle.
      * intros i q Hq Hvq. apply lookup_app_Some in Hq as [Hq|[Hi Hq]].
        -- rewrite Forall_forall in IH. apply list_elem_of_lookup_2 in Hq.
           specialize (IH q Hq). congruence.
        -- apply lookup_lt_Some in Hq as Hlt. simpl in Hlt. lia.
    + apply Forall_app. split; [done|]. by repeat constructor.
Qed.

(** X5: [get_visible_range] answers with the index of the first visible
    item and one past the index of the last one: the range lies within the
    items, every visible item lies in it and its two ends are visible
    items; with nothing visible the range is [(0, 0)]. *)
Theorem get_visible_range_spec (L : Layout.t) (scroll_y view_height : Z) :
  let visible := Layout.visible scroll_y view_height in
  let r := Layout.get_visible_range L scroll_y view_height in
  0 <= r.1 ∧ r.1 <= r.2 ∧ r.2 <= len (Layout.positions L) ∧
  (∀ i p, Layout.positions L !! i = Some p → visible p = true → r.1 <= Z.of_nat i < r.2) ∧
  (r.1 < r.2 →
   (∃ p, Layout.positions L !! Z.to_nat r.1 = Some p ∧ visible p = true) ∧
   (∃ p, Layout.positions L !! Z.to_nat (r.2 - 1) = Some p ∧ visible p = true)) ∧
  (Forall (λ p, visible p = false) (Layout.positions L) → r = (0, 0)).
Proof.
  cbv zeta. unfold Layout.get_visible_range.
  pose proof (visible_range_fold scroll_y view_height (Layout.positions L)) as H.
  cbv zeta in H.
  destruct (foldl _ _ _) as [[s|] [e|]]; simpl in *; try done.
  - destruct H as (Hs & Hse & He & Hfirst & Hlast & Hall).
    split_and!; try done; try lia.
    intros Hnone. destruct Hfirst as (p & Hp & Hv).
    rewrite Forall_forall in Hnone. apply list_elem_of_lookup_2 in Hp.
    specialize (Hnone p Hp). congruence.
  - split_and!; try done; try lia; try (unfold len; lia).
    intros i p Hp Hv. rewrite Forall_forall in H. apply list_elem_of_lookup_2 in Hp.
    specialize (H p Hp). congruence.
Qed.

End layout_queries.

(** ** Cache keys *)

Section cache_keys.

(** The character [:]. *)
Definition colon : Ascii.ascii :=
  match ":"%string with
  | String c _ => c
  | EmptyString => Ascii.zero
  end.

Fixpoint colon_free (s : string) : Prop :=
  match s with
  | EmptyString => True
  | String c s' => c ≠ colon ∧ colon_free s'
  end.

Lemma append_cons c (a b : string) : String c a +:+ b = String c (a +:+ b).
Proof. reflexivity. Qed.

Lemma append_nil (b : string) : "" +:+ b = b.
Proof. reflexivity. Qed.

Lemma colon_free_app a b : colon_free (a +:+ b) ↔ colon_free a ∧ colon_free b.
Proof.
  induction a as [|c a IH]; [rewrite append_nil; simpl; tauto|].
  rewrite append_cons. simpl. rewrite IH. tauto.
Qed.

Lemma string_app_assoc (a b c : string) : (a +:+ b) +:+ c = a +:+ (b +:+ c).
Proof.
  induction a as [|x a IH]; [done|].
  rewrite !append_cons. f_equal. exact IH.
Qed.

(** A string is cut in one way only at its last colon. *)
Lemma app_colon_inj a a' b b' :
  colon_free b → colon_free b' →
  a +:+ ":" +:+ b = a' +:+ ":" +:+ b' → a = a' ∧ b = b'.
Proof.
  intros Hb Hb'. revert a'. induction a as [|c a IH]; intros [|c' a'];
    rewrite ?append_nil, ?append_cons, ?append_nil.
  - by intros [= ->].
  - intros [= <- ->]. apply colon_free_app in Hb as [_ [Hb _]]. done.
  - intros [= -> <-]. apply colon_free_app in Hb' as [_ [Hb' _]]. done.
  - intros [= -> H]. destruct (IH a' H) as [-> ->]. done.
Qed.

Lemma pretty_N_char_colon_free x : pretty_N_char x ≠ colon.
Proof. unfold pretty_N_char. by repeat case_match. Qed.

Lemma pretty_N_go_colon_free x s : colon_free s → colon_free (pretty_N_go x s).
Proof.
  revert s. induction (N.lt_wf_0 x) as [x _ IH]; intros s Hs.
  assert (x = 0 ∨ 0 < x)%N as [->|Hx] by lia.
  - by rewrite pretty_N_go_0.
  - rewrite pretty_N_go_step by done. apply IH.
    + by apply N.div_lt.
    + split; [apply pretty_N_char_colon_free|done].
Qed.

Lemma pretty_Z_colon_free (z : Z) : colon_free (pretty z).
Proof.
  assert (∀ n : N, colon_free (pretty n)) as HN.
  { intros n. unfold pretty, pretty_N. case_decide; [by split|].
    by apply pretty_N_go_colon_free. }
  destruct z as [|p|p]; unfold pretty, pretty_Z.
  - by split.
  - apply HN.
  - split; [done|]. apply HN.
Qed.

(** X6: the keys of two different (path, page, dpi) triples are different,
    whatever the path holds: the page and the dpi are the last two fields. *)
Theorem make_key_inj (pdf_path pdf_path' : string) (page_num page_num' dpi dpi' : Z) :
  PageCache._make_key pdf_path page_num dpi = PageCache._make_key pdf_path' page_num' dpi' →
  pdf_path = pdf_path' ∧ page_num = page_num' ∧ dpi = dpi'.
Proof.
  assert (∀ p n d, PageCache._make_key p n d
                   = (p +:+ ":" +:+ pretty n) +:+ ":" +:+ pretty d) as Hkey.
  { intros p n d. unfold PageCache._make_key.
    by rewrite string_app_assoc, append_cons, append_nil. }
  rewrite !Hkey. intros H.
  apply app_colon_inj in H as [H ->%(inj pretty)]; [|apply pretty_Z_colon_free..].
  apply app_colon_inj in H as [-> ->%(inj pretty)]; [|apply pretty_Z_colon_free..].
  done.
Qed.

Lemma make_key_inj_witness :
  "a.pdf"%string = "a.pdf"%string ∧ 3 = 3 ∧ 72 = 72.
Proof. apply (make_key_inj "a.pdf" "a.pdf" 3 3 72 72). reflexivity. Defined.

End cache_keys.

(** ** Storing, fetching and dropping a document *)

Section cache_round_trip.
Import PageCache.

(** [put] then [get]. *)
Lemma put_key_lookup c key img :
  consistent c → 0 < max_size c →
  (put_key c key img).2 = Ok () ∧
  _cache (put_key c key img).1 !! key = Some img ∧
  ∀ k, k ≠ key →
    _cache (put_key c key img).1 !! k =
      if bool_decide (_cache c !! key = None ∧
                      max_size c <= Z.of_nat (size (_cache c)) ∧
                      head (_access_order c) = Some k)
      then None else _cache c !! k.
Proof.
  intros Hc Hpos. pose proof (consistent_size c Hc) as Hsz.
  destruct (_cache c !! key) as [old|] eqn:Hk.
  - destruct (put_key_present c key img old Hc Hk) as (l & _ & ->). cbn [fst snd _cache].
    split_and!; [done|by rewrite lookup_insert_eq|].
    intros k Hne. rewrite lookup_insert_ne by done.
    rewrite bool_decide_eq_false_2; [done|]. by intros [? _].
  - destruct (decide (max_size c <= Z.of_nat (size (_cache c)))) as [Hfull|Hroom].
    + destruct (_access_order c) as [|oldest rest] eqn:Ho; [simpl in Hsz; lia|].
      rewrite (put_key_full c key img oldest rest) by done. cbn [fst snd _cache].
      split_and!; [done|by rewrite lookup_insert_eq|].
      intros k Hne. rewrite lookup_insert_ne by done.
      destruct (decide (oldest = k)) as [->|Hne'].
      * rewrite lookup_delete_eq. by rewrite bool_decide_eq_true_2.
      * rewrite lookup_delete_ne by done.
        rewrite bool_decide_eq_false_2; [done|]. intros (_ & _ & [=]). done.
    + rewrite put_key_room by (done || lia). cbn [fst snd _cache].
      split_and!; [done|by rewrite lookup_insert_eq|].
      intros k Hne. rewrite lookup_insert_ne by done.
      rewrite bool_decide_eq_false_2; [done|]. intros (_ & ? & _). done.
Qed.

Lemma consistent_insert_end n (m : gmap string Image) l key img :
  NoDup l → key ∉ l → (∀ k, k ≠ key → k ∈ l ↔ is_Some (m !! k)) →
  consistent (mk n (<[key := img]> m) (l ++ [key])).
Proof.
  intros Hnd Hkey Hiff. split; simpl.
  - apply NoDup_app. split_and!; [done| |apply NoDup_singleton].
    intros x Hx ->%list_elem_of_singleton. done.
  - intros k. rewrite elem_of_app, list_elem_of_singleton, lookup_insert_is_Some.
    destruct (decide (k = key)) as [->|Hne]; [intuition congruence|].
    rewrite Hiff by done. intuition congruence.
Qed.

Lemma put_key_consistent c key img :
  consistent c → 0 < max_size c → consistent (put_key c key img).1.
Proof.
  intros Hc Hpos. pose proof (consistent_size c Hc) as Hsz.
  pose proof Hc as [Hnd Hiff].
  destruct (_cache c !! key) as [old|] eqn:Hk.
  - destruct (put_key_present c key img old Hc Hk) as (l & Hl & ->).
    destruct (py_remove_elem_of key _ l Hnd Hl) as (Hndl & Hnot & Hmem).
    apply consistent_insert_end; [done..|].
    intros k Hne. rewrite <-Hiff, Hmem. intuition congruence.
  - assert (key ∉ _access_order c) as Hnot.
    { rewrite Hiff, Hk. by intros ?%is_Some_None. }
    destruct (decide (max_size c <= Z.of_nat (size (_cache c)))) as [Hfull|Hroom].
    + destruct (_access_order c) as [|oldest rest] eqn:Ho; [simpl in Hsz; lia|].
      rewrite (put_key_full c key img oldest rest) by done.
      apply NoDup_cons in Hnd as [Hold Hnd].
      apply not_elem_of_cons in Hnot as [? ?].
      apply consistent_insert_end; [done..|].
      intros k Hne. rewrite lookup_delete_is_Some, <-Hiff, elem_of_cons.
      split; [|intuition congruence]. intros Hin. split; [|by right]. by intros <-.
    + rewrite put_key_room by (done || lia).
      apply consistent_insert_end; [done..|]. intros k _. apply Hiff.
Qed.

Definition evicts (c : t) (pdf_path : string) (page_num dpi : Z) (key : string) : Prop :=
  _cache c !! _make_key pdf_path page_num dpi = None ∧
  max_size c <= Z.of_nat (size (_cache c)) ∧
  head (_access_order c) = Some key.

Global Instance evicts_dec c p n d key : Decision (evicts c p n d key).
Proof. unfold evicts. apply _. Defined.

(** X7: on a cache whose dict and access list agree, with room for one
    image at least, [put] returns, a [get] of the same page and dpi then
    answers with the image put, and a [get] of any other page, dpi or
    document answers as it would have before the [put], unless the [put]
    was of a key not stored, the cache was full and the other key was the
    head of the access list: then it is a miss. *)
Theorem put_then_get (c : t) (pdf_path : string) (page_num dpi : Z) (image : Image)
    (pdf_path' : string) (page_num' dpi' : Z) :
  consistent c → 0 < max_size c →
  let c1 := (put c pdf_path page_num dpi image).1 in
  (put c pdf_path page_num dpi image).2 = Ok () ∧
  (get c1 pdf_path page_num dpi).2 = Ok (Some image) ∧
  ((pdf_path', page_num', dpi') ≠ (pdf_path, page_num, dpi) →
   (get c1 pdf_path' page_num' dpi').2 =
     if bool_decide (evicts c pdf_path page_num dpi (_make_key pdf_path' page_num' dpi'))
     then Ok None else (get c pdf_path' page_num' dpi').2).
Proof.
  intros Hc Hpos c1. unfold put, get in *.
  destruct (put_key_lookup c (_make_key pdf_path page_num dpi) image Hc Hpos)
    as (Hok & Hsame & Hother).
  pose proof (put_key_consistent c (_make_key pdf_path page_num dpi) image Hc Hpos) as Hc1.
  fold c1 in Hsame, Hother, Hc1.
  split_and!; [done| |].
  - destruct (get_key_consistent c1 (_make_key pdf_path page_num dpi) Hc1) as (_ & _ & _ & ->).
    by rewrite Hsame.
  - intros Hne.
    destruct (get_key_consistent c1 (_make_key pdf_path' page_num' dpi') Hc1) as (_ & _ & _ & ->).
    destruct (get_key_consistent c (_make_key pdf_path' page_num' dpi') Hc) as (_ & _ & _ & ->).
    rewrite Hother.
    + unfold evicts. repeat case_bool_decide; done.
    + intros (-> & -> & ->)%make_key_inj. done.
Qed.

Lemma put_then_get_witness :
  (get (put (init 2) "a.pdf" 0 72 (Raster 1)).1 "a.pdf" 0 72).2 = Ok (Some (Raster 1)).
Proof.
  refine (proj1 (proj2 (put_then_get (init 2) "a.pdf" 0 72 (Raster 1) "b.pdf" 0 72 _ _))).
  - apply consistent_init.
  - reflexivity.
Defined.

(** X8: a cache of capacity zero or less cannot take its first image:
    [put] on the empty cache raises [IndexError] from the eviction and
    stores nothing. *)
Theorem put_without_capacity (n : Z) (pdf_path : string) (page_num dpi : Z) (image : Image) :
  n <= 0 →
  put (init n) pdf_path page_num dpi image = (init n, Raise IndexError).
Proof.
  intros Hn. unfold put. apply put_key_empty_full; [done|apply lookup_empty|].
  simpl. rewrite map_size_empty. simpl. lia.
Qed.

Lemma put_without_capacity_witness :
  put (init 0) "a.pdf" 0 72 (Raster 1) = (init 0, Raise IndexError).
Proof. apply (put_without_capacity 0 "a.pdf" 0 72 (Raster 1)). lia. Defined.

End cache_round_trip.

(** ** Dropping the pages of one document *)

Section cache_clear_pdf.
Import PageCache.

Lemma filter_all {A} (P : A → Prop) `{∀ x, Decision (P x)} (l : list A) :
  Forall P l → filter P l = l.
Proof.
  induction 1 as [|x l Hx _ IH]; [done|].
  rewrite filter_cons_True by done. by rewrite IH.
Qed.

Lemma filter_ext_elem {A} (P Q : A → Prop) `{∀ x, Decision (P x)} `{∀ x, Decision (Q x)}
    (l : list A) :
  (∀ x, x ∈ l → P x ↔ Q x) → filter P l = filter Q l.
Proof.
  induction l as [|x l IH]; intros HPQ; [done|].
  rewrite !filter_cons. rewrite IH by (intros y Hy; apply HPQ; by right).
  destruct (decide (P x)) as [HP|HP], (decide (Q x)) as [HQ|HQ]; try done.
  - destruct HQ. apply HPQ; [by left|done].
  - destruct HP. apply HPQ; [by left|done].
Qed.

Lemma py_remove_filter (key : string) l l' :
  NoDup l → py_remove key l = Some l' → l' = filter (λ k, k ≠ key) l.
Proof.
  revert l'. induction l as [|z l IH]; intros l' Hnd Hrm; [done|].
  simpl in Hrm. apply NoDup_cons in Hnd as [Hz Hnd].
  destruct (decide (key = z)) as [->|Hne].
  - injection Hrm as <-. rewrite filter_cons_False by (by intros []).
    symmetry. apply filter_all, Forall_forall. by intros x Hx ->.
  - destruct (py_remove key l) as [l0|] eqn:E; [|done]. injection Hrm as <-.
    rewrite filter_cons_True by done. f_equal. by apply IH.
Qed.

Lemma remove_keys_spec keys c :
  consistent c → NoDup keys → (∀ k, k ∈ keys → is_Some (_cache c !! k)) →
  let c1 := (remove_keys keys c).1 in
  (remove_keys keys c).2 = Ok () ∧ consistent c1 ∧ max_size c1 = max_size c ∧
  (∀ k, _cache c1 !! k = if bool_decide (k ∈ keys) then None else _cache c !! k) ∧
  _access_order c1 = filter (λ k, k ∉ keys) (_access_order c).
Proof.
  revert c. induction keys as [|key keys IH]; intros c Hc Hnd Hin; cbv zeta.
  { simpl. split_and!; [done..|].
    symmetry. apply filter_all, Forall_forall. intros k _. apply not_elem_of_nil. }
  apply NoDup_cons in Hnd as [Hkey Hnd]. simpl.
  destruct (Hin key) as [x Hx]; [by left|]. rewrite Hx.
  destruct (py_remove_Some key (_access_order c)) as [l Hl].
  { apply Hc. by rewrite Hx. }
  rewrite Hl. pose proof Hc as [Hndo Hiff].
  destruct (py_remove_elem_of key _ l Hndo Hl) as (Hndl & Hnot & Hmem).
  set (c2 := mk (max_size c) (delete key (_cache c)) l).
  assert (consistent c2) as Hc2.
  { split; [done|]. simpl. intros k. rewrite lookup_delete_is_Some, <-Hiff, Hmem.
    split.
    - intros Hk. split; [by intros <-|by right].
    - intros [Hne [->|?]]; done. }
  destruct (IH c2 Hc2 Hnd) as (Hok & Hcons & Hmax & Hlook & Hord).
  { intros k Hk. simpl. apply lookup_delete_is_Some. split; [by intros <-|].
    apply Hin. by right. }
  split_and!; [done..| |].
  - intros k. rewrite Hlook. simpl.
    destruct (decide (k = key)) as [->|Hne].
    + rewrite lookup_delete_eq, (bool_decide_eq_true_2 (key ∈ key :: keys)) by (by left).
      by case_bool_decide.
    + rewrite lookup_delete_ne by done.
      rewrite (bool_decide_ext (k ∈ key :: keys) (k ∈ keys)); [done|].
      rewrite elem_of_cons. tauto.
  - rewrite Hord. simpl. rewrite (py_remove_filter key _ l Hndo Hl), list_filter_filter.
    apply list_filter_iff. intros k. rewrite not_elem_of_cons. tauto.
Qed.

(** [clear_pdf] as its loop leaves the cache. *)
Lemma clear_pdf_keys c pdf_path :
  consistent c →
  let c1 := (clear_pdf c pdf_path).1 in
  (clear_pdf c pdf_path).2 = Ok () ∧ consistent c1 ∧ max_size c1 = max_size c ∧
  (∀ k, _cache c1 !! k =
        if String.prefix (pdf_path +:+ ":") k then None else _cache c !! k) ∧
  _access_order c1 =
    filter (λ k, String.prefix (pdf_path +:+ ":") k = false) (_access_order c).
Proof.
  intros Hc. cbv zeta. unfold clear_pdf.
  set (keys := filter _ _).
  assert (∀ k, k ∈ keys ↔ String.prefix (pdf_path +:+ ":") k = true ∧ is_Some (_cache c !! k))
    as Hkeys.
  { intros k. unfold keys. by rewrite list_elem_of_filter, elem_of_elements, elem_of_dom. }
  destruct (remove_keys_spec keys c Hc) as (Hok & Hcons & Hmax & Hlook & Hord).
  { apply NoDup_filter, NoDup_elements. }
  { intros k Hk. by apply Hkeys in Hk as [_ ?]. }
  split_and!; [done..| |].
  - intros k. rewrite Hlook. case_bool_decide as Hk.
    + apply Hkeys in Hk as [-> _]. done.
    + destruct (String.prefix _ k) eqn:Hp; [|done].
      destruct (_cache c !! k) eqn:E; [|done].
      destruct Hk. apply Hkeys. by rewrite E.
  - rewrite Hord. apply filter_ext_elem. intros k Hk. rewrite Hkeys.
    apply Hc in Hk. destruct (String.prefix _ k); intuition congruence.
Qed.
End cache_clear_pdf.

Section cache_clear_pdf_keys.
Import PageCache.

Lemma prefix_cons a s b t :
  String.prefix (String a s) (String b t) = true ↔ a = b ∧ String.prefix s t = true.
Proof. simpl. destruct (Ascii.ascii_dec a b); intuition congruence. Qed.

Lemma prefix_colon_free s t : String.prefix s t = true → colon_free t → colon_free s.
Proof.
  revert t. induction s as [|a s IH]; intros [|b t]; try done.
  intros [-> Hp]%prefix_cons [Hb Ht]. split; [done|]. by eapply IH.
Qed.

(** Up to its first colon a string is read in one way only. *)
Lemma prefix_colon_field r n d :
  colon_free n → colon_free d →
  String.prefix (r +:+ ":") (n +:+ ":" +:+ d) = true ↔ r = n.
Proof.
  intros Hn Hd. revert r. induction n as [|b n IH]; intros [|a r];
    rewrite ?append_nil, ?append_cons, ?append_nil.
  - rewrite prefix_cons. split; [done|]. intros _. split; [done|by destruct d].
  - rewrite prefix_cons. split; [|done]. intros [-> Hp].
    apply prefix_colon_free in Hp; [|done].
    apply colon_free_app in Hp as [_ [Hp _]]. done.
  - rewrite prefix_cons. split; [|done]. intros [<- _]. by destruct Hn.
  - rewrite prefix_cons, IH by apply Hn. intuition congruence.
Qed.

(** The documents [clear_pdf pdf_path] takes the page [page_num] of:
    [pdf_path] itself, every document whose path goes on after
    [pdf_path] with a colon, and the document whose path, a colon and
    [page_num] make up [pdf_path]. *)
Definition dropped_with (pdf_path pdf_path' : string) (page_num : Z) : Prop :=
  pdf_path' = pdf_path ∨ String.prefix (pdf_path +:+ ":") pdf_path' = true ∨
  pdf_path = pdf_path' +:+ ":" +:+ pretty page_num.

Global Instance dropped_with_dec p p' n : Decision (dropped_with p p' n).
Proof. unfold dropped_with. apply _. Defined.

Lemma prefix_nil s : String.prefix "" s = true.
Proof. by destruct s. Qed.

Lemma prefix_make_key pdf_path pdf_path' page_num dpi :
  String.prefix (pdf_path +:+ ":") (_make_key pdf_path' page_num dpi) = true ↔
  dropped_with pdf_path pdf_path' page_num.
Proof.
  unfold dropped_with, _make_key. revert pdf_path.
  induction pdf_path' as [|b p' IH]; intros [|a p].
  - split; [by left|]. intros _. apply prefix_cons. split; [done|apply prefix_nil].
  - split.
    + intros [-> H]%prefix_cons.
      apply prefix_colon_field in H as ->; [|apply pretty_Z_colon_free..].
      by right; right.
    + intros [ [=] | [ H | [= -> ->] ] ]; [by destruct (String a p +:+ ":")|]. apply prefix_cons. split; [done|].
      apply prefix_colon_field; [apply pretty_Z_colon_free..|done].
  - split.
    + intros [<- _]%prefix_cons. right; left. apply prefix_cons. split; [done|apply prefix_nil].
    + intros [ [=] | [ [<- _]%prefix_cons | [=] ] ]. apply prefix_cons. split; [done|apply prefix_nil].
  - split.
    + intros [-> [ -> | [ ? | -> ] ]%IH]%prefix_cons; [by left| |by right; right].
      right; left. by apply prefix_cons.
    + intros H. apply prefix_cons.
      destruct H as [ [= -> ->] | [ [-> ?]%prefix_cons | [= -> ->] ] ]; (split; [done|]); apply IH.
      * by left.
      * by right; left.
      * by right; right.
Qed.

(** X9: on a cache whose dict and access list agree, [clear_pdf]
    returns and keeps the capacity and the agreement; the keys left are
    the ones that do not start with the path and a colon, in the access
    order they had.  A [get] afterwards misses for every page of the
    path, and also for the pages of any other document that
    [dropped_with] names; for the rest it answers as before. *)
Theorem clear_pdf_spec (c : t) (pdf_path pdf_path' : string) (page_num dpi : Z) :
  consistent c →
  let c1 := (clear_pdf c pdf_path).1 in
  (clear_pdf c pdf_path).2 = Ok () ∧ consistent c1 ∧ max_size c1 = max_size c ∧
  _access_order c1 =
    filter (λ k, String.prefix (pdf_path +:+ ":") k = false) (_access_order c) ∧
  (get c1 pdf_path page_num dpi).2 = Ok None ∧
  (get c1 pdf_path' page_num dpi).2 =
    if bool_decide (dropped_with pdf_path pdf_path' page_num) then Ok None
    else (get c pdf_path' page_num dpi).2.
Proof.
  intros Hc c1.
  destruct (clear_pdf_keys c pdf_path Hc) as (Hok & Hc1 & Hmax & Hlook & Hord).
  fold c1 in Hc1, Hmax, Hlook, Hord.
  assert (∀ p, (get c1 p page_num dpi).2 =
               if bool_decide (dropped_with pdf_path p page_num) then Ok None
               else (get c p page_num dpi).2) as Hget.
  { intros p. unfold get.
    destruct (get_key_consistent c1 (_make_key p page_num dpi) Hc1) as (_ & _ & _ & ->).
    destruct (get_key_consistent c (_make_key p page_num dpi) Hc) as (_ & _ & _ & ->).
    rewrite Hlook. pose proof (prefix_make_key pdf_path p page_num dpi) as Hp.
    case_bool_decide as Hd.
    - apply Hp in Hd as ->. done.
    - destruct (String.prefix _ _); [|done]. destruct Hd. by apply Hp. }
  split_and!; [done..| |apply Hget].
  rewrite Hget, bool_decide_eq_true_2; [done|]. by left.
Qed.

Lemma clear_pdf_spec_witness :
  (get (clear_pdf (put (init 2) "a.pdf" 0 72 (Raster 1)).1 "a.pdf").1 "a.pdf" 0 72).2 = Ok None.
Proof.
  refine (proj1 (proj2 (proj2 (proj2 (proj2
    (clear_pdf_spec (put (init 2) "a.pdf" 0 72 (Raster 1)).1 "a.pdf" "b.pdf" 0 72 _)))))).
  apply put_key_consistent; [apply consistent_init|reflexivity].
Defined.

(** The colon is also what a drive letter ends with. *)
Example clear_pdf_drive :
  let c := (put (init 2) "C:/doc.pdf" 0 72 (Raster 1)).1 in
  (get c "C:/doc.pdf" 0 72).2 = Ok (Some (Raster 1)) ∧
  (get (clear_pdf c "C").1 "C:/doc.pdf" 0 72).2 = Ok None.
Proof. split; vm_compute; reflexivity. Qed.

End cache_clear_pdf_keys.

(** ** Lists edited by index *)

Section index_edits.
Context {A : Type}.
Implicit Types (l : list A) (ds : list Z).

Lemma len_app l1 l2 : len (l1 ++ l2) = len l1 + len l2.
Proof. unfold len. rewrite length_app. lia. Qed.

Lemma len_snoc l a : len (l ++ [a]) = len l + 1.
Proof. unfold len. rewrite length_app. simpl. lia. Qed.

Lemma len_nonneg l : 0 <= len l.
Proof. unfold len. lia. Qed.

Lemma py_del_ok l i : 0 <= i < len l → py_del l i = Ok (delete (Z.to_nat i) l).
Proof.
  intros Hi. unfold py_del.
  replace (i <? 0) with false by (symmetry; apply Z.ltb_ge; lia).
  replace (0 <=? i) with true by (symmetry; apply Z.leb_le; lia).
  replace (i <? len l) with true by (symmetry; apply Z.ltb_lt; lia).
  done.
Qed.

Lemma py_del_snoc l a i :
  0 <= i < len l → py_del (l ++ [a]) i = Ok (delete (Z.to_nat i) l ++ [a]).
Proof.
  intros Hi. rewrite py_del_ok by (rewrite len_snoc; lia).
  f_equal. assert (Z.to_nat i < length l)%nat as Hlt by (unfold len in Hi; lia).
  clear Hi. revert Hlt. generalize (Z.to_nat i) as n. intros n Hlt.
  revert n Hlt. induction l as [|x l IH]; intros [|n] Hlt; simpl in *; try lia; [done|].
  f_equal. apply IH. lia.
Qed.

Lemma py_del_last l a : py_del (l ++ [a]) (len l) = Ok l.
Proof.
  rewrite py_del_ok by (rewrite len_snoc; pose proof (len_nonneg l); lia).
  f_equal. unfold len. rewrite Nat2Z.id.
  induction l as [|x l IH]; simpl; [done|]. by rewrite IH.
Qed.

Lemma select_nil keep `{!∀ i, Decision (keep i)} : select keep (@nil A) = [].
Proof. done. Qed.

Lemma select_ext keep keep' `{!∀ i, Decision (keep i)} `{!∀ i, Decision (keep' i)} l :
  (∀ i, 0 <= i < len l → keep i ↔ keep' i) → select keep l = select keep' l.
Proof.
  induction l as [|a l IH] using rev_ind; intros Hk; [done|].
  rewrite !select_snoc. rewrite IH.
  2: { intros i Hi. apply Hk. rewrite len_snoc. lia. }
  f_equal. assert (keep (len l) ↔ keep' (len l)) as Hl.
  { apply Hk. rewrite len_snoc. pose proof (len_nonneg l). lia. }
  destruct (decide (keep (len l))), (decide (keep' (len l))); tauto.
Qed.

Lemma select_everything (l : list A) : select (λ _, True) l = l.
Proof.
  induction l as [|a l IH] using rev_ind; [done|].
  rewrite select_snoc, IH. by destruct (decide _).
Qed.

Lemma select_none (l : list A) : select (λ _, False) l = [].
Proof.
  induction l as [|a l IH] using rev_ind; [done|].
  rewrite select_snoc, IH. by destruct (decide _).
Qed.

Lemma select_app keep `{!∀ i, Decision (keep i)} l1 l2 :
  select keep (l1 ++ l2) = select keep l1 ++ select (λ j, keep (len l1 + j)) l2.
Proof.
  induction l2 as [|a l2 IH] using rev_ind.
  - by rewrite select_nil, !app_nil_r.
  - rewrite app_assoc, !select_snoc, IH, <-app_assoc. do 2 f_equal.
    rewrite len_app.
    destruct (decide (keep (len l1 + len l2))), (decide (keep (len l1 + len l2))); done.
Qed.

Lemma select_length keep `{!∀ i, Decision (keep i)} l :
  length (select keep l) = length (filter keep (py_range 0 (len l))).
Proof.
  induction l as [|a l IH] using rev_ind; [done|].
  rewrite select_snoc, len_snoc.
  rewrite py_range_snoc by apply len_nonneg.
  rewrite filter_app, !length_app, IH. f_equal.
  rewrite filter_cons, filter_nil. by destruct (decide _).
Qed.

Lemma select_complement_length keep `{!∀ i, Decision (keep i)} l :
  (length (select keep l) + length (select (λ i, ¬ keep i) l) = length l)%nat.
Proof. rewrite <-length_app. by rewrite (select_complement keep l). Qed.

(** The item at an index that is kept is found after the kept items
    before it. *)
Lemma select_lookup keep `{!∀ i, Decision (keep i)} l (i : nat) x :
  l !! i = Some x → keep (Z.of_nat i) →
  select keep l !! length (select keep (take i l)) = Some x.
Proof.
  intros Hx Hk. pose proof (lookup_lt_Some _ _ _ Hx) as Hlt.
  pose proof (take_drop_middle l i x Hx) as Heq.
  assert (len (take i l) = Z.of_nat i) as Hlen.
  { unfold len. rewrite length_take. lia. }
  remember (take i l) as l1 eqn:E1. remember (drop (S i) l) as l2 eqn:E2.
  rewrite <-Heq. rewrite select_app, lookup_app_r by done. rewrite Nat.sub_diag.
  change (x :: l2) with ([x] ++ l2).
  rewrite select_app. unfold select at 1.
  change (enumerate [x]) with [(0%nat, x)].
  rewrite filter_cons. simpl. rewrite Hlen, Z.add_0_r.
  by destruct (decide (keep (Z.of_nat i))).
Qed.

(** Among the indices of a list, as many lie in a duplicate-free [ds]
    below [t] as [ds] has members below [t]. *)
Lemma count_below ds l (t : nat) :
  NoDup ds → (∀ d, d ∈ ds → 0 <= d < len l) → (t ≤ length l)%nat →
  length (select (λ i, i ∈ ds) (take t l)) = length (filter (λ d, d < Z.of_nat t) ds).
Proof.
  intros Hnd Hds Ht. rewrite select_length.
  apply Permutation_length, NoDup_Permutation.
  - apply NoDup_filter, py_range_NoDup.
  - by apply NoDup_filter.
  - intros d. rewrite !list_elem_of_filter.
    assert (len (take t l) = Z.of_nat t) as -> by (unfold len; rewrite length_take; lia).
    split.
    + intros [? ?%elem_of_py_range]. split; [lia|done].
    + intros [? Hd]. split; [done|]. apply elem_of_py_range_2. apply Hds in Hd. lia.
Qed.

(** The loop that reads and deletes the items at [ds], one index after
    the other, collecting them in front of [acc]. *)
Fixpoint extract ds (acc : list A) l : res (list A * list A) :=
  match ds with
  | [] => Ok (l, acc)
  | d :: ds' =>
      match py_index l d, py_del l d with
      | Ok a, Ok l' => extract ds' (a :: acc) l'
      | Raise e, _ | _, Raise e => Raise e
      end
  end.

Definition descending ds : Prop := StronglySorted (λ a b, b < a) ds.

Lemma descending_cons d ds :
  descending (d :: ds) → descending ds ∧ ∀ d', d' ∈ ds → d' < d.
Proof.
  intros H. apply StronglySorted_inv in H as [Hs Hall].
  split; [done|]. by apply Forall_forall.
Qed.

Lemma extract_snoc ds acc l a :
  descending ds → (∀ d, d ∈ ds → 0 <= d < len l) →
  extract ds acc (l ++ [a]) =
  match extract ds acc l with
  | Ok r => Ok (r.1 ++ [a], r.2)
  | Raise e => Raise e
  end.
Proof.
  revert acc l. induction ds as [|d ds IH]; intros acc l Hdesc Hds; [done|].
  apply descending_cons in Hdesc as [Hdesc Hlt].
  assert (0 <= d < len l) as Hd by (apply Hds; by left).
  simpl. rewrite py_index_snoc, py_del_snoc, py_del_ok by done.
  destruct (py_index_ok l d Hd) as (x & -> & _).
  apply IH; [done|]. intros d' Hd'.
  assert (0 <= d' < len l) by (apply Hds; by right).
  specialize (Hlt d' Hd'). unfold len in *.
  rewrite length_delete by (apply lookup_lt_is_Some; lia). lia.
Qed.

Lemma extract_descending ds acc l :
  descending ds → (∀ d, d ∈ ds → 0 <= d < len l) →
  extract ds acc l = Ok (select (λ i, i ∉ ds) l, select (λ i, i ∈ ds) l ++ acc).
Proof.
  revert ds acc. induction l as [|a l IH] using rev_ind; intros ds acc Hdesc Hds.
  { destruct ds as [|d ds]; [done|].
    specialize (Hds d (list_elem_of_here _ _)). unfold len in Hds. simpl in Hds. lia. }
  destruct ds as [|d ds].
  { simpl. rewrite (select_ext (λ i, i ∉ []) (λ _, True)), select_everything
      by (intros i _; split; [done|]; intros _; apply not_elem_of_nil).
    rewrite (select_ext (λ i, i ∈ []) (λ _, False)), select_none
      by (intros i _; split; [by intros ?%elem_of_nil|done]).
    done. }
  pose proof (descending_cons _ _ Hdesc) as [Hdesc' Hlt].
  assert (0 <= d < len (l ++ [a])) as Hd by (apply Hds; by left).
  rewrite len_snoc in Hd.
  rewrite !select_snoc.
  destruct (decide (d = len l)) as [->|Hne].
  - simpl. rewrite py_index_snoc_last, py_del_last.
    rewrite IH; [|done|].
    2: { intros d' Hd'. specialize (Hlt d' Hd').
         assert (0 <= d' < len (l ++ [a])) as H by (apply Hds; by right). lia. }
    rewrite decide_False by (intros H; apply H; by left).
    rewrite decide_True by (by left).
    rewrite app_nil_r, <-app_assoc. simpl. do 2 f_equal.
    + apply select_ext. intros i Hi. rewrite not_elem_of_cons. split; [|tauto].
      intros ?. split; [lia|done].
    + f_equal. apply select_ext. intros i Hi. rewrite elem_of_cons. split; [tauto|].
      intros [?|?]; [lia|done].
  - assert (∀ d', d' ∈ d :: ds → 0 <= d' < len l) as Hds'.
    { intros d' [->|Hd']%elem_of_cons; [lia|].
      specialize (Hlt d' Hd').
      assert (0 <= d' < len (l ++ [a])) as H by (apply Hds; by right). lia. }
    rewrite extract_snoc, IH by done. simpl.
    assert (len l ∉ d :: ds) as Hnot.
    { intros Hin. apply Hds' in Hin. lia. }
    rewrite decide_True by done. rewrite decide_False by done.
    by rewrite app_nil_r.
Qed.

(** The loop that deletes at the indices of [ds] that are in range when
    their turn comes. *)
Fixpoint del_valid ds l : list A :=
  match ds with
  | [] => l
  | d :: ds' =>
      if (0 <=? d) && (d <? len l)
      then match py_del l d with
           | Ok l' => del_valid ds' l'
           | Raise _ => l
           end
      else del_valid ds' l
  end.

Lemma del_valid_snoc ds l a :
  descending ds → (∀ d, d ∈ ds → d < len l) →
  del_valid ds (l ++ [a]) = del_valid ds l ++ [a].
Proof.
  revert l. induction ds as [|d ds IH]; intros l Hdesc Hds; [done|].
  apply descending_cons in Hdesc as [Hdesc Hlt].
  assert (d < len l) as Hd by (apply Hds; by left).
  simpl. rewrite len_snoc.
  destruct (decide (0 <= d)) as [Hd0|Hd0].
  - replace (0 <=? d) with true by (symmetry; apply Z.leb_le; lia).
    replace (d <? len l + 1) with true by (symmetry; apply Z.ltb_lt; lia).
    replace (d <? len l) with true by (symmetry; apply Z.ltb_lt; lia).
    simpl. rewrite py_del_snoc, py_del_ok by lia.
    apply IH; [done|]. intros d' Hd'. specialize (Hlt d' Hd').
    unfold len in *. rewrite length_delete by (apply lookup_lt_is_Some; lia). lia.
  - replace (0 <=? d) with false by (symmetry; apply Z.leb_gt; lia).
    simpl. apply IH; [done|]. intros d' Hd'. specialize (Hlt d' Hd'). lia.
Qed.

Lemma del_valid_descending ds l :
  descending ds → del_valid ds l = select (λ i, i ∉ ds) l.
Proof.
  revert ds. induction l as [|a l IH] using rev_ind; intros ds Hdesc.
  { induction ds as [|d ds IHds]; [done|].
    apply descending_cons in Hdesc as [Hdesc _]. simpl.
    assert ((0 <=? d) && (d <? @len A []) = false) as ->.
    { apply andb_false_iff. destruct (decide (0 <= d)).
      - right. apply Z.ltb_ge. unfold len. simpl. lia.
      - left. apply Z.leb_gt. lia. }
    by apply IHds. }
  induction ds as [|d ds IHds].
  { simpl. rewrite (select_ext (λ i, i ∉ []) (λ _, True)), select_everything
      by (intros i _; split; [done|]; intros _; apply not_elem_of_nil).
    done. }
  pose proof (descending_cons _ _ Hdesc) as [Hdesc' Hlt].
  destruct (decide (len l < d)) as [Hbig|Hsmall].
  - simpl. rewrite len_snoc.
    replace (d <? len l + 1) with false by (symmetry; apply Z.ltb_ge; lia).
    rewrite andb_false_r, IHds by done.
    apply select_ext. intros i Hi. rewrite len_snoc in Hi.
    rewrite not_elem_of_cons. split; [|tauto]. intros ?. split; [lia|done].
  - destruct (decide (d = len l)) as [->|Hne].
    + simpl. rewrite len_snoc.
      replace (0 <=? len l) with true by (symmetry; apply Z.leb_le; apply len_nonneg).
      replace (len l <? len l + 1) with true by (symmetry; apply Z.ltb_lt; lia).
      simpl. rewrite py_del_last, IH by done.
      rewrite select_snoc, decide_False by (intros H; apply H; by left).
      rewrite app_nil_r. apply select_ext. intros i Hi.
      rewrite not_elem_of_cons. split; [|tauto]. intros ?. split; [lia|done].
    + rewrite del_valid_snoc; [|done|].
      2: { intros d' [->|Hd']%elem_of_cons; [lia|]. specialize (Hlt d' Hd'). lia. }
      rewrite IH by done.
      rewrite select_snoc, decide_True; [done|].
      intros [?|Hd']%elem_of_cons; [lia|]. specialize (Hlt _ Hd'). lia.
Qed.

(** [sorted(l, reverse=True)] of a duplicate-free list. *)
Lemma py_sorted_reverse_descending ds : NoDup ds → descending (py_sorted_reverse ds).
Proof.
  intros Hnd. unfold py_sorted_reverse, descending.
  pose proof (StronglySorted_merge_sort Z.le ds) as Hs.
  assert (NoDup (merge_sort Z.le ds)) as Hnd'.
  { by rewrite merge_sort_Permutation. }
  induction Hs as [|x l Hs IH Hall]; [constructor|].
  apply NoDup_cons in Hnd' as [Hx Hnd'].
  rewrite reverse_cons. apply StronglySorted_app_2; [|by apply IH|repeat constructor].
  intros d y Hd ->%list_elem_of_singleton. rewrite elem_of_reverse in Hd.
  rewrite Forall_forall in Hall. specialize (Hall d Hd).
  assert (d ≠ x) by (by intros ->). lia.
Qed.

Lemma elem_of_py_sorted_reverse ds d : d ∈ py_sorted_reverse ds ↔ d ∈ ds.
Proof. unfold py_sorted_reverse. by rewrite elem_of_reverse, merge_sort_Permutation. Qed.

(** [l.insert(k + i, x)] for the items [x] of [xs] in turn. *)
Lemma insert_block l (xs : list A) k :
  0 <= k <= len l →
  foldl (λ l ix, py_insert l (k + Z.of_nat ix.1) ix.2) l (enumerate xs)
  = take (Z.to_nat k) l ++ xs ++ drop (Z.to_nat k) l.
Proof.
  intros Hk. induction xs as [|x xs IH] using rev_ind.
  { simpl. by rewrite take_drop. }
  rewrite enumerate_snoc, foldl_app, IH. simpl. unfold py_insert.
  replace (k + Z.of_nat (length xs) <? 0) with false by (symmetry; apply Z.ltb_ge; lia).
  assert (length (take (Z.to_nat k) l) = Z.to_nat k) as Htk.
  { rewrite length_take. unfold len in Hk. lia. }
  rewrite Z.min_l.
  2: { rewrite !len_app. unfold len. rewrite Htk. lia. }
  replace (Z.to_nat (k + Z.of_nat (length xs))) with (length (take (Z.to_nat k) l ++ xs))
    by (rewrite length_app, Htk; lia).
  rewrite app_assoc, take_app_length, drop_app_length. by rewrite <-!app_assoc.
Qed.

End index_edits.

(** ** The viewer's page list *)

Section page_list.
Import PdfViewer.

Lemma set_pages_same v : set_pages (pages v) v = v.
Proof. by destruct v. Qed.

Lemma set_pages_twice a b v : set_pages a (set_pages b v) = set_pages a v.
Proof. done. Qed.

(** The loop of [delete_pages]. *)
Lemma delete_loop ds v :
  for_each ds
    (λ idx,
       v ← gets id;
       if (0 <=? idx) && (idx <? len (pages v)) then
         ps ← lift_res (py_del (pages v) idx);
         modify (set_pages ps)
       else mret ()) v
  = (set_pages (del_valid ds (pages v)) v, Ok ()).
Proof.
  revert v. induction ds as [|d ds IH]; intros v.
  { simpl. by rewrite set_pages_same. }
  cbn [for_each del_valid]. unfold_monad. unfold id in *.
  destruct ((0 <=? d) && (d <? len (pages v))) eqn:E.
  - rewrite py_del_ok by lia. rewrite IH. done.
  - rewrite IH. done.
Qed.

(** The loops of [move_to_deleted_section] and [move_pages] that take
    pages out. *)
Lemma extract_pages_run ds acc v l r :
  extract ds acc (pages v) = Ok (l, r) →
  extract_pages ds acc v = (set_pages l v, Ok r).
Proof.
  revert acc v. induction ds as [|d ds IH]; intros acc v.
  { simpl. intros [= <- <-]. by rewrite set_pages_same. }
  cbn [extract extract_pages]. unfold_monad. unfold id in *.
  destruct (py_index (pages v) d) as [a|e]; [|done].
  destruct (py_del (pages v) d) as [l'|e]; [|done].
  intros H. by rewrite (IH _ (set_pages l' v) H).
Qed.

Lemma pop_loop ds v l r :
  extract ds [] (pages v) = Ok (l, r) →
  for_each ds
    (λ idx,
       v ← gets id;
       ps ← lift_res (py_del (pages v) idx);
       modify (set_pages ps)) v
  = (set_pages l v, Ok ()).
Proof.
  generalize (@nil (Z * Z)) as acc.
  revert v. induction ds as [|d ds IH]; intros v acc.
  { simpl. intros [= <- <-]. by rewrite set_pages_same. }
  cbn [extract for_each]. unfold_monad. unfold id in *.
  destruct (py_index (pages v) d) as [a|e]; [|done].
  destruct (py_del (pages v) d) as [l'|e]; [|done].
  intros H. by rewrite (IH (set_pages l' v) _ H).
Qed.

Lemma delete_pages_run page_indices v :
  page_indices ≠ [] →
  delete_pages page_indices v =
  (set_marked_pages ∅ (set_selected_pages ∅
     (set_pages (del_valid (py_sorted_reverse page_indices) (pages v)) v)), Ok ()).
Proof.
  intros Hne. unfold delete_pages. rewrite bool_decide_eq_false_2 by done.
  erewrite bind_returns by apply delete_loop. done.
Qed.

End page_list.

(** X10: [delete_pages] never raises, whatever the indices.  For a
    duplicate-free list that is not empty, the pages left are the pages
    whose index is not in the list, in their order (an index outside the
    page list is passed over), and the selection and the marks are
    emptied; for the empty list nothing changes, the selection and the
    marks included. *)
Theorem delete_pages_spec (v : PdfViewer.t) (page_indices : list Z) :
  let r := PdfViewer.delete_pages page_indices v in
  r.2 = Ok () ∧
  (page_indices = [] → r.1 = v) ∧
  (page_indices ≠ [] →
     PdfViewer.selected_pages r.1 = ∅ ∧ PdfViewer.marked_pages r.1 = ∅ ∧
     PdfViewer.section_manager r.1 = PdfViewer.section_manager v ∧
     PdfViewer.current_zoom r.1 = PdfViewer.current_zoom v ∧
     (NoDup page_indices →
        PdfViewer.pages r.1 = select (λ i, i ∉ page_indices) (PdfViewer.pages v))).
Proof.
  cbv zeta. destruct (decide (page_indices = [])) as [->|Hne]; [done|].
  rewrite delete_pages_run by done. simpl.
  split; [done|]. split; [done|]. intros _. split_and!; try done.
  intros Hnd. rewrite del_valid_descending by by apply py_sorted_reverse_descending.
  apply select_ext. intros i _. by rewrite elem_of_py_sorted_reverse.
Qed.

(** An index given twice takes the next page with it. *)
Example delete_pages_twice :
  PdfViewer.pages
    (PdfViewer.delete_pages [1; 1] (PdfViewer.mk [(0, 0); (0, 1); (0, 2)] ∅ ∅ 100 None)).1
  = [(0, 0)].
Proof. vm_compute. reflexivity. Qed.

(** ** Moving pages to the deleted section *)

Section soft_delete.
Import PdfViewer.

(** The indices [move_to_deleted_section] works on: the ones given, or
    the selection. *)
Definition chosen (v : t) (page_indices : option (list Z)) : list Z :=
  match page_indices with
  | Some l => l
  | None => elements (selected_pages v)
  end.

Lemma sorted_reverse_below l i :
  len (filter (λ d, d < i) (py_sorted_reverse l)) = len (filter (λ d, d < i) l).
Proof.
  unfold len. f_equal. apply Permutation_length, filter_Permutation.
  unfold py_sorted_reverse. by rewrite reverse_Permutation, merge_sort_Permutation.
Qed.

(** Where a page that stays is found once the pages at [l] are gone. *)
Lemma kept_lookup {A} (ps : list A) l i p :
  NoDup l → (∀ d, d ∈ l → 0 <= d < len ps) →
  0 <= i → i ∉ l → ps !! Z.to_nat i = Some p →
  0 <= i - len (filter (λ d, d < i) l) ∧
  select (λ i, i ∉ l) ps !! Z.to_nat (i - len (filter (λ d, d < i) l)) = Some p.
Proof.
  intros Hnd Hl Hi Hnot Hp. pose proof (lookup_lt_Some _ _ _ Hp) as Hlt.
  pose proof (select_lookup (λ i, i ∉ l) ps (Z.to_nat i) p Hp) as Hsel.
  rewrite Z2Nat.id in Hsel by done. specialize (Hsel Hnot).
  pose proof (select_complement_length (λ i, i ∈ l) (take (Z.to_nat i) ps)) as Hc.
  rewrite (count_below l ps (Z.to_nat i)) in Hc by (done || lia).
  rewrite Z2Nat.id in Hc by done. rewrite length_take in Hc.
  unfold len.
  replace (Z.to_nat (i - Z.of_nat (length (filter (λ d, d < i) l))))
    with (length (select (λ i, i ∉ l) (take (Z.to_nat i) ps))) by lia.
  split; [lia|done].
Qed.

Lemma move_to_deleted_section_run v page_indices :
  NoDup (chosen v page_indices) →
  (∀ i, i ∈ chosen v page_indices → 0 <= i < len (pages v)) →
  ¬ (page_indices = None ∧ selected_pages v = ∅) →
  let l := py_sorted_reverse (chosen v page_indices) in
  move_to_deleted_section page_indices v =
  (set_marked_pages
     (set_map (λ old_idx, old_idx - len (filter (λ del_idx, del_idx < old_idx) l))
        (filter (λ old_idx, old_idx ∉ l) (marked_pages v)))
     (set_selected_pages ∅
        (set_pages (select (λ i, i ∉ l) (pages v) ++ select (λ i, i ∈ l) (pages v)) v)),
   Ok ()).
Proof.
  intros Hnd Hvalid Hgo l. unfold move_to_deleted_section.
  rewrite (bind_returns _ _ v v v) by done.
  assert (bool_decide (page_indices = None) && bool_decide (selected_pages v = ∅) = false)
    as ->.
  { apply andb_false_iff. destruct (decide (page_indices = None)).
    - right. apply bool_decide_eq_false_2. tauto.
    - left. by apply bool_decide_eq_false_2. }
  assert (match page_indices with
          | Some l => py_sorted_reverse l
          | None => reverse (py_sorted (selected_pages v))
          end = l) as -> by (by destruct page_indices).
  assert (extract l [] (pages v)
          = Ok (select (λ i, i ∉ l) (pages v), select (λ i, i ∈ l) (pages v) ++ [])) as Hex.
  { apply extract_descending.
    - by apply py_sorted_reverse_descending.
    - intros d Hd. unfold l in Hd. rewrite elem_of_py_sorted_reverse in Hd.
      by apply Hvalid. }
  rewrite app_nil_r in Hex.
  erewrite bind_returns by (by apply extract_pages_run).
  done.
Qed.

End soft_delete.

(** X11: [move_to_deleted_section], on the indices given or on the
    selection, when these are indices of pages and no index comes twice:
    it returns; the pages that stay keep their order and the pages taken
    follow them at the end, in their order; the selection is emptied; a
    mark on a page that stays moves with the page, to the index the page
    has afterwards, and a mark on a page taken is dropped. *)
Theorem move_to_deleted_section_spec (v : PdfViewer.t) (page_indices : option (list Z)) :
  NoDup (chosen v page_indices) →
  (∀ i, i ∈ chosen v page_indices → 0 <= i < len (PdfViewer.pages v)) →
  let l := chosen v page_indices in
  let r := PdfViewer.move_to_deleted_section page_indices v in
  let kept := select (λ i, i ∉ l) (PdfViewer.pages v) in
  let taken := select (λ i, i ∈ l) (PdfViewer.pages v) in
  let shifted i := i - len (filter (λ d, d < i) l) in
  r.2 = Ok () ∧
  PdfViewer.pages r.1 = kept ++ taken ∧
  PdfViewer.pages r.1 ≡ₚ PdfViewer.pages v ∧
  PdfViewer.selected_pages r.1 = ∅ ∧
  (∀ j, j ∈ PdfViewer.marked_pages r.1 ↔
        ∃ i, i ∈ PdfViewer.marked_pages v ∧ (i ∉ l) ∧ j = shifted i) ∧
  (∀ i p, 0 <= i → i ∉ l → PdfViewer.pages v !! Z.to_nat i = Some p →
          0 <= shifted i ∧ PdfViewer.pages r.1 !! Z.to_nat (shifted i) = Some p).
Proof.
  intros Hnd Hvalid l r kept taken shifted.
  assert (kept ++ taken ≡ₚ PdfViewer.pages v) as Hperm.
  { unfold kept, taken. rewrite (comm app). apply (select_complement (λ i, i ∈ l)). }
  assert (∀ i p, 0 <= i → i ∉ l → PdfViewer.pages v !! Z.to_nat i = Some p →
            0 <= shifted i ∧ (kept ++ taken) !! Z.to_nat (shifted i) = Some p) as Hkept.
  { intros i p Hi Hnot Hp.
    destruct (kept_lookup (PdfViewer.pages v) l i p Hnd Hvalid Hi Hnot Hp) as [H0 Hk].
    split; [done|]. by apply lookup_app_l_Some. }
  destruct (decide (page_indices = None ∧ PdfViewer.selected_pages v = ∅)) as [[-> He]|Hgo].
  - assert (l = []) as Hl.
    { unfold l, chosen. rewrite He. apply elements_empty. }
    assert (r = (v, Ok ())) as ->.
    { unfold r, PdfViewer.move_to_deleted_section.
      rewrite (bind_returns _ _ v v v) by done.
      by rewrite !bool_decide_eq_true_2 by done. }
    simpl. unfold kept, taken, shifted in *. rewrite Hl in *.
    rewrite (select_ext (λ i, i ∉ []) (λ _, True)), select_everything in *
      by (intros i _; split; [done|]; intros _; apply not_elem_of_nil).
    rewrite (select_ext (λ i, i ∈ []) (λ _, False)), select_none in *
      by (intros i _; split; [by intros ?%elem_of_nil|done]).
    rewrite app_nil_r in *. split_and!; try done.
    intros j. split.
    + intros Hj. exists j. split_and!; [done|apply not_elem_of_nil|].
      rewrite filter_nil. change (len []) with 0. lia.
    + intros (i & Hi & _ & ->). rewrite filter_nil. change (len []) with 0.
      by rewrite Z.sub_0_r.
  - unfold r. rewrite move_to_deleted_section_run by done. simpl.
    assert (∀ i, i ∈ py_sorted_reverse l ↔ i ∈ l) as Hmem
      by (intros i; apply elem_of_py_sorted_reverse).
    rewrite (select_ext (λ i, i ∉ py_sorted_reverse l) (λ i, i ∉ l))
      by (intros i _; by rewrite Hmem).
    rewrite (select_ext (λ i, i ∈ py_sorted_reverse l) (λ i, i ∈ l))
      by (intros i _; by rewrite Hmem).
    fold kept taken. split_and!; try done.
    intros j. rewrite elem_of_map. split.
    + intros (i & -> & [Hnot Hi]%elem_of_filter). exists i.
      split_and!; [done| |].
      * intros ?. apply Hnot. by apply Hmem.
      * unfold shifted. by rewrite sorted_reverse_below.
    + intros (i & Hi & Hnot & ->). exists i. split.
      * unfold shifted. by rewrite sorted_reverse_below.
      * apply elem_of_filter. split; [|done]. intros ?. apply Hnot. by apply Hmem.
Qed.

Lemma move_to_deleted_section_spec_witness :
  (PdfViewer.move_to_deleted_section (Some [0])
     (PdfViewer.mk [(0, 0); (0, 1); (0, 2)] ∅ {[1]} 100 None)).2 = Ok ().
Proof.
  refine (proj1 (move_to_deleted_section_spec
    (PdfViewer.mk [(0, 0); (0, 1); (0, 2)] ∅ {[1]} 100 None) (Some [0]) _ _)).
  - apply NoDup_singleton.
  - intros i ->%list_elem_of_singleton. vm_compute. split; [discriminate|reflexivity].
Defined.

(** The mark on the second of three pages follows it when the first page
    is taken. *)
Example move_to_deleted_section_marks :
  let r := PdfViewer.move_to_deleted_section (Some [0])
             (PdfViewer.mk [(0, 0); (0, 1); (0, 2)] ∅ {[1]} 100 None) in
  PdfViewer.pages r.1 = [(0, 1); (0, 2); (0, 0)] ∧
  elements (PdfViewer.marked_pages r.1) = [0].
Proof. split; vm_compute; reflexivity. Qed.

(** ** Moving pages *)

Section move_pages.
Import PdfViewer.

Lemma items_at_app {A} (l : list A) l1 l2 :
  items_at l (l1 ++ l2) =
  match items_at l l1, items_at l l2 with
  | Ok a, Ok b => Ok (a ++ b)
  | Raise e, _ => Raise e
  | Ok _, Raise e => Raise e
  end.
Proof.
  induction l1 as [|i l1 IH]; simpl.
  - by destruct (items_at l l2).
  - destruct (py_index l i); [|done]. rewrite IH.
    by destruct (items_at l l1), (items_at l l2).
Qed.

Lemma items_at_ext {A} (l l' : list A) idxs :
  (∀ i, i ∈ idxs → py_index l' i = py_index l i) →
  items_at l' idxs = items_at l idxs.
Proof.
  induction idxs as [|i idxs IH]; intros H; simpl; [done|].
  rewrite H by left. rewrite IH; [done|]. intros j Hj. apply H. by right.
Qed.

Lemma items_at_select {A} (l : list A) keep `{!∀ i, Decision (keep i)} :
  items_at l (filter keep (py_range 0 (len l))) = Ok (select keep l).
Proof.
  induction l as [|b l IH] using rev_ind; [done|].
  rewrite len_snoc, py_range_snoc by apply len_nonneg.
  rewrite filter_app, items_at_app, select_snoc.
  rewrite (items_at_ext l).
  2: { intros i [_ Hi%elem_of_py_range]%list_elem_of_filter. by apply py_index_snoc. }
  rewrite IH. rewrite filter_cons, filter_nil.
  destruct (decide (keep (len l))); simpl; [|done].
  by rewrite py_index_snoc_last.
Qed.

(** [sorted(l)] lists the members of a duplicate-free [l] as they come in
    [range(n)]. *)
Lemma py_sorted_list_range (l : list Z) n :
  NoDup l → (∀ i, i ∈ l → 0 <= i < n) →
  py_sorted_list l = filter (λ i, i ∈ l) (py_range 0 n).
Proof.
  intros Hnd Hl. unfold py_sorted_list.
  apply (StronglySorted_unique Z.le).
  - apply (StronglySorted_merge_sort _).
  - eapply StronglySorted_sublist; [apply sublist_filter|apply py_range_sorted].
  - rewrite merge_sort_Permutation. apply NoDup_Permutation.
    + done.
    + apply NoDup_filter, py_range_NoDup.
    + intros i. rewrite list_elem_of_filter. split.
      * intros Hi. split; [done|]. by apply elem_of_py_range_2, Hl.
      * tauto.
Qed.

Lemma modify_loop {S A} (f : A → S → S) (xs : list A) (s : S) :
  for_each xs (λ x, modify (f x)) s = (foldl (λ s x, f x s) s xs, Ok ()).
Proof.
  revert s. induction xs as [|x xs IH]; intros s; [done|].
  simpl. unfold bind, modify at 1. by rewrite IH.
Qed.

Lemma insert_loop (xs : list (nat * (Z * Z))) k v :
  foldl (λ v ip, set_pages (py_insert (pages v) (k + Z.of_nat ip.1) ip.2) v) v xs
  = set_pages (foldl (λ l ip, py_insert l (k + Z.of_nat ip.1) ip.2) (pages v) xs) v.
Proof.
  revert v. induction xs as [|x xs IH]; intros v; simpl.
  - by rewrite set_pages_same.
  - by rewrite IH.
Qed.

(** Where the block goes: the target, less the pages taken from before
    it. *)
Lemma adjusted_target_bounds {A} (ps : list A) l t :
  NoDup l → (∀ d, d ∈ l → 0 <= d < len ps) → 0 <= t <= len ps →
  0 <= t - len (filter (λ d, d < t) l) <= len (select (λ i, i ∉ l) ps).
Proof.
  intros Hnd Hl Ht.
  pose proof (select_complement_length (λ i, i ∈ l) (take (Z.to_nat t) ps)) as Hc.
  rewrite (count_below l ps (Z.to_nat t)) in Hc by (done || (unfold len in Ht; lia)).
  rewrite Z2Nat.id in Hc by lia. rewrite length_take in Hc.
  assert (length (select (λ i, i ∉ l) (take (Z.to_nat t) ps))
          ≤ length (select (λ i, i ∉ l) ps))%nat as Hle.
  { rewrite <-(take_drop (Z.to_nat t) ps) at 2. rewrite select_app, length_app. lia. }
  unfold len in *. lia.
Qed.

Lemma move_pages_run v page_indices target_idx :
  page_indices ≠ [] → NoDup page_indices →
  (∀ i, i ∈ page_indices → 0 <= i < len (pages v)) →
  0 <= target_idx <= len (pages v) →
  let kept := select (λ i, i ∉ page_indices) (pages v) in
  let moved := select (λ i, i ∈ page_indices) (pages v) in
  let k := target_idx - len (filter (λ d, d < target_idx) page_indices) in
  move_pages page_indices target_idx v =
  (set_selected_pages (list_to_set (py_range k (k + len moved)))
     (set_pages (take (Z.to_nat k) kept ++ moved ++ drop (Z.to_nat k) kept) v),
   Ok true).
Proof.
  intros Hne Hnd Hvalid Ht kept moved k. unfold move_pages.
  rewrite bool_decide_eq_false_2 by done.
  rewrite (bind_returns _ _ v v v) by done.
  rewrite bool_decide_eq_false_2.
  2: { rewrite Exists_exists. intros (i & Hi & Hbad).
       unfold py_sorted_list in Hi. rewrite merge_sort_Permutation in Hi.
       apply Hvalid in Hi. lia. }
  assert ((target_idx <? 0) || (len (pages v) <? target_idx) = false) as -> by lia.
  rewrite (py_sorted_list_range page_indices (len (pages v))) by done.
  rewrite (bind_returns _ _ v v moved) by (unfold lift_res; by rewrite items_at_select).
  assert (reverse (filter (λ i, i ∈ page_indices) (py_range 0 (len (pages v))))
          = py_sorted_reverse page_indices) as ->.
  { unfold py_sorted_reverse. f_equal. symmetry. by apply py_sorted_list_range. }
  assert (extract (py_sorted_reverse page_indices) [] (pages v) = Ok (kept, moved ++ [])) as Hex.
  { rewrite extract_descending.
    - do 2 f_equal; [|f_equal]; apply select_ext; intros i _;
        by rewrite elem_of_py_sorted_reverse.
    - by apply py_sorted_reverse_descending.
    - intros d Hd. rewrite elem_of_py_sorted_reverse in Hd. by apply Hvalid. }
  erewrite bind_returns by (by eapply pop_loop).
  assert (len (filter (λ idx, idx < target_idx)
                 (filter (λ i, i ∈ page_indices) (py_range 0 (len (pages v))))) =
          len (filter (λ d, d < target_idx) page_indices)) as ->.
  { rewrite <-(py_sorted_list_range page_indices) by done.
    unfold len. f_equal. apply Permutation_length, filter_Permutation.
    unfold py_sorted_list. by rewrite merge_sort_Permutation. }
  fold k.
  erewrite bind_returns by apply modify_loop.
  cbv beta. rewrite (insert_loop _ k). simpl.
  rewrite insert_block by (by apply adjusted_target_bounds).
  done.
Qed.

End move_pages.

(** X12: [move_pages] of a list of page indices that is not empty, holds
    no index twice and only indices of pages, to a target from [0] to the
    page count: it returns [True]; the pages that stay keep their order
    and the pages moved, in their order, are put in as one block after the
    first [k] of them, [k] being the target less the number of moved
    pages before it; the selection becomes the indices of the block; the
    marks are left as they were, on their old indices.  With an empty
    list, an index that is not of a page, or a target out of range, it
    returns [False] and changes nothing. *)
Theorem move_pages_spec (v : PdfViewer.t) (page_indices : list Z) (target_idx : Z) :
  page_indices ≠ [] → NoDup page_indices →
  (∀ i, i ∈ page_indices → 0 <= i < len (PdfViewer.pages v)) →
  0 <= target_idx <= len (PdfViewer.pages v) →
  let r := PdfViewer.move_pages page_indices target_idx v in
  let kept := select (λ i, i ∉ page_indices) (PdfViewer.pages v) in
  let moved := select (λ i, i ∈ page_indices) (PdfViewer.pages v) in
  let k := target_idx - len (filter (λ d, d < target_idx) page_indices) in
  r.2 = Ok true ∧
  0 <= k <= len kept ∧
  PdfViewer.pages r.1 = take (Z.to_nat k) kept ++ moved ++ drop (Z.to_nat k) kept ∧
  PdfViewer.pages r.1 ≡ₚ PdfViewer.pages v ∧
  PdfViewer.selected_pages r.1 = list_to_set (py_range k (k + len moved)) ∧
  PdfViewer.marked_pages r.1 = PdfViewer.marked_pages v ∧
  (∀ v0 l t,
     l = [] ∨ (∃ i, i ∈ l ∧ (i < 0 ∨ len (PdfViewer.pages v0) <= i)) ∨
     t < 0 ∨ len (PdfViewer.pages v0) < t →
     PdfViewer.move_pages l t v0 = (v0, Ok false)).
Proof.
  intros Hne Hnd Hvalid Ht r kept moved k.
  unfold r. rewrite move_pages_run by done. fold kept moved k. simpl.
  split; [done|]. split; [by apply adjusted_target_bounds|].
  split; [done|]. split; [|split; [done|split; [done|]]].
  - rewrite Permutation_app_swap_app, take_drop.
    apply (select_complement (λ i, i ∈ page_indices)).
  - intros v0 l t Hbad. unfold PdfViewer.move_pages.
    destruct (decide (l = [])) as [->|Hl]; [done|].
    rewrite bool_decide_eq_false_2 by done.
    rewrite (bind_returns _ _ v0 v0 v0) by done.
    case_bool_decide as Hex; [done|].
    destruct Hbad as [?|[(i & Hi & Hbad)|Hbad]]; [done| |].
    + destruct Hex. apply Exists_exists. exists i. split; [|done].
      unfold py_sorted_list. by rewrite merge_sort_Permutation.
    + assert ((t <? 0) || (len (PdfViewer.pages v0) <? t) = true) as -> by lia.
      done.
Qed.

Lemma move_pages_spec_witness :
  (PdfViewer.move_pages [0] 3
     (PdfViewer.mk [(0, 0); (0, 1); (0, 2)] ∅ ∅ 100 None)).2 = Ok true.
Proof.
  refine (proj1 (move_pages_spec
    (PdfViewer.mk [(0, 0); (0, 1); (0, 2)] ∅ ∅ 100 None) [0] 3 _ _ _ _)).
  - discriminate.
  - apply NoDup_singleton.
  - intros i ->%list_elem_of_singleton. vm_compute. split; [discriminate|reflexivity].
  - vm_compute. split; discriminate.
Defined.

(** An index given twice takes the next page out with it and puts the
    first one in twice. *)
Example move_pages_twice :
  (PdfViewer.move_pages [0; 0] 2 (PdfViewer.mk [(0, 0); (0, 1); (0, 2)] ∅ ∅ 100 None))
  = (PdfViewer.mk [(0, 0); (0, 0); (0, 2)] {[0; 1]} ∅ 100 None, Ok true).
Proof. vm_compute. reflexivity. Qed.

(** ** The viewer's selection *)

Section selection.
Import PdfViewer.

Lemma set_selected_pages_same v : set_selected_pages (selected_pages v) v = v.
Proof. by destruct v. Qed.

(** The loop of [select_range]. *)
Lemma select_range_loop (l : list Z) v :
  for_each l
    (λ idx,
       v ← gets id;
       when ((0 <=? idx) && (idx <? len (pages v)))
            (modify (set_selected_pages (selected_pages v ∪ {[idx]})))) v
  = (set_selected_pages
       (selected_pages v ∪ list_to_set (filter (λ idx, 0 <= idx < len (pages v)) l)) v,
     Ok ()).
Proof.
  revert v. induction l as [|i l IH]; intros v.
  { cbn [for_each]. rewrite filter_nil, list_to_set_nil, (right_id_L ∅ (∪)).
    by rewrite set_selected_pages_same. }
  cbn [for_each]. unfold_monad. unfold id, ret in *. rewrite filter_cons.
  destruct (decide (0 <= i < len (pages v))) as [Hi|Hi].
  - replace ((0 <=? i) && (i <? len (pages v))) with true by lia.
    rewrite IH. f_equal. destruct v. unfold set_selected_pages.
    cbn [pages selected_pages marked_pages current_zoom section_manager]. f_equal.
    rewrite list_to_set_cons. by rewrite (assoc_L (∪)).
  - replace ((0 <=? i) && (i <? len (pages v))) with false by lia.
    rewrite IH. done.
Qed.

(** The pages [select_all] leaves out: the ones of the first special
    section, when a section manager is plugged in. *)
Definition left_out (v : t) (i : Z) : Prop :=
  match section_manager v with
  | Some sections =>
      match list_find (λ s, SectionManager.is_special s = true) sections with
      | Some (_, section) =>
          SectionManager.start_page section <= i <
          SectionManager.start_page section + SectionManager.page_count section
      | None => False
      end
  | None => False
  end.

Lemma elem_of_range_set a b i : i ∈ (list_to_set (py_range a b) : gset Z) ↔ a <= i < b.
Proof.
  rewrite elem_of_list_to_set. split; [apply elem_of_py_range|apply elem_of_py_range_2].
Qed.

Lemma select_all_run v :
  ∃ s : gset Z, select_all v = (set_selected_pages s v, Ok ()) ∧
    ∀ i, i ∈ s ↔ 0 <= i < len (pages v) ∧ ¬ left_out v i.
Proof.
  unfold select_all, left_out. rewrite (bind_returns _ _ v v v) by done.
  destruct (section_manager v) as [sections|].
  - eexists. split; [done|]. intros i. rewrite elem_of_difference, elem_of_range_set.
    destruct (list_find _ sections) as [[? section]|].
    + by rewrite elem_of_range_set.
    + rewrite elem_of_empty. done.
  - eexists. split; [done|]. intros i. rewrite elem_of_range_set. tauto.
Qed.

End selection.

(** X13: [select_range] never raises and adds to the selection exactly
    the indices from the smaller to the larger of its two arguments that
    are indices of pages; the order of the arguments makes no difference,
    and nothing but the selection changes. *)
Theorem select_range_spec (v : PdfViewer.t) (start_idx end_idx : Z) :
  let r := PdfViewer.select_range start_idx end_idx v in
  r.2 = Ok () ∧
  PdfViewer.set_selected_pages (PdfViewer.selected_pages v) r.1 = v ∧
  (∀ i, i ∈ PdfViewer.selected_pages r.1 ↔
        i ∈ PdfViewer.selected_pages v ∨
        (Z.min start_idx end_idx <= i <= Z.max start_idx end_idx ∧
         0 <= i < len (PdfViewer.pages v))) ∧
  PdfViewer.select_range end_idx start_idx v = r.
Proof.
  cbv zeta. unfold PdfViewer.select_range. rewrite !select_range_loop.
  rewrite (Z.min_comm end_idx), (Z.max_comm end_idx). simpl.
  split_and!; [done|by destruct v| |done].
  intros i. rewrite elem_of_union, elem_of_list_to_set, list_elem_of_filter.
  split; (intros [?|[? Hi]]; [by left|right]).
  - apply elem_of_py_range in Hi. split; [lia|done].
  - split; [done|]. apply elem_of_py_range_2. lia.
Qed.

(** X14: [select_all] never raises and selects the indices of all
    pages but the ones of the first special section.  [toggle_selection]
    empties a selection that is not empty and calls [select_all] on an
    empty one, so two toggles in a row leave an empty selection empty and
    turn any other selection into the one [select_all] makes. *)
Theorem toggle_selection_twice (v : PdfViewer.t) :
  let all := PdfViewer.select_all v in
  let r := (PdfViewer.toggle_selection;; PdfViewer.toggle_selection) v in
  all.2 = Ok () ∧
  (∀ i, i ∈ PdfViewer.selected_pages all.1 ↔
        0 <= i < len (PdfViewer.pages v) ∧ ¬ left_out v i) ∧
  r.2 = Ok () ∧
  PdfViewer.selected_pages r.1 =
    (if bool_decide (PdfViewer.selected_pages v = ∅) then ∅
     else PdfViewer.selected_pages all.1).
Proof.
  cbv zeta. destruct (select_all_run v) as (s & Hall & Hs). rewrite Hall. simpl.
  split; [done|]. split; [done|].
  assert (∀ u, PdfViewer.selected_pages u ≠ ∅ →
            PdfViewer.toggle_selection u = (PdfViewer.set_selected_pages ∅ u, Ok ())) as Hclear.
  { intros u Hu. unfold PdfViewer.toggle_selection.
    rewrite (bind_returns _ _ u u u) by done. by rewrite bool_decide_eq_true_2. }
  assert (∀ u, PdfViewer.selected_pages u = ∅ →
            PdfViewer.toggle_selection u = PdfViewer.select_all u) as Hfill.
  { intros u Hu. unfold PdfViewer.toggle_selection.
    rewrite (bind_returns _ _ u u u) by done.
    rewrite bool_decide_eq_false_2; [done|]. by intros []. }
  case_bool_decide as Hv.
  - erewrite bind_returns by (rewrite Hfill by done; apply Hall).
    destruct (decide (s = ∅)) as [->|Hne].
    + rewrite Hfill by done.
      destruct (select_all_run (PdfViewer.set_selected_pages ∅ v)) as (s' & -> & Hs').
      simpl. split; [done|]. apply set_eq. intros i. rewrite Hs', elem_of_empty.
      split; [|done]. intros Hi. apply (not_elem_of_empty (C:=gset Z) i), Hs.
      by destruct v.
    + rewrite Hclear by done. done.
  - erewrite bind_returns by (by apply Hclear).
    rewrite Hfill by done.
    destruct (select_all_run (PdfViewer.set_selected_pages ∅ v)) as (s' & -> & Hs').
    simpl. split; [done|]. apply set_eq. intros i. rewrite Hs', Hs. by destruct v.
Qed.

(** ** The section manager *)

Section sections.
Import SectionManager.

Variable _split_base_number : string → res (string * option Z).
Variable strip : string → string.

(** Sections that follow one another from page [p] on, none of them of
    negative length. *)
Fixpoint tiled_from (p : Z) (sections : list Section) : Prop :=
  match sections with
  | [] => True
  | s :: rest => start_page s = p ∧ 0 <= page_count s ∧ tiled_from (end_page s) rest
  end.

Definition total_pages (sections : list Section) : Z :=
  foldr (λ s n, page_count s + n) 0 sections.

Lemma total_pages_app l1 l2 : total_pages (l1 ++ l2) = total_pages l1 + total_pages l2.
Proof. induction l1 as [|s l1 IH]; simpl; [done|]. rewrite IH. lia. Qed.

Lemma total_pages_nonneg p l : tiled_from p l → 0 <= total_pages l.
Proof.
  revert p. induction l as [|s l IH]; intros p; simpl; [done|].
  intros (_ & ? & Ht). specialize (IH _ Ht). lia.
Qed.

Lemma tiled_from_app p l1 l2 :
  tiled_from p (l1 ++ l2) ↔ tiled_from p l1 ∧ tiled_from (p + total_pages l1) l2.
Proof.
  revert p. induction l1 as [|s l1 IH]; intros p; simpl.
  - rewrite Z.add_0_r. tauto.
  - rewrite IH. unfold end_page.
    split.
    + intros (<- & ? & ? & Ht). split_and!; try done.
      by rewrite Z.add_assoc.
    + intros ((<- & ? & ?) & Ht). split_and!; try done.
      by rewrite Z.add_assoc in Ht.
Qed.

Lemma find_split {A} (P : A → Prop) `{!∀ x, Decision (P x)} (l : list A) i x :
  list_find P l = Some (i, x) →
  ∃ l1 l2, l = l1 ++ x :: l2 ∧ length l1 = i ∧ Forall (λ y, ¬ P y) l1 ∧ P x.
Proof.
  intros (Hx & HP & Hfirst)%list_find_Some.
  exists (take i l), (drop (S i) l). split_and!; [|..|done].
  - by rewrite take_drop_middle.
  - rewrite length_take. apply lookup_lt_Some in Hx. lia.
  - apply Forall_forall. intros y Hy.
    apply list_elem_of_lookup in Hy as [j Hj].
    pose proof (lookup_lt_Some _ _ _ Hj) as Hlt. rewrite length_take in Hlt.
    rewrite lookup_take_lt in Hj by lia. eapply Hfirst; [done|lia].
Qed.

Lemma find_middle {A} (P : A → Prop) `{!∀ x, Decision (P x)} (l1 l2 : list A) x :
  Forall (λ y, ¬ P y) l1 → P x → list_find P (l1 ++ x :: l2) = Some (length l1, x).
Proof.
  intros Hl1 Hx. rewrite list_find_app_r by (by apply list_find_None).
  simpl. rewrite decide_True by done. done.
Qed.

Lemma get_section_at_Exists l q :
  is_Some (get_section_at l q) ↔ Exists (contains q) l.
Proof.
  unfold get_section_at. rewrite fmap_is_Some. split.
  - intros [[i s] (Hs & Hc & _)%list_find_Some]. apply Exists_exists.
    exists s. split; [|done]. by eapply list_elem_of_lookup_2.
  - intros Hex. destruct (list_find (contains q) l) eqn:E; [done|].
    apply list_find_None in E. apply Exists_exists in Hex as (s & Hs & Hc).
    rewrite Forall_forall in E. by destruct (E s Hs).
Qed.

(** Tiled sections hold a page when it lies in their range, and then in
    one of them only. *)
Lemma tiled_from_contains p l q s :
  tiled_from p l → s ∈ l → contains q s → p <= q < p + total_pages l.
Proof.
  revert p. induction l as [|s' l IH]; intros p Ht Hs Hc; [by apply elem_of_nil in Hs|].
  simpl in *. destruct Ht as (<- & Hn & Ht).
  pose proof (total_pages_nonneg _ _ Ht).
  apply elem_of_cons in Hs as [->|Hs].
  - unfold contains, end_page in Hc. lia.
  - specialize (IH _ Ht Hs Hc). unfold end_page in IH. lia.
Qed.

Lemma tiled_from_covers p l q :
  tiled_from p l → p <= q < p + total_pages l → Exists (contains q) l.
Proof.
  revert p. induction l as [|s l IH]; intros p Ht Hq; simpl in *; [lia|].
  destruct Ht as (<- & Hn & Ht).
  destruct (decide (q < end_page s)) as [Hlt|Hge].
  - left. unfold contains. lia.
  - right. apply (IH _ Ht). unfold end_page in *. lia.
Qed.

Lemma tiled_from_once p l q i j s s' :
  tiled_from p l → l !! i = Some s → l !! j = Some s' →
  contains q s → contains q s' → i = j.
Proof.
  revert p i j. induction l as [|x l IH]; intros p i j Ht Hi Hj Hc Hc'; [done|].
  simpl in Ht. destruct Ht as (<- & Hn & Ht).
  destruct i as [|i], j as [|j]; simpl in *.
  - done.
  - injection Hi as ->.
    pose proof (tiled_from_contains _ _ q s' Ht (list_elem_of_lookup_2 _ _ _ Hj) Hc').
    unfold contains in Hc. lia.
  - injection Hj as ->.
    pose proof (tiled_from_contains _ _ q s Ht (list_elem_of_lookup_2 _ _ _ Hi) Hc).
    unfold contains in Hc'. lia.
  - f_equal. by eapply IH.
Qed.

(** *** split_section and merge_section_up *)

Hypothesis titles_parse : ∀ s, is_ok (_split_base_number s) = true.

Lemma existing_nums_ok base l :
  ∃ nums, existing_nums _split_base_number base l = Ok nums.
Proof using Type*.
  induction l as [|s l [nums IH]]; simpl; [by eexists|].
  pose proof (titles_parse (title s)) as Hs.
  destruct (_split_base_number (title s)) as [[b n]|]; [|done].
  rewrite IH. by eexists.
Qed.

Lemma generate_next_title_ok base l :
  ∃ t, _generate_next_title _split_base_number strip base l = (l, Ok t).
Proof using Type*.
  unfold _generate_next_title.
  rewrite (bind_returns _ _ l l l) by done.
  destruct (existing_nums_ok (or_resultado (strip base)) l) as [nums Hn].
  rewrite (bind_returns _ _ l l nums) by (unfold lift_res; by rewrite Hn).
  case_bool_decide; by eexists.
Qed.

(** The section a split makes. *)
Definition split_off (page_index : Z) (original : Section) (new_title : string) : Section :=
  mkSection ("sec_" +:+ pretty page_index) new_title page_index
            (end_page original - page_index) None false.

Lemma split_section_run l1 l2 original page_index new_title base_name :
  Forall (λ s, ¬ contains page_index s) l1 → contains page_index original →
  page_index ≠ start_page original →
  ∃ t, (∀ given, new_title = Some given → t = given) ∧
    split_section _split_base_number strip page_index new_title base_name
      (l1 ++ original :: l2)
    = (l1 ++ set_page_count (page_index - start_page original) original
          :: split_off page_index original t :: l2, Ok ()).
Proof using Type*.
  intros Hl1 Hc Hne. unfold split_section.
  rewrite (bind_returns _ _ _ _ (l1 ++ original :: l2)) by done.
  rewrite find_middle by done.
  rewrite bool_decide_eq_false_2 by done.
  set (shrunk := set_page_count (page_index - start_page original) original).
  assert (<[length l1 := shrunk]> (l1 ++ original :: l2) = l1 ++ shrunk :: l2) as Hins.
  { rewrite <-(Nat.add_0_r (length l1)), insert_app_r. done. }
  rewrite (bind_returns _ _ _ (l1 ++ shrunk :: l2) ()) by (unfold modify; by rewrite Hins).
  match goal with |- context [lift_res (_split_base_number ?named)] =>
    pose proof (titles_parse named) as Hp;
    destruct (_split_base_number named) as [parsed|] eqn:Hparsed; [|done] end.
  rewrite (bind_returns _ _ _ (l1 ++ shrunk :: l2) parsed) by done.
  assert (take (S (length l1)) (l1 ++ shrunk :: l2) = l1 ++ [shrunk]) as Htake.
  { rewrite take_app_ge by lia. replace (S (length l1) - length l1)%nat with 1%nat by lia.
    done. }
  assert (drop (S (length l1)) (l1 ++ shrunk :: l2) = l2) as Hdrop.
  { rewrite drop_app_ge by lia. replace (S (length l1) - length l1)%nat with 1%nat by lia.
    done. }
  assert (page_count original - (page_index - start_page original)
          = end_page original - page_index) as Hcount by (unfold end_page; lia).
  destruct new_title as [given|].
  - exists given. split; [by intros ? [= ->]|].
    rewrite (bind_returns _ _ _ (l1 ++ shrunk :: l2) given) by done.
    unfold modify. rewrite Htake, Hdrop, Hcount, <-app_assoc. done.
  - destruct (generate_next_title_ok parsed.1 (l1 ++ shrunk :: l2)) as [t Ht].
    exists t. split; [done|].
    rewrite (bind_returns _ _ _ _ _ Ht).
    unfold modify. rewrite Htake, Hdrop, Hcount, <-app_assoc. done.
Qed.

Lemma set_page_count_same s : set_page_count (page_count s) s = s.
Proof. by destruct s. Qed.

Lemma merge_section_up_run l1 l2 prev curr :
  merge_section_up (len l1 + 1) (l1 ++ prev :: curr :: l2)
  = (l1 ++ set_page_count (page_count prev + page_count curr) prev :: l2, Ok ()).
Proof.
  unfold merge_section_up.
  rewrite (bind_returns _ _ _ _ (l1 ++ prev :: curr :: l2)) by done.
  assert (len (l1 ++ prev :: curr :: l2) = len l1 + 2 + len l2) as Hlen.
  { unfold len. rewrite length_app. simpl. lia. }
  pose proof (len_nonneg l1) as H0. pose proof (len_nonneg l2) as H2.
  assert ((len l1 + 1 <=? 0) || (len (l1 ++ prev :: curr :: l2) <=? len l1 + 1) = false)
    as -> by (apply orb_false_iff; split; apply Z.leb_gt; lia).
  assert (py_index (l1 ++ prev :: curr :: l2) (len l1 + 1 - 1) = Ok prev) as Hprev.
  { apply py_index_lookup; [lia|].
    replace (Z.to_nat (len l1 + 1 - 1)) with (length l1 + 0)%nat by (unfold len; lia).
    by rewrite lookup_app_r, Nat.add_comm, Nat.add_sub by lia. }
  assert (py_index (l1 ++ prev :: curr :: l2) (len l1 + 1) = Ok curr) as Hcurr.
  { apply py_index_lookup; [lia|].
    replace (Z.to_nat (len l1 + 1)) with (length l1 + 1)%nat by (unfold len; lia).
    by rewrite lookup_app_r, Nat.add_comm, Nat.add_sub by lia. }
  rewrite (bind_returns _ _ _ (l1 ++ prev :: curr :: l2) prev)
    by (unfold lift_res; by rewrite Hprev).
  rewrite (bind_returns _ _ _ (l1 ++ prev :: curr :: l2) curr)
    by (unfold lift_res; by rewrite Hcurr).
  set (merged := set_page_count (page_count prev + page_count curr) prev).
  assert (<[Z.to_nat (len l1 + 1 - 1) := merged]> (l1 ++ prev :: curr :: l2)
          = l1 ++ merged :: curr :: l2) as Hins.
  { replace (Z.to_nat (len l1 + 1 - 1)) with (length l1 + 0)%nat by (unfold len; lia).
    by rewrite insert_app_r. }
  rewrite (bind_returns _ _ _ (l1 ++ merged :: curr :: l2) ())
    by (unfold modify; by rewrite Hins).
  rewrite (bind_returns _ _ _ _ (l1 ++ merged :: curr :: l2)) by done.
  assert (py_del (l1 ++ merged :: curr :: l2) (len l1 + 1) = Ok (l1 ++ merged :: l2)) as Hdel.
  { rewrite py_del_ok.
    - f_equal. replace (Z.to_nat (len l1 + 1)) with (length l1 + 1)%nat by (unfold len; lia).
      clear. induction l1 as [|x l1 IH]; simpl; [done|]. by rewrite IH.
    - unfold len in *. rewrite length_app. simpl. lia. }
  rewrite (bind_returns _ _ _ (l1 ++ merged :: curr :: l2) (l1 ++ merged :: l2))
    by (unfold lift_res; by rewrite Hdel).
  done.
Qed.

Lemma set_page_count_twice n m s : set_page_count n (set_page_count m s) = set_page_count n s.
Proof. done. Qed.

(** What a split leaves, for a page inside a section and not at its
    start. *)
Lemma split_section_facts l1 l2 original page_index new_title base_name :
  Forall (λ s, ¬ contains page_index s) l1 → contains page_index original →
  page_index ≠ start_page original →
  let sections := l1 ++ original :: l2 in
  let shrunk := set_page_count (page_index - start_page original) original in
  ∃ new,
    split_section _split_base_number strip page_index new_title base_name sections
      = (l1 ++ shrunk :: new :: l2, Ok ()) ∧
    new = split_off page_index original (title new) ∧
    (∀ given, new_title = Some given → title new = given) ∧
    get_section_at (l1 ++ shrunk :: new :: l2) page_index = Some new ∧
    (∀ q, is_Some (get_section_at (l1 ++ shrunk :: new :: l2) q)
          ↔ is_Some (get_section_at sections q)) ∧
    (∀ p, tiled_from p sections → tiled_from p (l1 ++ shrunk :: new :: l2)) ∧
    total_pages (l1 ++ shrunk :: new :: l2) = total_pages sections ∧
    merge_section_up (len l1 + 1) (l1 ++ shrunk :: new :: l2) = (sections, Ok ()).
Proof using Type*.
  intros Hl1 Hc Hne sections shrunk.
  destruct (split_section_run l1 l2 original page_index new_title base_name Hl1 Hc Hne)
    as (t & Ht & Hrun).
  exists (split_off page_index original t). fold shrunk in Hrun.
  unfold contains, end_page in Hc.
  split_and!; [done|done|done|..].
  - unfold get_section_at.
    rewrite (cons_middle shrunk), app_assoc, find_middle; [done| |].
    + apply Forall_app. split; [done|]. apply Forall_singleton.
      unfold contains, end_page, shrunk. simpl. lia.
    + unfold contains, split_off, end_page. simpl. unfold end_page. lia.
  - intros q. rewrite !get_section_at_Exists. unfold sections.
    rewrite !Exists_app, !Exists_cons.
    assert (contains q shrunk ∨ contains q (split_off page_index original t)
            ↔ contains q original) as Hiff.
    { unfold contains, shrunk, split_off, end_page. simpl. unfold end_page. lia. }
    tauto.
  - intros p. unfold sections. rewrite !tiled_from_app. simpl.
    unfold shrunk, split_off, end_page. simpl. unfold end_page.
    intros (? & ? & ? & Ht2). split_and!; try done; try lia.
    replace (page_index + (start_page original + page_count original - page_index))
      with (start_page original + page_count original) by lia. done.
  - unfold sections. rewrite !total_pages_app. simpl. unfold end_page. lia.
  - rewrite merge_section_up_run. do 2 f_equal.
    unfold shrunk. rewrite set_page_count_twice. simpl.
    replace (page_index - start_page original + (end_page original - page_index))
      with (page_count original) by (unfold end_page; lia).
    by rewrite set_page_count_same.
Qed.

(** *** The deleted section *)

Definition deleted_after (sections : list Section) : Section :=
  mkSection "deleted" "Borrados"
    (match last sections with Some s => end_page s | None => 0 end) 0 None true.

Lemma ensure_deleted_section_run sections :
  _ensure_deleted_section sections =
  (match last sections with
   | Some s => if bool_decide (id s ≠ "deleted") then sections ++ [deleted_after sections]
               else sections
   | None => sections ++ [deleted_after sections]
   end, Ok ()).
Proof.
  unfold _ensure_deleted_section, deleted_after.
  rewrite (bind_returns _ _ _ _ sections) by done.
  destruct (last sections) as [s|]; [|done].
  by case_bool_decide.
Qed.

Lemma ensure_deleted_section_tiled p sections :
  tiled_from p sections → (sections = [] → p = 0) →
  tiled_from p (sections ++ [deleted_after sections]).
Proof.
  intros Ht Hp. apply tiled_from_app. split; [done|]. simpl. split_and!; [|done..].
  unfold deleted_after. simpl.
  destruct (last sections) as [s|] eqn:E.
  - apply last_Some in E as [l' ->]. apply tiled_from_app in Ht as [_ Ht].
    simpl in Ht. destruct Ht as (Hs & _ & _).
    rewrite total_pages_app. simpl. unfold end_page. rewrite Hs. lia.
  - apply last_None in E as ->. simpl. rewrite Hp by done. lia.
Qed.

(** *** Runs of the manager *)

Definition well_formed (o : op) : Prop :=
  match o with
  | InitializeDefault total_pages _ => 0 <= total_pages
  | _ => True
  end.

Definition keeps_pages (o : op) : Prop :=
  match o with
  | InitializeDefault _ _ => False
  | _ => True
  end.

Lemma middle_pair {A} (l : list A) (i : Z) :
  0 < i < len l → ∃ l1 a b l2, l = l1 ++ a :: b :: l2 ∧ i = len l1 + 1.
Proof.
  intros Hi. unfold len in *.
  destruct (lookup_lt_is_Some_2 l (Z.to_nat (i - 1))) as [a Ha]; [lia|].
  destruct (lookup_lt_is_Some_2 l (S (Z.to_nat (i - 1)))) as [b Hb]; [lia|].
  exists (take (Z.to_nat (i - 1)) l), a, b, (drop (S (S (Z.to_nat (i - 1)))) l).
  split.
  - rewrite <-(take_drop_middle l _ a Ha) at 1. f_equal. f_equal.
    rewrite <-(take_drop_middle l _ b Hb) at 1.
    rewrite drop_app_length'; [done|]. rewrite length_take. lia.
  - rewrite length_take. lia.
Qed.

Lemma step_tiled sections o :
  tiled_from 0 sections → well_formed o →
  let r := step _split_base_number strip sections o in
  r.2 = Ok () ∧ tiled_from 0 r.1 ∧
  (keeps_pages o → total_pages r.1 = total_pages sections).
Proof using Type*.
  intros Ht Hwf. destruct o as [n b|q new_title base_name|idx|]; simpl in *.
  - split_and!; [done|done|done|done|tauto].
  - unfold split_section. rewrite (bind_returns _ _ _ _ sections) by done.
    destruct (list_find (contains q) sections) as [[i original]|] eqn:E; [|done].
    case_bool_decide as Hq; [done|].
    pose proof E as (l1 & l2 & -> & _ & Hl1 & Hc)%find_split.
    destruct (split_section_facts l1 l2 original q new_title base_name Hl1 Hc Hq)
      as (new & Hrun & _ & _ & _ & _ & Htiled & Htotal & _).
    unfold split_section in Hrun.
    rewrite (bind_returns _ _ _ _ (l1 ++ original :: l2)) in Hrun by done.
    rewrite E in Hrun.
    rewrite bool_decide_eq_false_2 in Hrun by done. rewrite Hrun. simpl.
    split_and!; [done|by apply Htiled|done].
  - destruct (decide (0 < idx < len sections)) as [Hidx|Hidx].
    + destruct (middle_pair sections idx Hidx) as (l1 & prev & curr & l2 & -> & ->).
      rewrite merge_section_up_run. simpl.
      rewrite !tiled_from_app, !total_pages_app in *. simpl in *.
      unfold end_page in *. simpl.
      destruct Ht as (? & ? & ? & ? & ? & Ht2). split_and!; try done; try lia.
      replace (start_page prev + (page_count prev + page_count curr))
        with (start_page curr + page_count curr) by lia. done.
    + unfold merge_section_up. rewrite (bind_returns _ _ _ _ sections) by done.
      assert ((idx <=? 0) || (len sections <=? idx) = true) as ->.
      { apply orb_true_iff. destruct (decide (idx <= 0)).
        - left. by apply Z.leb_le.
        - right. apply Z.leb_le. lia. }
      done.
  - rewrite ensure_deleted_section_run. simpl.
    assert (tiled_from 0 (sections ++ [deleted_after sections]) ∧
            total_pages (sections ++ [deleted_after sections]) = total_pages sections)
      as Hadd.
    { split; [by apply ensure_deleted_section_tiled|].
      rewrite total_pages_app. simpl. lia. }
    destruct Hadd as [Ha Hb].
    destruct (last sections) as [s|]; [case_bool_decide|]; split_and!; done.
Qed.

Lemma run_tiled ops sections :
  tiled_from 0 sections → Forall well_formed ops →
  let r := run _split_base_number strip ops sections in
  r.2 = Ok () ∧ tiled_from 0 r.1 ∧
  (Forall keeps_pages ops → total_pages r.1 = total_pages sections).
Proof using Type*.
  revert sections. induction ops as [|o ops IH]; intros sections Ht Hwf; [done|].
  apply Forall_cons in Hwf as [Ho Hwf].
  destruct (step_tiled sections o Ht Ho) as (Hok & Ht' & Hkeep).
  unfold run in *. cbn [for_each]. unfold bind.
  destruct (step _ _ sections o) as [sections' r'] eqn:E. simpl in *. subst r'.
  destruct (IH sections' Ht' Hwf) as (? & ? & Htot). split_and!; [done..|].
  intros [Hk Hks]%Forall_cons. rewrite Htot by done. by apply Hkeep.
Qed.

End sections.

(** X15: [split_section] at a page that lies in a section and is not
    its first page, when the titles can be parsed: it returns; the section
    found is cut down to the pages before [page_index] and a new section
    [sec_<page_index>] with the rest of its pages is put right after it;
    the new section is the one [get_section_at] then finds for
    [page_index]; the pages that belong to some section are the same as
    before, and so is their number; sections that follow one another
    still do; [merge_section_up] of the new section gives back the list
    as it was.  At a page in no section, or at the first page of its
    section, nothing changes. *)
Theorem split_section_spec
    (_split_base_number : string → res (string * option Z)) (strip : string → string)
    (sections : SectionManager.t) (page_index : Z) (new_title base_name : option string)
    (i : nat) (original : SectionManager.Section) :
  (∀ s, is_ok (_split_base_number s) = true) →
  list_find (SectionManager.contains page_index) sections = Some (i, original) →
  page_index ≠ SectionManager.start_page original →
  let split := SectionManager.split_section _split_base_number strip in
  let r := split page_index new_title base_name sections in
  let shrunk :=
    SectionManager.set_page_count (page_index - SectionManager.start_page original)
      original in
  r.2 = Ok () ∧
  (∃ new,
     r.1 = take i sections ++ shrunk :: new :: drop (S i) sections ∧
     new = split_off page_index original (SectionManager.title new) ∧
     (∀ given, new_title = Some given → SectionManager.title new = given) ∧
     SectionManager.get_section_at r.1 page_index = Some new) ∧
  (∀ q, is_Some (SectionManager.get_section_at r.1 q)
        ↔ is_Some (SectionManager.get_section_at sections q)) ∧
  total_pages r.1 = total_pages sections ∧
  (∀ p, tiled_from p sections → tiled_from p r.1) ∧
  SectionManager.merge_section_up (Z.of_nat i + 1) r.1 = (sections, Ok ()) ∧
  (∀ sections0 q,
     SectionManager.get_section_at sections0 q = None ∨
     (∃ s, SectionManager.get_section_at sections0 q = Some s ∧
           SectionManager.start_page s = q) →
     split q new_title base_name sections0 = (sections0, Ok ())).
Proof.
  intros Hparse Hfind Hne split r shrunk.
  destruct (find_split _ _ _ _ Hfind) as (l1 & l2 & -> & <- & Hl1 & Hc).
  destruct (split_section_facts _split_base_number strip Hparse l1 l2 original page_index
              new_title base_name Hl1 Hc Hne)
    as (new & Hrun & Hnew & Htitle & Hat & Hcover & Htiled & Htotal & Hmerge).
  unfold r, split. rewrite Hrun. simpl. fold shrunk.
  rewrite take_app_length. rewrite (cons_middle original), app_assoc.
  replace (S (length l1)) with (length (l1 ++ [original])) by (rewrite length_app; simpl; lia).
  rewrite drop_app_length, <-app_assoc. simpl.
  split_and!; [done|by exists new|done|done|done|done|].
  intros sections0 q Hq. unfold SectionManager.split_section.
  rewrite (bind_returns _ _ _ _ sections0) by done.
  unfold SectionManager.get_section_at in Hq.
  destruct (list_find (SectionManager.contains q) sections0) as [[j s]|]; [|done].
  destruct Hq as [[=]|(s' & [= <-] & Hs)].
  by rewrite bool_decide_eq_true_2.
Qed.

Lemma split_section_spec_witness :
  (SectionManager.split_section (λ s, Ok (s, None)) (λ s, s) 4 None None
     [SectionManager.mkSection "default" "doc" 0 10 None false]).2 = Ok ().
Proof.
  refine (proj1 (split_section_spec (λ s, Ok (s, None)) (λ s, s)
    [SectionManager.mkSection "default" "doc" 0 10 None false] 4 None None 0
    (SectionManager.mkSection "default" "doc" 0 10 None false) _ _ _)).
  - reflexivity.
  - vm_compute. reflexivity.
  - vm_compute. discriminate.
Defined.

(** X16: a manager whose sections follow one another from page [0]
    on, none of negative length, keeps them so through any run of
    [initialize_default] (with a page total that is not negative),
    [split_section], [merge_section_up] and [_ensure_deleted_section],
    when the titles can be parsed; every operation returns.  Afterwards
    [get_section_at] finds a section exactly for the pages from [0] to the
    sum of the page counts, no page lies in two sections, and without an
    [initialize_default] that sum is the one before the run. *)
Theorem sections_stay_tiled
    (_split_base_number : string → res (string * option Z)) (strip : string → string)
    (ops : list SectionManager.op) (sections : SectionManager.t) :
  (∀ s, is_ok (_split_base_number s) = true) →
  tiled_from 0 sections → Forall well_formed ops →
  let r := SectionManager.run _split_base_number strip ops sections in
  r.2 = Ok () ∧ tiled_from 0 r.1 ∧
  (∀ q, is_Some (SectionManager.get_section_at r.1 q) ↔ 0 <= q < total_pages r.1) ∧
  (∀ q j k s s', r.1 !! j = Some s → r.1 !! k = Some s' →
                 SectionManager.contains q s → SectionManager.contains q s' → j = k) ∧
  (Forall keeps_pages ops → total_pages r.1 = total_pages sections).
Proof.
  intros Hparse Ht Hwf r.
  destruct (run_tiled _split_base_number strip Hparse ops sections Ht Hwf)
    as (Hok & Ht' & Htot).
  fold r in Hok, Ht', Htot. split_and!; [done|done| | |done].
  - intros q. rewrite get_section_at_Exists. split.
    + intros (s & Hs & Hc)%Exists_exists.
      by apply (tiled_from_contains 0 r.1 q s).
    + intros Hq. by apply (tiled_from_covers 0).
  - intros q j k s s'. by apply (tiled_from_once 0 r.1 q).
Qed.

Lemma sections_stay_tiled_witness :
  (SectionManager.run (λ s, Ok (s, None)) (λ s, s)
     [SectionManager.InitializeDefault 10 "doc"; SectionManager.SplitSection 4 None None;
      SectionManager.EnsureDeletedSection; SectionManager.MergeSectionUp 1]
     SectionManager.init).2 = Ok ().
Proof.
  refine (proj1 (sections_stay_tiled (λ s, Ok (s, None)) (λ s, s)
    [SectionManager.InitializeDefault 10 "doc"; SectionManager.SplitSection 4 None None;
     SectionManager.EnsureDeletedSection; SectionManager.MergeSectionUp 1]
    SectionManager.init _ _ _)).
  - reflexivity.
  - exact I.
  - repeat constructor. vm_compute. discriminate.
Defined.

Example sections_run :
  (λ s, (SectionManager.title s, SectionManager.start_page s, SectionManager.page_count s))
  <$> (SectionManager.run (λ s, Ok (s, None)) (λ s, s)
         [SectionManager.InitializeDefault 10 "doc"; SectionManager.SplitSection 4 None None;
          SectionManager.EnsureDeletedSection]
         SectionManager.init).1
  = [("doc", 0, 4); ("doc_2", 4, 6); ("Borrados", 10, 0)]%string.
Proof. vm_compute. reflexivity. Qed.

(** X17: [get_deleted_section] never raises: it returns the last
    section, whose id is [deleted], appending a new empty special section
    that starts where the last one ends (at [0] in an empty manager) when
    the last section has another id.  A second call changes nothing and
    returns the same section, and the sections to save are the same
    before and after. *)
Theorem get_deleted_section_spec (sections : SectionManager.t) :
  let r := SectionManager.get_deleted_section sections in
  ∃ s, r.2 = Ok s ∧ SectionManager.id s = "deleted"%string ∧ last r.1 = Some s ∧
    (r.1 = sections ∨ (r.1 = sections ++ [s] ∧ s = deleted_after sections)) ∧
    SectionManager.get_deleted_section r.1 = (r.1, Ok s) ∧
    SectionManager.get_saveable_sections r.1 = SectionManager.get_saveable_sections sections ∧
    (∀ p, tiled_from p sections → (sections = [] → p = 0) → tiled_from p r.1).
Proof.
  assert (∀ (l : list SectionManager.Section) a, py_index (l ++ [a]) (-1) = Ok a) as Hidx.
  { intros l a. unfold py_index. rewrite length_app. simpl.
    replace (-1 + Z.of_nat (length l + 1)) with (Z.of_nat (length l)) by lia.
    replace (0 <=? Z.of_nat (length l)) with true by (symmetry; apply Z.leb_le; lia).
    replace (Z.of_nat (length l) <? Z.of_nat (length l + 1)) with true
      by (symmetry; apply Z.ltb_lt; lia).
    simpl. by rewrite Nat2Z.id, list_lookup_middle. }
  assert (∀ l s, last l = Some s → SectionManager.id s = "deleted"%string →
            SectionManager.get_deleted_section l = (l, Ok s)) as Hlast.
  { intros l s Hl Hid. unfold SectionManager.get_deleted_section.
    erewrite bind_returns by apply ensure_deleted_section_run.
    rewrite Hl, bool_decide_eq_false_2 by (by intros []).
    rewrite (bind_returns _ _ _ _ l) by done.
    apply last_Some in Hl as [l' ->]. unfold lift_res. by rewrite Hidx. }
  assert (∀ l, match last l with
               | Some s => SectionManager.id s ≠ "deleted"%string
               | None => True
               end →
            SectionManager.get_deleted_section l
            = (l ++ [deleted_after l], Ok (deleted_after l))) as Happend.
  { intros l Hl. unfold SectionManager.get_deleted_section.
    erewrite bind_returns by apply ensure_deleted_section_run.
    assert (match last l with
            | Some s => if bool_decide (SectionManager.id s ≠ "deleted"%string)
                        then l ++ [deleted_after l] else l
            | None => l ++ [deleted_after l]
            end = l ++ [deleted_after l]) as ->.
    { destruct (last l); [|done]. by rewrite bool_decide_eq_true_2. }
    rewrite (bind_returns _ _ _ _ (l ++ [deleted_after l])) by done.
    unfold lift_res. by rewrite Hidx. }
  cbv zeta.
  assert (match last sections with
          | Some s => SectionManager.id s ≠ "deleted"%string
          | None => True
          end ∨ ∃ s, last sections = Some s ∧ SectionManager.id s = "deleted"%string)
    as [Hadd|(s & E & Hid)].
  { destruct (last sections) as [s|]; [|by left].
    destruct (decide (SectionManager.id s = "deleted"%string)); [right; by exists s|by left]. }
  - rewrite (Happend _ Hadd). exists (deleted_after sections). cbn [fst snd].
    split_and!; try done.
    + apply last_snoc.
    + by right.
    + apply Hlast; [apply last_snoc|done].
    + unfold SectionManager.get_saveable_sections.
      rewrite filter_app, filter_cons_False, filter_nil, app_nil_r; [done|].
      simpl. by intros [? _].
    + intros p Ht Hp. by apply ensure_deleted_section_tiled.
  - rewrite (Hlast _ _ E Hid). exists s. simpl.
    split_and!; try done; [by left|by apply Hlast].
Qed.

(** ** The render pipeline: a failed render is asked for again *)

Section wp.
Context {S : Type}.

(** [m] returns from [s], with a result and a state that [Q] holds of. *)
Definition wp {A} (m : M S A) (Q : A → S → Prop) (s : S) : Prop :=
  ∃ a, (m s).2 = Ok a ∧ Q a (m s).1.

Lemma wp_run {A} (m : M S A) Q s s' a : m s = (s', Ok a) → Q a s' → wp m Q s.
Proof. intros E HQ. exists a. by rewrite E. Qed.

Lemma wp_ret {A} (a : A) (Q : A → S → Prop) s : Q a s → wp (mret a) Q s.
Proof. intros HQ. by exists a. Qed.

Lemma wp_gets {A} (f : S → A) (Q : A → S → Prop) s : Q (f s) s → wp (gets f) Q s.
Proof. intros HQ. by exists (f s). Qed.

Lemma wp_bind {A B} (m : M S A) (k : A → M S B) Q s :
  wp m (λ a s', wp (k a) Q s') s → wp (m ≫= k) Q s.
Proof.
  intros (a & Ha & b & Hb & HQ). exists b.
  rewrite (bind_run m k s a Ha). by split.
Qed.

Lemma wp_frame {A} (R : relation S) (m : M S A) (Q : A → S → Prop) s :
  frames R m → never_raises m →
  (∀ a s', R s s' → Q a s') → wp m Q s.
Proof.
  intros Hf Hr HQ. specialize (Hf s). specialize (Hr s). unfold wp.
  destruct (m s) as [s' [a|e]]; [|done]. exists a. split; [done|]. by apply HQ.
Qed.

Lemma wp_mono {A} (m : M S A) (Q Q' : A → S → Prop) s :
  wp m Q s → (∀ a s', Q a s' → Q' a s') → wp m Q' s.
Proof. intros (a & Ha & HQ) H. exists a. split; [done|]. by apply H. Qed.

Lemma wp_returns {A} (R : relation S) (P : S → Prop) (m : M S A) (Q : A → S → Prop) s :
  frames R m → returns_from P m → P s →
  (∀ a s', R s s' → Q a s') → wp m Q s.
Proof.
  intros Hf Hr Hs HQ. specialize (Hf s). specialize (Hr s Hs). unfold wp.
  destruct (m s) as [s' [a|e]]; [|done]. exists a. split; [done|]. by apply HQ.
Qed.

Lemma frames_and {A} (R1 R2 : relation S) (m : M S A) :
  frames R1 m → frames R2 m → frames (λ s s', R1 s s' ∧ R2 s s') m.
Proof. intros H1 H2 s. by split. Qed.

(** A loop reaches each of its items when the bodies before it return. *)
Lemma wp_for_each {A} `{EqDecision A} (P Q : S → Prop) (body : A → M S unit)
    (l : list A) x s :
  x ∈ l →
  (∀ y s, y ∈ l → P s → wp (body y) (λ _ s', P s' ∧ (y = x → Q s')) s) →
  (∀ y s, y ∈ l → Q s → wp (body y) (λ _ s', Q s') s) →
  P s → wp (for_each l body) (λ _ s', Q s') s.
Proof.
  intros Hx HP HQ.
  assert (∀ l' t, l' ⊆ l → Q t → wp (for_each l' body) (λ _ s', Q s') t) as Hany.
  { intros l'. induction l' as [|y l' IH]; intros t Hl' Ht; [by apply (wp_ret ())|].
    apply (wp_bind (body y) (λ _, for_each l' body)).
    eapply wp_mono; [apply HQ; [apply Hl'; by left|done]|].
    intros u s' Hs'. apply IH; [|done]. intros z Hz. apply Hl'. by right. }
  revert s.
  assert (∀ l', l' ⊆ l → x ∈ l' → ∀ s, P s → wp (for_each l' body) (λ _ s', Q s') s) as Hmain.
  { intros l'. induction l' as [|y l' IH]; intros Hl' Hx' s Hs; [by apply elem_of_nil in Hx'|].
    apply (wp_bind (body y) (λ _, for_each l' body)).
    eapply wp_mono; [apply HP; [apply Hl'; by left|done]|].
    intros u s' [Hs' Hy]. simpl in *.
    assert (l' ⊆ l) as Hsub by (intros z Hz; apply Hl'; by right).
    destruct (decide (y = x)) as [->|Hne].
    - apply Hany; [done|]. by apply Hy.
    - apply IH; [done| |done]. apply elem_of_cons in Hx' as [?|?]; [congruence|done]. }
  by apply Hmain.
Qed.

End wp.

Section rerequest.
Import Grid.

(** What a redraw cycle keeps: the contents shown, the layout, and the
    render pipeline but for the renders it asks for. *)
Definition keeps (g g' : t) : Prop :=
  same_on content g g' ∧ same_on layout_and_count g g' ∧ submits g g'.

Global Instance keeps_frame : RedrawFrame keeps.
Proof.
  split.
  - split.
    + intros g. split_and!; reflexivity.
    + intros g1 g2 g3 (? & ? & ?) (? & ? & ?). split_and!; by etrans.
  - intros f g. split_and!; apply frame_track.
  - intros f g. split_and!; apply frame_canvas.
  - intros f g. split_and!; apply frame_drag.
  - intros f g. split_and!; apply frame_box_images.
  - intros g. split_and!; apply frame_images.
  - intros i g. split_and!; apply frame_request.
Qed.

(** A page item in the layout with no image at the current zoom level. *)
Definition lacks (index : Z) (g : t) : Prop :=
  box_mode (data g) = false ∧
  0 <= index < len (Layout.positions (layout (data g))) ∧
  level_get g (thumbnail_size (data g)) index = None.

(** A render of the item is pending. *)
Definition asked (index : Z) (g : t) : Prop := index ∈ _pending_renders (render g).

Lemma lacks_keeps index g g' : keeps g g' → lacks index g → lacks index g'.
Proof.
  intros (Hc & Hl & Hs & Hlev & _) (Hbox & Hidx & Hnone).
  unfold same_on, content, layout_and_count in *.
  split; [|split].
  - injection Hc. intros. congruence.
  - injection Hl. intros Hcount Hlay. by rewrite Hlay.
  - by rewrite Hs, Hlev.
Qed.

Lemma asked_keeps index g g' : keeps g g' → asked index g → asked index g'.
Proof.
  intros (_ & _ & _ & _ & new & _ & Hp & _) Ha. unfold asked in *. rewrite Hp.
  apply elem_of_union. by left.
Qed.

Lemma request_render_asks index g :
  level_get g (thumbnail_size (data g)) index = None →
  wp (request_render index) (λ _ g', keeps g g' ∧ asked index g') g.
Proof.
  intros Hnone.
  assert (keeps g (request_render index g).1) as Hk by apply (frame_request (R:=keeps)).
  revert Hk. unfold wp, asked, request_render. rewrite (bind_run _ _ g g) by done. unfold id.
  destruct (bool_decide (index ∈ _pending_renders (render g))) eqn:Hpending.
  { apply bool_decide_eq_true in Hpending. intros Hk. by exists (). }
  unfold _render_page_async. rewrite (bind_run _ _ g g) by done. unfold id.
  rewrite Hpending.
  destruct (images_run g) as (g' & Hrun & Hsub & Hsame & Hp).
  rewrite (bind_returns _ _ g g' _ Hrun).
  unfold level_get in Hnone. rewrite Hnone.
  rewrite bool_decide_eq_false_2 by (by intros ?%is_Some_None).
  intros Hk. exists (). split; [done|]. split; [done|].
  change (index ∈ {[index]} ∪ _pending_renders (render g')).
  apply elem_of_union. left. by apply elem_of_singleton.
Qed.

Lemma reuse_page_base_asks loc index base_id x y w h g :
  lacks index g →
  wp (reuse_page_base loc index base_id x y w h)
     (λ a g', keeps g g' ∧ (a = None ∨ asked index g')) g.
Proof.
  intros Hl. unfold reuse_page_base.
  apply wp_bind, wp_gets. unfold id.
  apply wp_bind.
  destruct (images_run g) as (g1 & Hrun & _).
  assert (keeps g g1) as Hk1.
  { pose proof (frame_images (R:=keeps) g) as H. by rewrite Hrun in H. }
  eapply wp_run; [exact Hrun|].
  destruct Hl as (Hbox & Hidx & Hnone). unfold level_get in Hnone. rewrite Hnone.
  pose proof (lacks_keeps index g g1 Hk1 (conj Hbox (conj Hidx Hnone))) as Hl1.
  case_bool_decide.
  - apply wp_bind. apply (wp_frame keeps); [frames_tac|returns_tac|]. intros [] g2 Hk2.
    apply wp_bind.
    eapply wp_mono; [apply request_render_asks, (lacks_keeps index g1 g2 Hk2 Hl1)|].
    intros [] g3 [Hk3 Ha]. apply wp_ret. split; [|by right].
    etrans; [exact Hk1|]. etrans; [exact Hk2|done].
  - apply wp_bind. apply (wp_frame keeps); [frames_tac|returns_tac|]. intros [] g2 Hk2.
    apply wp_bind. apply (wp_frame keeps); [frames_tac|returns_tac|]. intros [] g3 Hk3.
    apply wp_ret. split; [|by left].
    etrans; [exact Hk1|]. etrans; [exact Hk2|done].
Qed.

Lemma create_page_base_asks loc index x y w h g :
  lacks index g →
  wp (create_page_base loc index x y w h) (λ _ g', keeps g g' ∧ asked index g') g.
Proof.
  intros Hl. unfold create_page_base.
  apply wp_bind.
  destruct (images_run g) as (g1 & Hrun & _).
  assert (keeps g g1) as Hk1.
  { pose proof (frame_images (R:=keeps) g) as H. by rewrite Hrun in H. }
  eapply wp_run; [exact Hrun|].
  pose proof (lacks_keeps index g g1 Hk1 Hl) as Hl1.
  destruct Hl as (Hbox & Hidx & Hnone). unfold level_get in Hnone. rewrite Hnone.
  apply wp_bind. apply wp_bind.
  apply (wp_frame keeps); [frames_tac|returns_tac|]. intros rect_id g2 Hk2.
  apply wp_bind.
  eapply wp_mono; [apply request_render_asks, (lacks_keeps index g1 g2 Hk2 Hl1)|].
  intros [] g3 [Hk3 Ha]. apply wp_ret.
  apply (wp_frame keeps); [frames_tac|returns_tac|]. intros [] g4 Hk4.
  split.
  - etrans; [exact Hk1|]. etrans; [exact Hk2|]. by etrans.
  - by apply (asked_keeps index g3 g4).
Qed.

Lemma draw_item_smart_asks index g :
  lacks index g →
  wp (_draw_item_smart index) (λ _ g', keeps g g' ∧ asked index g') g.
Proof.
  intros Hl. pose proof Hl as (Hbox & Hidx & Hnone). unfold _draw_item_smart.
  apply wp_bind, wp_gets. unfold id.
  replace (len (Layout.positions (layout (data g))) <=? index) with false
    by (symmetry; apply Z.leb_gt; lia).
  apply wp_bind.
  destruct (position_at_run g index Hidx) as ([[[x y] w] h] & Hrun & _).
  eapply wp_run; [exact Hrun|]. cbv beta iota.
  apply wp_bind. apply (wp_frame keeps); [frames_tac|returns_tac|]. intros loc g1 Hk1.
  pose proof (lacks_keeps index g g1 Hk1 Hl) as Hl1.
  apply wp_bind, wp_gets. unfold id.
  destruct Hl1 as (Hbox1 & Hidx1 & Hnone1). rewrite Hbox1.
  pose proof (conj Hbox1 (conj Hidx1 Hnone1) : lacks index g1) as Hl1.
  apply wp_bind.
  apply (wp_mono _ (λ a g', keeps g1 g' ∧ (a = None ∨ asked index g'))).
  { destruct (base_of (dict_of g1 loc)) as [b|].
    - by apply reuse_page_base_asks.
    - apply wp_ret. split; [reflexivity|by left]. }
  intros a g2 [Hk2 Ha].
  apply wp_bind.
  apply (wp_mono _ (λ _ g', keeps g2 g' ∧ asked index g')).
  { case_bool_decide as Hnone2.
    - apply create_page_base_asks. by apply (lacks_keeps index g1 g2).
    - apply wp_ret. split; [reflexivity|]. by destruct Ha. }
  intros [] g3 [Hk3 Ha3].
  apply (wp_frame keeps); [frames_tac|returns_tac|]. intros [] g4 Hk4.
  split.
  - etrans; [exact Hk1|]. etrans; [exact Hk2|]. by etrans.
  - by apply (asked_keeps index g3 g4).
Qed.

End rerequest.

Section rerequest_redraw.
Import Grid.

(** The part of the canvas the visible range is read from. *)
Definition view (g : t) : Z * Z :=
  (Canvas.canvasy (canvas g) 0, Canvas.winfo_height (canvas g)).

Lemma view_redraw_reset : frames (same_on view) redraw_reset.
Proof.
  unfold redraw_reset.
  frames_with ltac:(apply (frames_modify (same_on view)); intros ?; reflexivity).
Qed.

Lemma redraw_items_asks index start_idx end_idx g0 g :
  keeps g0 g → lacks index g0 → 0 <= start_idx → start_idx <= index < end_idx →
  wp (redraw_items start_idx end_idx) (λ _ g', keeps g0 g' ∧ asked index g') g.
Proof.
  intros Hk Hl Hs Hi. unfold redraw_items.
  apply wp_bind, wp_gets. unfold id.
  apply wp_bind. apply (wp_frame keeps); [frames_tac|returns_tac|]. intros [] g1 Hk1.
  apply wp_bind. apply (wp_frame keeps); [frames_tac|returns_tac|]. intros [] g2 Hk2.
  cbv zeta.
  apply wp_bind. apply (wp_frame keeps); [frames_tac|returns_tac|]. intros [] g3 Hk3.
  apply wp_bind, wp_gets. unfold id.
  apply wp_bind. apply (wp_frame keeps); [frames_tac|returns_tac|]. intros [] g4 Hk4.
  assert (keeps g0 g4) as Hk04.
  { etrans; [exact Hk|]. etrans; [exact Hk1|]. etrans; [exact Hk2|]. by etrans. }
  apply (wp_for_each (λ s, keeps g0 s) (λ s, keeps g0 s ∧ asked index s) _ _ index);
    [by apply elem_of_py_range_2| | |done].
  - intros y s Hy Hks. apply elem_of_py_range in Hy.
    destruct (decide (y = index)) as [->|Hne].
    + eapply wp_mono; [apply draw_item_smart_asks, (lacks_keeps index g0 s Hks Hl)|].
      intros [] s' [Hks' Ha]. simpl.
      assert (keeps g0 s') by (by etrans). done.
    + apply (wp_frame keeps);
        [apply (frames_draw_item_smart _)|apply never_raises_draw_item_smart; lia|].
      intros [] s' Hks'. split; [by etrans|done].
  - intros y s Hy [Hks Ha]. apply elem_of_py_range in Hy.
    apply (wp_frame keeps);
      [apply (frames_draw_item_smart _)|apply never_raises_draw_item_smart; lia|].
    intros [] s' Hks'. split; [by etrans|by apply (asked_keeps index s s')].
Qed.

Lemma redraw_asks index g :
  box_mode (data g) = false → item_count (data g) ≠ 0 →
  level_get g (thumbnail_size (data g)) index = None →
  (let r := Layout.get_visible_range (layout (data g)) (Canvas.canvasy (canvas g) 0)
              (Canvas.winfo_height (canvas g)) in r.1 <= index < r.2) →
  wp redraw (λ _ g', keeps g g' ∧ asked index g') g.
Proof.
  intros Hbox Hcount Hnone Hvis. cbv zeta in Hvis.
  pose proof (get_visible_range_bounds (layout (data g)) (Canvas.canvasy (canvas g) 0)
                (Canvas.winfo_height (canvas g))) as [Hs He].
  assert (lacks index g) as Hl by (split_and!; [done|lia|lia|done]).
  unfold redraw.
  apply wp_bind.
  apply (wp_frame (λ s s', keeps s s' ∧ same_on view s s'));
    [apply frames_and; [apply (frames_redraw_reset _)|apply view_redraw_reset]
    |apply never_raises_redraw_reset|].
  intros [] g1 [Hk1 Hv1].
  apply wp_bind, wp_gets. unfold id.
  assert (layout (data g1) = layout (data g) ∧ item_count (data g1) = item_count (data g))
    as [Hlay Hcnt].
  { destruct Hk1 as (_ & Hlc & _). unfold same_on, layout_and_count in Hlc.
    by injection Hlc. }
  unfold same_on, view in Hv1. injection Hv1 as Hy Hh.
  rewrite Hlay, Hy, Hh, Hcnt.
  destruct (Layout.get_visible_range _ _ _) as [start_idx end_idx]. simpl in *.
  rewrite bool_decide_eq_false_2 by done.
  apply wp_bind.
  eapply wp_mono; [by apply (redraw_items_asks index start_idx end_idx g g1)|].
  intros [] g2 [Hk2 Ha2].
  apply wp_bind.
  apply (wp_returns keeps drawable);
    [apply (frames_redraw_indicators _)|apply returns_redraw_indicators| |].
  { intros _. destruct (lacks_keeps index g g2 Hk2 Hl) as (_ & ? & _). lia. }
  intros [] g3 Hk3.
  apply (wp_frame keeps); [frames_tac|returns_tac|]. intros [] g4 Hk4.
  split.
  - etrans; [exact Hk2|]. by etrans.
  - apply (asked_keeps index g3 g4 Hk4), (asked_keeps index g2 g3 Hk3), Ha2.
Qed.

End rerequest_redraw.

(** X18: a render that fails is asked for again.  When the worker's
    call of [on_request_image] raises or returns nothing, [render_task]
    still returns: the item is no longer pending, no image is stored at any
    zoom level and nothing is queued for the UI thread.  The next [redraw]
    of a grid in page mode that has the item in its visible range and no
    image of it at the current zoom level returns, submits exactly one more
    render of the item at the current thumbnail size among its new
    requests, leaves the item pending, and stores no image. *)
Theorem render_failure_is_retried (g : Grid.t) (index size : Z)
    (outcome : res (option PILImage)) :
  (∀ pil_img, outcome ≠ Ok (Some pil_img)) →
  Grid.box_mode (Grid.data g) = false → Grid.item_count (Grid.data g) ≠ 0 →
  level_get g (Grid.thumbnail_size (Grid.data g)) index = None →
  (let r := Layout.get_visible_range (Grid.layout (Grid.data g))
              (Canvas.canvasy (Grid.canvas g) 0) (Canvas.winfo_height (Grid.canvas g)) in
   r.1 <= index < r.2) →
  let failed := Grid.render_task index size outcome g in
  let r := Grid.redraw failed.1 in
  failed.2 = Ok () ∧ ¬ asked index failed.1 ∧
  (∀ size i, level_get failed.1 size i = level_get g size i) ∧
  Grid.after_queue (Grid.render failed.1) = Grid.after_queue (Grid.render g) ∧
  Grid.submitted (Grid.render failed.1) = Grid.submitted (Grid.render g) ∧
  r.2 = Ok () ∧ asked index r.1 ∧
  (∀ size i, level_get r.1 size i = level_get g size i) ∧
  ∃ new, Grid.submitted (Grid.render r.1) = Grid.submitted (Grid.render g) ++ new ∧
         (index, Grid.thumbnail_size (Grid.data g)) ∈ new.
Proof.
  intros Hfail Hbox Hcount Hnone Hvis failed r.
  set (g1 := Grid.upd_render (λ r,
    Grid.set_pending_renders (Grid._pending_renders r ∖ {[index]}) r) g).
  assert (failed = (g1, Ok ())) as Hfailed.
  { unfold failed, Grid.render_task. rewrite (bind_run _ _ g g) by done. unfold id.
    destruct (Grid.on_request_image (Grid.host g)); [|done].
    destruct outcome as [[pil_img|]|e]; [by destruct (Hfail pil_img)|done|done]. }
  subst r. rewrite Hfailed. cbn [fst snd].
  assert (¬ asked index g1) as Hnot.
  { unfold asked, g1.
    change (index ∉ Grid._pending_renders (Grid.render g) ∖ {[index]}).
    intros [_ Hne]%elem_of_difference. apply Hne. by apply elem_of_singleton. }
  destruct (redraw_asks index g1 Hbox Hcount Hnone Hvis)
    as ([] & Hok & (_ & _ & Hsub) & Ha).
  destruct Hsub as (Hsize & Hlev & new & Hnew & Hp & Hall).
  split_and!; try done.
  exists new. split; [done|].
  unfold asked in Ha, Hnot. rewrite Hp in Ha.
  apply elem_of_union in Ha as [?|Ha]; [done|].
  apply elem_of_list_to_set, list_elem_of_fmap in Ha as ([i s] & -> & Hin).
  rewrite Forall_forall in Hall. destruct (Hall _ Hin) as [Hs _]. simpl in *.
  by rewrite <-Hs.
Qed.

Lemma render_failure_is_retried_witness :
  asked 1 (Grid.redraw (Grid.render_task 1 150 (Raise ValueError) rendered_grid).1).1.
Proof.
  refine (proj1 (proj2 (proj2 (proj2 (proj2 (proj2 (proj2
    (render_failure_is_retried rendered_grid 1 150 (Raise ValueError) _ _ _ _ _)))))))).
  - discriminate.
  - vm_compute. reflexivity.
  - vm_compute. discriminate.
  - vm_compute. reflexivity.
  - vm_compute. split; [discriminate|reflexivity].
Defined.
